(** * miner.js: a proof-of-work mining client

    A shallow embedding of [src/miner.js] and the properties of its
    nonce search, block assembly, result selection, submission retry and
    periodic scheduling.

    Conventions of the embedding.
    - JavaScript strings are modelled by their UTF-8 bytes ([string]);
      this is what [crypto]'s [update] hashes.
    - JavaScript numbers that hold integers are modelled by [N] or [Z];
      the one place where the IEEE double shows through (an increment at
      2^53) is written out in [js_incr].
    - Arrays are objects: a variable holds a reference into a heap
      ([gmap loc (list JValue)]), so [push] is visible through every alias.
    - What the ledger service sends is kept as the parsed JSON it is
      ([JValue]): the code never checks its shape. Truth tests, field reads,
      comparisons with 0 and template literals follow the conversions of
      the language on such values, the ones that throw included.
    - An [async] function is a tree of effects ([Prog]); a [catch] block is
      a program like any other, and throws when formatting its error
      throws. One interpreter runs a single call to completion against a
      scripted network, a second one is the timer-driven event loop of the
      process.
    - The clock of a world counts the time spent waiting for requests and
      timers. The time that the code itself takes to run is not modelled. *)

From Stdlib Require Import ZArith NArith List String Ascii Bool Lia DecimalString DecimalN.
From stdpp Require Import base option gmap.
Import ListNotations.

Set Warnings "-register-all".
Local Open Scope list_scope.
Local Open Scope string_scope.

(** ** SHA-256 (FIPS 180-4), the digest behind [crypto.createHash('sha256')] *)

Module SHA256.
Local Open Scope Z_scope.

Definition wrap32 (x : Z) : Z := Z.land x 0xffffffff.
Definition add32 (x y : Z) : Z := wrap32 (x + y).
Definition rotr (n x : Z) : Z := Z.lor (Z.shiftr x n) (wrap32 (Z.shiftl x (32 - n))).
Definition not32 (x : Z) : Z := Z.lxor x 0xffffffff.

Definition Ch (x y z : Z) : Z := Z.lxor (Z.land x y) (Z.land (not32 x) z).
Definition Maj (x y z : Z) : Z := Z.lxor (Z.lxor (Z.land x y) (Z.land x z)) (Z.land y z).
Definition Sigma0 (x : Z) : Z := Z.lxor (Z.lxor (rotr 2 x) (rotr 13 x)) (rotr 22 x).
Definition Sigma1 (x : Z) : Z := Z.lxor (Z.lxor (rotr 6 x) (rotr 11 x)) (rotr 25 x).
Definition sigma0 (x : Z) : Z := Z.lxor (Z.lxor (rotr 7 x) (rotr 18 x)) (Z.shiftr x 3).
Definition sigma1 (x : Z) : Z := Z.lxor (Z.lxor (rotr 17 x) (rotr 19 x)) (Z.shiftr x 10).

(** The constants of the standard are defined from the primes: the round
    constants are the first 32 bits of the fractional parts of the cube roots
    of the first 64 primes, the initial hash value those of the square roots
    of the first 8. *)
Definition is_prime (n : nat) : bool :=
  forallb (fun d => negb (Nat.eqb (Nat.modulo n d) 0)) (seq 2 (n - 2)).

Definition primes : list Z :=
  Eval vm_compute in map Z.of_nat (filter is_prime (seq 2 310)).

(** The integer cube root, one bit at a time from bit [bits - 1] down. *)
Fixpoint cube_root (bits : nat) (n root : Z) : Z :=
  match bits with
  | O => root
  | S b =>
      let candidate := root + 2 ^ Z.of_nat b in
      cube_root b n (if candidate * candidate * candidate <=? n then candidate else root)
  end.

Definition fraction_of_cube_root (p : Z) : Z := wrap32 (cube_root 40 (p * 2 ^ 96) 0).
Definition fraction_of_square_root (p : Z) : Z := wrap32 (Z.sqrt (p * 2 ^ 64)).

Definition K : list Z := Eval vm_compute in map fraction_of_cube_root primes.

(** The eight working words. *)
Record regs := Regs { ra : Z; rb : Z; rc : Z; rd : Z; re : Z; rf : Z; rg : Z; rh : Z }.

Definition H0 : regs :=
  Eval vm_compute in
    match map fraction_of_square_root (firstn 8 primes) with
    | [a; b; c; d; e; f; g; h] => Regs a b c d e f g h
    | _ => Regs 0 0 0 0 0 0 0 0
    end.

(** Message schedule. [newest_first] holds W(t-1), W(t-2), ... *)
Fixpoint extend (n : nat) (newest_first : list Z) : list Z :=
  match n with
  | O => newest_first
  | S n' =>
      let w2 := nth 1 newest_first 0 in
      let w7 := nth 6 newest_first 0 in
      let w15 := nth 14 newest_first 0 in
      let w16 := nth 15 newest_first 0 in
      extend n' (add32 (add32 (sigma1 w2) w7) (add32 (sigma0 w15) w16) :: newest_first)
  end.

Definition schedule (block : list Z) : list Z := rev (extend 48 (rev block)).

Definition round (s : regs) (kw : Z * Z) : regs :=
  let '(Regs a b c d e f g h) := s in
  let t1 := add32 (add32 (add32 h (Sigma1 e)) (add32 (Ch e f g) (fst kw))) (snd kw) in
  let t2 := add32 (Sigma0 a) (Maj a b c) in
  Regs (add32 t1 t2) a b c (add32 d t1) e f g.

Definition compress (h : regs) (block : list Z) : regs :=
  let '(Regs a b c d e f g h') := fold_left round (combine K (schedule block)) h in
  Regs (add32 (ra h) a) (add32 (rb h) b) (add32 (rc h) c) (add32 (rd h) d)
       (add32 (re h) e) (add32 (rf h) f) (add32 (rg h) g) (add32 (rh h) h').

Fixpoint bytes_of (s : string) : list Z :=
  match s with
  | EmptyString => []
  | String c s' => Z.of_N (N_of_ascii c) :: bytes_of s'
  end.

Definition be64 (n : Z) : list Z :=
  map (fun i => Z.land (Z.shiftr n (8 * i)) 0xff) [7; 6; 5; 4; 3; 2; 1; 0].

(** Padding: a 1 bit, zeros up to 56 mod 64 bytes, the bit length on 64 bits. *)
Definition pad (msg : list Z) : list Z :=
  let l := Z.of_nat (List.length msg) in
  (msg ++ 0x80 :: repeat 0 (Z.to_nat ((55 - l) mod 64)) ++ be64 (8 * l))%list.

(** Big-endian 32-bit words. *)
Fixpoint words (fuel : nat) (bs : list Z) : list Z :=
  match fuel, bs with
  | S k, b0 :: b1 :: b2 :: b3 :: rest =>
      Z.lor (Z.shiftl b0 24) (Z.lor (Z.shiftl b1 16) (Z.lor (Z.shiftl b2 8) b3))
        :: words k rest
  | _, _ => []
  end.

Fixpoint blocks (fuel : nat) (h : regs) (ws : list Z) : regs :=
  match fuel, ws with
  | S k, _ :: _ => blocks k (compress h (firstn 16 ws)) (skipn 16 ws)
  | _, _ => h
  end.

Definition digest (msg : list Z) : regs :=
  let p := pad msg in
  let ws := words (List.length p) p in
  blocks (List.length ws) H0 ws.

Definition hex_digit (n : Z) : ascii :=
  match n with
  | 0 => "0" | 1 => "1" | 2 => "2" | 3 => "3" | 4 => "4" | 5 => "5"
  | 6 => "6" | 7 => "7" | 8 => "8" | 9 => "9" | 10 => "a" | 11 => "b"
  | 12 => "c" | 13 => "d" | 14 => "e" | _ => "f"
  end%char.

Definition nibble (w i : Z) : ascii := hex_digit (Z.land (Z.shiftr w (4 * i)) 0xf).

Definition hex32 (w : Z) (tail : string) : string :=
  String (nibble w 7) (String (nibble w 6) (String (nibble w 5) (String (nibble w 4)
  (String (nibble w 3) (String (nibble w 2) (String (nibble w 1) (String (nibble w 0)
  tail))))))).

Definition hex (s : regs) : string :=
  let '(Regs a b c d e f g h) := s in
  hex32 a (hex32 b (hex32 c (hex32 d (hex32 e (hex32 f (hex32 g (hex32 h EmptyString))))))).

(** [createHash('sha256').update(s).digest('hex')] *)
Definition sha256_hex (s : string) : string := hex (digest (bytes_of s)).

End SHA256.

(** ** JSON values and [JSON.stringify] *)

Module Json.

(** Object fields are kept in the object's own enumeration order. Numbers
    are the integers from -2^53 to 2^53: a double holds them exactly and
    prints them digit by digit. Fractions and larger magnitudes are outside
    the model; every number that the code itself makes (a nonce, a
    difficulty, a length, the reward) is within it. *)
Inductive JValue : Type :=
| JNull
| JBool (b : bool)
| JNum (n : Z)
| JStr (s : string)
| JArr (items : list JValue)
| JObj (fields : list (string * JValue)).

Definition dquote : ascii := "034"%char.
Definition backslash : ascii := "092"%char.

Definition N_to_dec (n : N) : string := NilEmpty.string_of_uint (N.to_uint n).

Definition Z_to_dec (z : Z) : string :=
  match z with
  | Zneg p => String "-" (N_to_dec (Npos p))
  | _ => N_to_dec (Z.to_N z)
  end.

(** Escapes of [JSON.stringify]'s [QuoteJSONString]: the quote, the
    backslash and the control characters below U+0020. *)
Definition escape_char (c : ascii) : string :=
  let n := N_of_ascii c in
  if (n =? 34)%N then String backslash (String dquote EmptyString)
  else if (n =? 92)%N then String backslash (String backslash EmptyString)
  else if (n =? 8)%N then String backslash "b"
  else if (n =? 9)%N then String backslash "t"
  else if (n =? 10)%N then String backslash "n"
  else if (n =? 12)%N then String backslash "f"
  else if (n =? 13)%N then String backslash "r"
  else if (n <? 32)%N then
    String backslash
      (String "u" (String "0" (String "0"
        (String (SHA256.hex_digit (Z.of_N (n / 16)))
          (String (SHA256.hex_digit (Z.of_N (n mod 16))) EmptyString)))))
  else String c EmptyString.

Fixpoint escape (s : string) : string :=
  match s with
  | EmptyString => EmptyString
  | String c s' => escape_char c ++ escape s'
  end.

Definition quote (s : string) : string :=
  String dquote (escape s ++ String dquote EmptyString).

Fixpoint join (parts : list string) : string :=
  match parts with
  | [] => EmptyString
  | [p] => p
  | p :: rest => p ++ "," ++ join rest
  end.

Fixpoint stringify (v : JValue) : string :=
  match v with
  | JNull => "null"
  | JBool true => "true"
  | JBool false => "false"
  | JNum n => Z_to_dec n
  | JStr s => quote s
  | JArr items => "[" ++ join (map stringify items) ++ "]"
  | JObj fields =>
      "{" ++ join (map (fun kv => quote (fst kv) ++ ":" ++ stringify (snd kv)) fields) ++ "}"
  end.

End Json.
Import Json.


(** ** What the code does with a parsed value

    The answers of the ledger service reach the code as parsed JSON. The
    code tests such values for truth, reads fields of them, compares a
    [length] with 0 and formats them in template literals. These are the
    conversions of the language on values that [JSON.parse] can make: a
    parsed object has no method of its own, so a field called [toString]
    hides the inherited one without being callable. *)

(** [if (v)] *)
Definition truthy (v : JValue) : bool :=
  match v with
  | JNull => false
  | JBool b => b
  | JNum n => negb (n =? 0)%Z
  | JStr s => negb (String.eqb s EmptyString)
  | JArr _ | JObj _ => true
  end.

(** The field [name] among the own fields of an object. A parsed object has
    each key once; should a list repeat one, the last counts, as in
    [JSON.parse]. *)
Fixpoint own_field (name : string) (fields : list (string * JValue)) : option JValue :=
  match fields with
  | [] => None
  | (key, v) :: rest =>
      match own_field name rest with
      | Some later => Some later
      | None => if String.eqb key name then Some v else None
      end
  end.

(** [v.name] for a name that no prototype defines ([blockHash],
    [pendingTransactions]) and a [v] that is not [null]; [None] is
    [undefined]. *)
Definition get_field (name : string) (v : JValue) : option JValue :=
  match v with
  | JObj fields => own_field name fields
  | _ => None
  end.

(** [ToString]: [None] when the conversion throws a [TypeError]. An array
    is joined with commas, [null] elements giving the empty text; an object
    gives ["[object Object]"] unless a field [toString] of its own hides the
    inherited method: such a field holds parsed data, which cannot be called,
    and [valueOf] then gives back the object. *)
Fixpoint to_string (v : JValue) : option string :=
  match v with
  | JNull => Some "null"
  | JBool true => Some "true"
  | JBool false => Some "false"
  | JNum n => Some (Z_to_dec n)
  | JStr s => Some s
  | JArr items =>
      (fix joined (l : list JValue) : option string :=
         match l with
         | [] => Some EmptyString
         | x :: rest =>
             match (match x with JNull => Some EmptyString | _ => to_string x end),
                   joined rest with
             | Some first, Some others =>
                 Some (match rest with [] => first | _ => first ++ "," ++ others end)
             | _, _ => None
             end
         end) items
  | JObj fields =>
      match own_field "toString" fields with
      | Some _ => None
      | None => Some "[object Object]"
      end
  end.

Definition printable (v : JValue) : bool :=
  match to_string v with
  | Some _ => true
  | None => false
  end.

(** The [length] of a string counts UTF-16 code units: one for each
    character of one to three bytes, two for each character of four. *)
Fixpoint utf16_length (s : string) : nat :=
  match s with
  | EmptyString => O
  | String c rest =>
      let b := N_of_ascii c in
      ((if (b <? 128)%N then 1
        else if (b <? 192)%N then 0
        else if (b <? 240)%N then 1
        else 2) + utf16_length rest)%nat
  end.

(** [v.length] for a [v] that is not [null]. *)
Definition length_field (v : JValue) : option JValue :=
  match v with
  | JArr items => Some (JNum (Z.of_nat (List.length items)))
  | JStr s => Some (JNum (Z.of_nat (utf16_length s)))
  | JObj fields => own_field "length" fields
  | _ => None
  end.

(** *** A string read as a number

    [ToNumber] on a string follows the grammar [StringNumericLiteral]:
    white space around a decimal literal (with sign, fraction and exponent),
    [Infinity], or a hexadecimal, octal or binary integer. Only the sign of
    the result is needed here. *)

(** The white space and line terminators of the language at the head of a
    text, in UTF-8: U+0009 to U+000D, U+0020, U+00A0, U+1680, U+2000 to
    U+200A, U+2028, U+2029, U+202F, U+205F, U+3000 and U+FEFF. *)
Definition space3 (b0 b1 b2 : N) : bool :=
  ((b0 =? 0xE1) && (b1 =? 0x9A) && (b2 =? 0x80) ||
   (b0 =? 0xE2) && (b1 =? 0x80) &&
     ((0x80 <=? b2) && (b2 <=? 0x8A) || (b2 =? 0xA8) || (b2 =? 0xA9) || (b2 =? 0xAF)) ||
   (b0 =? 0xE2) && (b1 =? 0x81) && (b2 =? 0x9F) ||
   (b0 =? 0xE3) && (b1 =? 0x80) && (b2 =? 0x80) ||
   (b0 =? 0xEF) && (b1 =? 0xBB) && (b2 =? 0xBF))%N.

Fixpoint skip_space (s : string) : string :=
  match s with
  | EmptyString => EmptyString
  | String c rest =>
      let b := N_of_ascii c in
      if ((9 <=? b) && (b <=? 13) || (b =? 32))%N then skip_space rest
      else
        match rest with
        | EmptyString => s
        | String c1 rest1 =>
            if ((b =? 0xC2) && (N_of_ascii c1 =? 0xA0))%N then skip_space rest1
            else
              match rest1 with
              | EmptyString => s
              | String c2 rest2 =>
                  if space3 b (N_of_ascii c1) (N_of_ascii c2) then skip_space rest2 else s
              end
        end
  end.

Definition only_space (s : string) : bool :=
  match skip_space s with
  | EmptyString => true
  | _ => false
  end.

Definition digit_value (c : ascii) : option N :=
  let b := N_of_ascii c in
  if ((48 <=? b) && (b <=? 57))%N then Some (b - 48)%N
  else if ((97 <=? b) && (b <=? 102))%N then Some (b - 87)%N
  else if ((65 <=? b) && (b <=? 70))%N then Some (b - 55)%N
  else None.

(** The digits in base [base] at the head of a text, and what follows. *)
Fixpoint digits (base : N) (s : string) : list N * string :=
  match s with
  | EmptyString => ([], s)
  | String c rest =>
      match digit_value c with
      | Some d =>
          if (d <? base)%N
          then let '(ds, after) := digits base rest in (d :: ds, after)
          else ([], s)
      | None => ([], s)
      end
  end.

Definition number_of (base : N) (ds : list N) : N :=
  fold_left (fun acc d => (acc * base + d)%N) ds 0%N.

(** After [0x], [0o] or [0b]: at least one digit, then white space only. *)
Definition radix_positive (base : N) (s : string) : bool :=
  let '(ds, after) := digits base s in
  match ds with
  | [] => false
  | _ => only_space after && (0 <? number_of base ds)%N
  end.

(** The exponent part, if the text starts with one: its value and what
    follows. An [e] without digits is not an exponent. *)
Definition exponent (s : string) : Z * string :=
  match s with
  | String c rest =>
      if (Ascii.eqb c "e" || Ascii.eqb c "E")%char then
        let '(negative, body) :=
          match rest with
          | String sign body =>
              if Ascii.eqb sign "-" then (true, body)
              else if Ascii.eqb sign "+" then (false, body)
              else (false, rest)
          | EmptyString => (false, rest)
          end in
        let '(ds, after) := digits 10 body in
        match ds with
        | [] => (0%Z, s)
        | _ =>
            let e := Z.of_N (number_of 10 ds) in
            ((if negative then - e else e)%Z, after)
        end
      else (0%Z, s)
  | EmptyString => (0%Z, s)
  end.

(** An unsigned decimal literal or [Infinity], then white space only: is the
    number it denotes, rounded to the nearest double, positive? A value of
    at most 2^-1075 rounds to 0. *)
Definition decimal_positive (s : string) : bool :=
  if String.eqb (substring 0 8 s) "Infinity"
  then only_space (substring 8 (String.length s - 8) s)
  else
    let '(whole, after_whole) := digits 10 s in
    let '(fraction, after_fraction) :=
      match after_whole with
      | String c rest => if Ascii.eqb c "." then digits 10 rest else ([], after_whole)
      | EmptyString => ([], after_whole)
      end in
    let '(e, after) := exponent after_fraction in
    match (whole ++ fraction)%list with
    | [] => false
    | mantissa =>
        let m := Z.of_N (number_of 10 mantissa) in
        let e10 := (e - Z.of_nat (List.length fraction))%Z in
        only_space after && (0 <? m)%Z &&
        (if (0 <=? e10)%Z then true else (10 ^ (- e10) <? m * 2 ^ 1075)%Z)
    end.

(** [ToNumber(s) > 0] *)
Definition string_positive (s : string) : bool :=
  match skip_space s with
  | EmptyString => false
  | String c rest as text =>
      if Ascii.eqb c "-" then false
      else if Ascii.eqb c "+" then decimal_positive rest
      else
        match rest with
        | String x body =>
            if Ascii.eqb c "0" && (Ascii.eqb x "x" || Ascii.eqb x "X")
            then radix_positive 16 body
            else if Ascii.eqb c "0" && (Ascii.eqb x "o" || Ascii.eqb x "O")
            then radix_positive 8 body
            else if Ascii.eqb c "0" && (Ascii.eqb x "b" || Ascii.eqb x "B")
            then radix_positive 2 body
            else decimal_positive text
        | EmptyString => decimal_positive text
        end
  end.

(** [x > 0], where [None] is [undefined]; the result is [None] when the
    conversion of an object throws. [null] counts as 0, [true] as 1, an
    array or object as the string it converts to; what is not a number is
    not greater than 0. *)
Definition greater_than_zero (x : option JValue) : option bool :=
  match x with
  | None => Some false
  | Some JNull => Some false
  | Some (JBool b) => Some b
  | Some (JNum n) => Some (0 <? n)%Z
  | Some (JStr s) => Some (string_positive s)
  | Some object => option_map string_positive (to_string object)
  end.

(** [x === 0] *)
Definition is_zero (x : option JValue) : bool :=
  match x with
  | Some (JNum n) => (n =? 0)%Z
  | _ => false
  end.
(** ** Process-wide settings

    [minerAddress] is [process.argv[2]]; [difficulty] and [parallelThreads]
    are the two module-level variables, small non-negative integers (4 and 4
    in the source). The limits of the engine on the length of a string or of
    an array are not modelled. *)

Record Config := {
  minerAddress : string;
  difficulty : N;
  parallelThreads : N
}.

(** The values written in the source. *)
Definition source_config (address : string) : Config :=
  {| minerAddress := address; difficulty := 4; parallelThreads := 4 |}.

(** ** The nonce search worker, [mineSingleTask] *)

Record MiningResult := { nonce : N; hash : string }.

(** ['0'.repeat(n)] *)
Fixpoint zeros (n : nat) : string :=
  match n with
  | O => EmptyString
  | S n' => String "0" (zeros n')
  end.

(** [nonce++] on a double holding an integer no larger than 2^53: exact
    below 2^53, and 2^53 + 1 rounds back to 2^53. *)
Definition js_incr (n : N) : N := if (n <? 2 ^ 53)%N then (n + 1)%N else n.

(** The [do ... while] loop. [fuel] bounds the number of iterations: [None]
    says that the loop is still running when the fuel is spent, and a result
    comes with the fuel that is left. *)
Fixpoint mine_loop (fuel : nat) (blockHeader target : string) (nonce : N)
  : option (MiningResult * nat) :=
  match fuel with
  | O => None
  | S fuel' =>
      let nonce := js_incr nonce in
      let blockData := blockHeader ++ N_to_dec nonce in
      let hash := SHA256.sha256_hex blockData in
      if String.eqb (substring 0 (String.length target) hash) target
      then Some ({| nonce := nonce; hash := hash |}, fuel')
      else mine_loop fuel' blockHeader target nonce
  end.

(** [let nonce = threadIndex * 1000000] *)
Definition start_nonce (threadIndex : N) : N := (threadIndex * 1000000)%N.

Definition mineSingleTask (fuel : nat) (blockHeader target : string) (threadIndex : N)
  : option (MiningResult * nat) :=
  mine_loop fuel blockHeader target (start_nonce threadIndex).

(** The test of the loop, as a predicate on a nonce. *)
Definition qualifies (blockHeader target : string) (m : N) : Prop :=
  substring 0 (String.length target) (SHA256.sha256_hex (blockHeader ++ N_to_dec m)) = target.

(** The first [d] characters of [h] are all ['0']. *)
Definition leading_zeros (d : nat) (h : string) : Prop :=
  forall i, (i < d)%nat -> String.get i h = Some "0"%char.


(** ** Effects of the process

    What the code does besides computing: it logs, reads the clock, calls
    the ledger service through [axios], sleeps, and creates, reads and
    extends arrays. *)

Definition loc := nat.

(** What a variable of the code holds: a reference to an array, or a value
    that the code never changes, given in full. *)
Inductive Value :=
| VArr (a : loc)
| VNull
| VBool (b : bool)
| VNum (n : Z)
| VStr (s : string)
| VObj (fields : list (string * JValue)).

Inductive Level := info | error.

(** One constructor per [logger] call of the source, with the values that
    the message interpolates ([None] is [undefined]); the text of an error is
    left out. *)
Inductive LogMsg :=
| StartingMining
| MiningPending (count : option JValue)
| NoPending
| MiningComplete
| Fetching
| FoundPending (count : option JValue)
| NoPendingInResponse
| FetchError
| Requesting
| AddingReward
| BlockAdded (blockHash : option JValue)
| MineError
| RetryingMining
| StartingPoW
| MinedWith (nonce : N) (hash : string)
| RetryAttempt (attempt : N)
| RetrySucceeded (attempt : N) (blockHash : option JValue)
| AttemptFailed (attempt : N)
| RetryingIn (delay : N)
| AllRetriesFailed.

Inductive Error :=
| HttpError (response : option JValue)
    (* a rejected [axios] promise; [error.response.data] if an answer came *)
| TypeError
    (* a property read on [null], a call of what is not a function, a value
       that cannot be converted *)
| MiningError (message : string)
    (* [new Error(message)] *).

(** Answer to a request: the parsed body [response.data], or a rejection,
    with the parsed body of the answer when the service did answer (with a
    status outside 2xx). *)
Inductive GetResponse := GetOk (data : JValue) | GetFailed (response : option JValue).

Inductive PostResponse := PostOk (data : JValue) | PostFailed (response : option JValue).

Inductive Prog (A : Type) : Type :=
| Ret (a : A)
| Throw (e : Error)
| Busy                           (* a worker loop is still running *)
| Log (l : Level) (m : LogMsg) (k : Prog A)
| DateNow (k : N -> Prog A)
| HttpGet (url : string) (k : GetResponse -> Prog A)
| HttpPost (url : string) (body : JValue) (k : PostResponse -> Prog A)
| Sleep (ms : N) (k : Prog A)
| NewArray (items : list JValue) (k : loc -> Prog A)
| ReadArray (a : loc) (k : list JValue -> Prog A)
| Push (a : loc) (item : JValue) (k : Prog A).

Arguments Ret {A} a.
Arguments Throw {A} e.
Arguments Busy {A}.
Arguments Log {A} l m k.
Arguments DateNow {A} k.
Arguments HttpGet {A} url k.
Arguments HttpPost {A} url body k.
Arguments Sleep {A} ms k.
Arguments NewArray {A} items k.
Arguments ReadArray {A} a k.
Arguments Push {A} a item k.

Fixpoint bind {A B : Type} (p : Prog A) (f : A -> Prog B) : Prog B :=
  match p with
  | Ret a => f a
  | Throw e => Throw e
  | Busy => Busy
  | Log l m k => Log l m (bind k f)
  | DateNow k => DateNow (fun t => bind (k t) f)
  | HttpGet url k => HttpGet url (fun r => bind (k r) f)
  | HttpPost url body k => HttpPost url body (fun r => bind (k r) f)
  | Sleep ms k => Sleep ms (bind k f)
  | NewArray items k => NewArray items (fun a => bind (k a) f)
  | ReadArray a k => ReadArray a (fun items => bind (k items) f)
  | Push a item k => Push a item (bind k f)
  end.

(** [try { p } catch (error) { handler error }] *)
Fixpoint try_catch {A : Type} (p : Prog A) (handler : Error -> Prog A) : Prog A :=
  match p with
  | Ret a => Ret a
  | Throw e => handler e
  | Busy => Busy
  | Log l m k => Log l m (try_catch k handler)
  | DateNow k => DateNow (fun t => try_catch (k t) handler)
  | HttpGet url k => HttpGet url (fun r => try_catch (k r) handler)
  | HttpPost url body k => HttpPost url body (fun r => try_catch (k r) handler)
  | Sleep ms k => Sleep ms (try_catch k handler)
  | NewArray items k => NewArray items (fun a => try_catch (k a) handler)
  | ReadArray a k => ReadArray a (fun items => try_catch (k items) handler)
  | Push a item k => Push a item (try_catch k handler)
  end.

Declare Scope prog_scope.
Delimit Scope prog_scope with prog.
Notation "x <- p ;; q" := (bind p (fun x => q))
  (at level 100, p at next level, right associativity) : prog_scope.
Notation "p ;; q" := (bind p (fun _ => q))
  (at level 100, right associativity) : prog_scope.
Local Open Scope prog_scope.

Definition log (l : Level) (m : LogMsg) : Prog unit := Log l m (Ret tt).
Definition now : Prog N := DateNow Ret.
Definition sleep (ms : N) : Prog unit := Sleep ms (Ret tt).
Definition new_array (items : list JValue) : Prog loc := NewArray items Ret.
Definition read_array (a : loc) : Prog (list JValue) := ReadArray a Ret.
Definition push (a : loc) (item : JValue) : Prog unit := Push a item (Ret tt).

(** [await axios.get(url)]: the awaited promise resolves or rejects. *)
Definition axios_get (url : string) : Prog JValue :=
  HttpGet url (fun r =>
    match r with
    | GetOk data => Ret data
    | GetFailed response => Throw (HttpError response)
    end).

Definition axios_post (url : string) (body : JValue) : Prog JValue :=
  HttpPost url body (fun r =>
    match r with
    | PostOk data => Ret data
    | PostFailed response => Throw (HttpError response)
    end).

(** A value interpolated in a template literal is converted to a string
    when the literal is evaluated, before the logger is called. *)
Definition interpolate (x : option JValue) : Prog unit :=
  match x with
  | None => Ret tt
  | Some v => if printable v then Ret tt else Throw TypeError
  end.

(** [response.data.blockHash], read and formatted for the log line: the read
    throws on a [null] body, the formatting on a hash that cannot be
    converted. *)
Definition blockHash_of (data : JValue) : Prog (option JValue) :=
  match data with
  | JNull => Throw TypeError
  | _ =>
      let blockHash := get_field "blockHash" data in
      interpolate blockHash ;;
      Ret blockHash
  end.

(** [error.response?.data || error.message]: the body of the refusal when
    there is one and it is truthy; [None] stands for the message of the
    error, a string. *)
Definition reason_of (e : Error) : option JValue :=
  match e with
  | HttpError (Some data) => if truthy data then Some data else None
  | _ => None
  end.

(** The template literal of a [catch] block that formats that value. *)
Definition format_error (e : Error) : Prog unit :=
  match reason_of e with
  | Some data => interpolate (Some data)
  | None => Ret tt
  end.

(** The value of a variable as JSON: an array is read where it is. *)
Definition json_of (v : Value) : Prog JValue :=
  match v with
  | VArr a => items <- read_array a ;; Ret (JArr items)
  | VNull => Ret JNull
  | VBool b => Ret (JBool b)
  | VNum n => Ret (JNum n)
  | VStr s => Ret (JStr s)
  | VObj fields => Ret (JObj fields)
  end.

(** A parsed value held in a variable: an array is an object of its own. *)
Definition value_of (v : JValue) : Prog Value :=
  match v with
  | JArr items => a <- new_array items ;; Ret (VArr a)
  | JNull => Ret VNull
  | JBool b => Ret (VBool b)
  | JNum n => Ret (VNum n)
  | JStr s => Ret (VStr s)
  | JObj fields => Ret (VObj fields)
  end.

(** [v.length]; the read throws on [null]. *)
Definition length_of (v : Value) : Prog (option JValue) :=
  current <- json_of v ;;
  match current with
  | JNull => Throw TypeError
  | _ => Ret (length_field current)
  end.

(** [v.push(item)]: only an array has the method. *)
Definition push_to (v : Value) (item : JValue) : Prog unit :=
  match v with
  | VArr a => push a item
  | _ => Throw TypeError
  end.

(** [x > 0] as a step of the program. *)
Definition positive (x : option JValue) : Prog bool :=
  match greater_than_zero x with
  | Some b => Ret b
  | None => Throw TypeError
  end.

(** ** The functions of [miner.js] *)

Definition API_URL_MINE : string := "http://localhost:3000/mine".
Definition PENDING_URL : string := "http://localhost:3000/pending-transactions".

(** The object pushed at lines 84-89. *)
Definition reward_transaction (cfg : Config) : JValue :=
  JObj [ ("Holly$", JNum 512);
         ("Transmitter", JStr "Coinbase");
         ("Target", JStr (minerAddress cfg));
         ("BlockReward", JBool true) ].

(** [JSON.stringify({minerAddress, transactions, difficulty})] *)
Definition blockHeader (cfg : Config) (transactions : JValue) : string :=
  stringify (JObj [ ("minerAddress", JStr (minerAddress cfg));
                    ("transactions", transactions);
                    ("difficulty", JNum (Z.of_N (difficulty cfg))) ]).

(** The object [{ transactions, nonce, hash }] that [mineProofOfWorkParallel]
    returns; its [transactions] is the value it was given: for an array the
    same reference, not a copy. *)
Record MinedBlock := {
  block_transactions : Value;
  block_nonce : N;
  block_hash : string
}.

(** [Array(n).fill(0).map((_, index) => ...)] visits 0, 1, ..., n-1. *)
Definition indices (n : N) : list N := map N.of_nat (seq 0 (N.to_nat n)).

(** The callback of [map] calls [mineSingleTask] for one index after the
    other. The function has no [await], so a call returns (a promise that is
    already resolved) only when its loop has exited, and the next worker
    starts with the fuel that is left. *)
Fixpoint call_workers (fuel : nat) (header target : string) (threadIndexes : list N)
  : option (list MiningResult * nat) :=
  match threadIndexes with
  | [] => Some ([], fuel)
  | index :: rest =>
      match mineSingleTask fuel header target index with
      | None => None
      | Some (result, fuel1) =>
          match call_workers fuel1 header target rest with
          | None => None
          | Some (results, fuel2) => Some (result :: results, fuel2)
          end
      end
  end.

(** [await Promise.all(miningTasks)]: the results in index order, once
    every worker has returned. *)
Definition miningTasks (fuel : nat) (cfg : Config) (header target : string)
  : option (list MiningResult) :=
  option_map fst (call_workers fuel header target (indices (parallelThreads cfg))).

(** [results.find(result => result.hash.substring(0, difficulty) === target)] *)
Definition validResult (cfg : Config) (target : string) (results : list MiningResult)
  : option MiningResult :=
  List.find (fun result =>
               String.eqb (substring 0 (N.to_nat (difficulty cfg)) (hash result)) target)
            results.

Definition mining_failed : Error :=
  MiningError "Failed to mine block after all parallel threads".

(** Lines 134-141: choose among the collected results. *)
Definition select_result (cfg : Config) (transactions : Value) (target : string)
    (results : list MiningResult) : Prog MinedBlock :=
  match validResult cfg target results with
  | Some validResult =>
      log info (MinedWith (nonce validResult) (hash validResult)) ;;
      Ret {| block_transactions := transactions;
             block_nonce := nonce validResult;
             block_hash := hash validResult |}
  | None => Throw mining_failed
  end.

Definition mineProofOfWorkParallel (fuel : nat) (cfg : Config) (transactions : Value)
  : Prog MinedBlock :=
  log info StartingPoW ;;
  serialized <- json_of transactions ;;
  let header := blockHeader cfg serialized in
  let target := zeros (N.to_nat (difficulty cfg)) in
  match miningTasks fuel cfg header target with
  | None => Busy
  | Some results => select_result cfg transactions target results
  end.

(** The [for] loop of [retryMineBlock]; [n] counts the iterations left. The
    body answers whether the loop goes on ([return] inside [try] ends it).
    The [catch] block formats the error before it logs it: an error thrown
    there leaves the function. *)
Fixpoint retry_loop (n : nat) (cfg : Config) (retries delay attempt : N) : Prog unit :=
  match n with
  | O => Ret tt
  | S n' =>
      if (attempt <=? retries)%N then
        again <- try_catch
          (log info (RetryAttempt attempt) ;;
           data <- axios_post API_URL_MINE (JObj [("minerAddress", JStr (minerAddress cfg))]) ;;
           blockHash <- blockHash_of data ;;
           log info (RetrySucceeded attempt blockHash) ;;
           Ret false)
          (fun thrown =>
             format_error thrown ;;
             log error (AttemptFailed attempt) ;;
             (if (attempt <? retries)%N
              then log info (RetryingIn delay) ;; sleep delay
              else log info AllRetriesFailed) ;;
             Ret true) ;;
        if again then retry_loop n' cfg retries delay (attempt + 1)%N else Ret tt
      else Ret tt
  end.

(** [retryMineBlock(retries = 3, delay = 12000)]; an omitted argument is
    [None]. The loop runs [attempt] from 1 while [attempt <= retries]. *)
Definition retryMineBlock (cfg : Config) (retries delay : option N) : Prog unit :=
  let retries := default 3%N retries in
  let delay := default 12000%N delay in
  retry_loop (N.to_nat retries) cfg retries delay 1%N.

Definition mineBlock (fuel : nat) (cfg : Config) (transactions : Value) : Prog unit :=
  log info Requesting ;;
  try_catch
    (count <- length_of transactions ;;
     (if is_zero count
      then push_to transactions (reward_transaction cfg) ;; log info AddingReward
      else Ret tt) ;;
     minedBlock <- mineProofOfWorkParallel fuel cfg transactions ;;
     sent <- json_of minedBlock.(block_transactions) ;;
     let blockData :=
       JObj [ ("minerAddress", JStr (minerAddress cfg));
              ("transactions", sent);
              ("nonce", JNum (Z.of_N minedBlock.(block_nonce)));
              ("hash", JStr minedBlock.(block_hash)) ] in
     data <- axios_post API_URL_MINE blockData ;;
     blockHash <- blockHash_of data ;;
     log info (BlockAdded blockHash))
    (fun thrown =>
       format_error thrown ;;
       log error MineError ;;
       log info RetryingMining ;;
       retryMineBlock cfg None None).

(** [response.data && response.data.pendingTransactions], when truthy. *)
Definition pending_field (data : JValue) : option JValue :=
  if truthy data then
    match get_field "pendingTransactions" data with
    | Some pending => if truthy pending then Some pending else None
    | None => None
    end
  else None.

(** The function returns the field as it is, whatever it holds; the two
    [return []] make a new array each. *)
Definition getPendingTransactions : Prog Value :=
  try_catch
    (log info Fetching ;;
     data <- axios_get PENDING_URL ;;
     match pending_field data with
     | Some pending =>
         interpolate (length_field pending) ;;
         log info (FoundPending (length_field pending)) ;;
         value_of pending
     | None =>
         log error NoPendingInResponse ;;
         empty <- new_array [] ;;
         Ret (VArr empty)
     end)
    (fun _ =>
       log error FetchError ;;
       empty <- new_array [] ;;
       Ret (VArr empty)).

Definition startMining (fuel : nat) (cfg : Config) : Prog unit :=
  timestamp <- now ;;
  log info StartingMining ;;
  pendingTransactions <- getPendingTransactions ;;
  count <- length_of pendingTransactions ;;
  some <- positive count ;;
  (if some
   then interpolate count ;;
        log info (MiningPending count) ;;
        mineBlock fuel cfg pendingTransactions
   else log info NoPending ;;
        fresh <- new_array [] ;;
        mineBlock fuel cfg (VArr fresh)) ;;
  log info MiningComplete.

(** ** Running one call to completion *)

Inductive Event :=
| EvLog (l : Level) (m : LogMsg)
| EvGet (url : string)
| EvPost (url : string) (body : JValue)
| EvSleep (ms : N).

(** The ledger service, scripted: the answer to the [n]-th request of the
    process and the time it takes, in milliseconds. *)
Record Network := {
  on_get : nat -> string -> N * GetResponse;
  on_post : nat -> string -> JValue -> N * PostResponse
}.

Record World := {
  heap : gmap loc (list JValue);
  next_loc : loc;
  clock : N;
  requests : nat;
  trace : list Event
}.

Definition emit (e : Event) (w : World) : World :=
  {| heap := heap w; next_loc := next_loc w; clock := clock w;
     requests := requests w; trace := trace w ++ [e] |}.

Definition elapse (ms : N) (w : World) : World :=
  {| heap := heap w; next_loc := next_loc w; clock := (clock w + ms)%N;
     requests := requests w; trace := trace w |}.

Definition count_request (w : World) : World :=
  {| heap := heap w; next_loc := next_loc w; clock := clock w;
     requests := S (requests w); trace := trace w |}.

Definition alloc (items : list JValue) (w : World) : loc * World :=
  (next_loc w,
   {| heap := <[next_loc w := items]> (heap w); next_loc := S (next_loc w);
      clock := clock w; requests := requests w; trace := trace w |}).

Definition contents (a : loc) (w : World) : list JValue := default [] (heap w !! a).

(** [array.push(item)] changes the array that every alias refers to. *)
Definition append_to (a : loc) (item : JValue) (w : World) : World :=
  {| heap := <[a := (contents a w ++ [item])%list]> (heap w); next_loc := next_loc w;
     clock := clock w; requests := requests w; trace := trace w |}.

Inductive Outcome (A : Type) :=
| Returned (a : A)
| Threw (e : Error)
| Unfinished.

Arguments Returned {A} a.
Arguments Threw {A} e.
Arguments Unfinished {A}.

Fixpoint run {A : Type} (net : Network) (p : Prog A) (w : World) : Outcome A * World :=
  match p with
  | Ret a => (Returned a, w)
  | Throw e => (Threw e, w)
  | Busy => (Unfinished, w)
  | Log l m k => run net k (emit (EvLog l m) w)
  | DateNow k => run net (k (clock w)) w
  | HttpGet url k =>
      let '(latency, r) := on_get net (requests w) url in
      run net (k r) (elapse latency (count_request (emit (EvGet url) w)))
  | HttpPost url body k =>
      let '(latency, r) := on_post net (requests w) url body in
      run net (k r) (elapse latency (count_request (emit (EvPost url body) w)))
  | Sleep ms k => run net k (elapse ms (emit (EvSleep ms) w))
  | NewArray items k => let '(a, w') := alloc items w in run net (k a) w'
  | ReadArray a k => run net (k (contents a w)) w
  | Push a item k => run net k (append_to a item w)
  end.

Definition initial_world : World :=
  {| heap := ∅; next_loc := 0; clock := 0; requests := 0; trace := [] |}.

(** ** The process: a timer and the rounds it starts

    [setInterval(startMining, 10000)] is the only top-level statement that
    runs after start-up. A call of [startMining] runs until its first
    [await] of a request or of a timer; it is resumed when that request or
    timer completes. A worker loop does not yield: while it runs nothing
    else does. [clock] is the time, in milliseconds, that the process has
    spent waiting for requests and timers; how long the code itself takes to
    run (the hash trials above all) is not part of the model. *)

Definition interval : N := 10000.

(** A suspended call: when it resumes, and with what. *)
Record Task := { wake : N; resume : Prog unit }.

Inductive Pause :=
| Finished
| Rejected (e : Error)
| Blocked
| Awaiting (t : Task).

Definition set_clock (t : N) (w : World) : World :=
  {| heap := heap w; next_loc := next_loc w; clock := N.max (clock w) t;
     requests := requests w; trace := trace w |}.

(** Run a call up to its next suspension. *)
Fixpoint advance (net : Network) (p : Prog unit) (w : World) : Pause * World :=
  match p with
  | Ret _ => (Finished, w)
  | Throw e => (Rejected e, w)
  | Busy => (Blocked, w)
  | Log l m k => advance net k (emit (EvLog l m) w)
  | DateNow k => advance net (k (clock w)) w
  | HttpGet url k =>
      let '(latency, r) := on_get net (requests w) url in
      (Awaiting {| wake := (clock w + latency)%N; resume := k r |},
       count_request (emit (EvGet url) w))
  | HttpPost url body k =>
      let '(latency, r) := on_post net (requests w) url body in
      (Awaiting {| wake := (clock w + latency)%N; resume := k r |},
       count_request (emit (EvPost url body) w))
  | Sleep ms k =>
      (Awaiting {| wake := (clock w + ms)%N; resume := k |}, emit (EvSleep ms) w)
  | NewArray items k => let '(a, w') := alloc items w in advance net (k a) w'
  | ReadArray a k => advance net (k (contents a w)) w
  | Push a item k => advance net k (append_to a item w)
  end.

(** [waiting] holds one task per unfinished round. [halted] is set when a
    worker loop never yields, or when a round ends in a rejection: nothing
    handles the promise that [startMining] returns to the timer, and the
    runtime ends the process on an unhandled rejection. *)
Record Process := {
  world : World;
  waiting : list Task;
  next_tick : N;
  halted : bool
}.

(** The task that is due first (the oldest one among equals) and the others. *)
Fixpoint earliest (ts : list Task) : option (Task * list Task) :=
  match ts with
  | [] => None
  | t :: rest =>
      match earliest rest with
      | Some (t', rest') =>
          if (wake t <=? wake t')%N then Some (t, rest) else Some (t', t :: rest')
      | None => Some (t, [])
      end
  end.

(** Resume or start a call at time [t]; [others] are the rounds that stay
    suspended meanwhile. *)
Definition dispatch (net : Network) (t : N) (p : Prog unit) (others : list Task)
    (tick : N) (w : World) : Process :=
  match advance net p (set_clock t w) with
  | (Finished, w') =>
      {| world := w'; waiting := others; next_tick := tick; halted := false |}
  | (Awaiting task, w') =>
      {| world := w'; waiting := (others ++ [task])%list; next_tick := tick; halted := false |}
  | (Blocked, w') | (Rejected _, w') =>
      {| world := w'; waiting := others; next_tick := tick; halted := true |}
  end.

(** The periodic trigger: the timer calls [startMining] and is re-armed. *)
Definition fire_tick (net : Network) (fuel : nat) (cfg : Config) (s : Process) : Process :=
  dispatch net (next_tick s) (startMining fuel cfg) (waiting s)
           (next_tick s + interval)%N (world s).

(** One turn of the event loop: whatever is due first, a suspended round or
    the periodic trigger. *)
Definition turn (net : Network) (fuel : nat) (cfg : Config) (s : Process) : Process :=
  if halted s then s
  else
    match earliest (waiting s) with
    | Some (t, others) =>
        if (wake t <=? next_tick s)%N
        then dispatch net (wake t) (resume t) others (next_tick s) (world s)
        else fire_tick net fuel cfg s
    | None => fire_tick net fuel cfg s
    end.

Fixpoint event_loop (turns : nat) (net : Network) (fuel : nat) (cfg : Config) (s : Process)
  : Process :=
  match turns with
  | O => s
  | S n => event_loop n net fuel cfg (turn net fuel cfg s)
  end.

(** The process right after [setInterval(startMining, 10000)]. *)
Definition started : Process :=
  {| world := initial_world; waiting := []; next_tick := interval; halted := false |}.

(** No two rounds are unfinished at the same time. *)
Definition rounds_do_not_overlap (s : Process) : Prop := (List.length (waiting s) <= 1)%nat.


(** ** Observations on a run *)

(** The events that a run adds to the trace. *)
Definition new_events {A : Type} (net : Network) (p : Prog A) (w : World) : list Event :=
  skipn (List.length (trace w)) (trace (snd (run net p w))).

(** The requests among some events. *)
Definition posts (events : list Event) : list (string * JValue) :=
  flat_map (fun e => match e with EvPost url body => [(url, body)] | _ => [] end) events.

Definition gets (events : list Event) : list string :=
  flat_map (fun e => match e with EvGet url => [url] | _ => [] end) events.

Definition sleeps (events : list Event) : list N :=
  flat_map (fun e => match e with EvSleep ms => [ms] | _ => [] end) events.

(** The value of a variable as JSON, in a given world. *)
Definition json_in (v : Value) (w : World) : JValue :=
  match v with
  | VArr a => JArr (contents a w)
  | VNull => JNull
  | VBool b => JBool b
  | VNum n => JNum n
  | VStr s => JStr s
  | VObj fields => JObj fields
  end.

(** ** Programs that leave some effects out *)

Inductive Kind := KClock | KGet | KPost | KSleep | KNew | KPush.

Inductive only (ok : Kind -> Prop) {A : Type} : Prog A -> Prop :=
| only_Ret a : only ok (Ret a)
| only_Throw e : only ok (Throw e)
| only_Busy : only ok Busy
| only_Log l m k : only ok k -> only ok (Log l m k)
| only_DateNow k : ok KClock -> (forall t, only ok (k t)) -> only ok (DateNow k)
| only_HttpGet url k : ok KGet -> (forall r, only ok (k r)) -> only ok (HttpGet url k)
| only_HttpPost url body k :
    ok KPost -> (forall r, only ok (k r)) -> only ok (HttpPost url body k)
| only_Sleep ms k : ok KSleep -> only ok k -> only ok (Sleep ms k)
| only_NewArray items k : ok KNew -> (forall a, only ok (k a)) -> only ok (NewArray items k)
| only_ReadArray a k : (forall items, only ok (k items)) -> only ok (ReadArray a k)
| only_Push a item k : ok KPush -> only ok k -> only ok (Push a item k).

(** Neither [push] nor a new array. *)
Definition keeps_heap (k : Kind) : Prop := k <> KNew /\ k <> KPush.

(** No [new Date()]. *)
Definition no_clock (k : Kind) : Prop := k <> KClock.

(** The check of line 134, as a predicate on a result. *)
Definition meets_target (cfg : Config) (goal : string) (r : MiningResult) : Prop :=
  substring 0 (N.to_nat (difficulty cfg)) (hash r) = goal.

(** The two request bodies: the one of a retry and the one of the first
    submission of a mined block. *)
Definition retry_body (cfg : Config) : JValue :=
  JObj [("minerAddress", JStr (minerAddress cfg))].

Definition block_body (cfg : Config) (transactions : JValue) (nonce : N) (hash : string)
  : JValue :=
  JObj [ ("minerAddress", JStr (minerAddress cfg));
         ("transactions", transactions);
         ("nonce", JNum (Z.of_N nonce));
         ("hash", JStr hash) ].

(** How the answer to a submission ends the [try] block that awaits it. *)
Inductive Verdict :=
| Accepted (blockHash : option JValue)
    (* the success is logged with this hash *)
| Failed
    (* the [catch] block logs the failure and the code goes on *)
| Crashes
    (* the [catch] block throws while it formats the refusal *).

Definition verdict (answer : PostResponse) : Verdict :=
  match answer with
  | PostOk JNull => Failed
  | PostOk data =>
      match get_field "blockHash" data with
      | Some blockHash => if printable blockHash then Accepted (Some blockHash) else Failed
      | None => Accepted None
      end
  | PostFailed response =>
      match reason_of (HttpError response) with
      | Some data => if printable data then Failed else Crashes
      | None => Failed
      end
  end.

(** The verdict on the [i]-th request counted from world [w], when that
    request is a retry. *)
Definition retry_verdict (net : Network) (cfg : Config) (w : World) (i : nat) : Verdict :=
  verdict (snd (on_post net (requests w + i)%nat API_URL_MINE (retry_body cfg))).

(** The attempts [first], [first + 1], ... ([n] of them). *)
Definition attempts_from (first : N) (n : nat) : list N :=
  map (fun i => (first + N.of_nat i)%N) (seq 0 n).

(** What one failed attempt of [retryMineBlock] leaves in the trace. *)
Definition failed_attempt (cfg : Config) (retries delay attempt : N) : list Event :=
  [ EvLog info (RetryAttempt attempt);
    EvPost API_URL_MINE (retry_body cfg);
    EvLog error (AttemptFailed attempt) ] ++
  (if (attempt <? retries)%N
   then [ EvLog info (RetryingIn delay); EvSleep delay ]
   else [ EvLog info AllRetriesFailed ]).

(** The world once the [catch] block of a failed attempt has run. *)
Definition after_failure (retries delay attempt : N) (w : World) : World :=
  let logged := emit (EvLog error (AttemptFailed attempt)) w in
  if (attempt <? retries)%N
  then elapse delay (emit (EvSleep delay) (emit (EvLog info (RetryingIn delay)) logged))
  else emit (EvLog info AllRetriesFailed) logged.

(** The world once a request has been sent and answered. *)
Definition after_post (url : string) (body : JValue) (latency : N) (w : World) : World :=
  elapse latency (count_request (emit (EvPost url body) w)).

(** A service that refuses every POST. *)
Definition rejects_every_post (net : Network) : Prop :=
  forall n url body, exists response, snd (on_post net n url body) = PostFailed response.

(** The transaction list once lines 83-91 have run on an array. *)
Definition with_reward (cfg : Config) (items : list JValue) : list JValue :=
  if Nat.eqb (List.length items) 0 then (items ++ [reward_transaction cfg])%list else items.

(** The world once lines 80-91 of [mineBlock] have run on array [a]. *)
Definition after_reward_step (cfg : Config) (a : loc) (w : World) : World :=
  let w0 := emit (EvLog info Requesting) w in
  if Nat.eqb (List.length (contents a w)) 0
  then emit (EvLog info AddingReward) (append_to a (reward_transaction cfg) w0)
  else w0.

(** Lines 83-91 of [mineBlock]: the reward goes into an empty list. *)
Definition reward_step (cfg : Config) (transactions : Value) : Prog unit :=
  count <- length_of transactions ;;
  if is_zero count
  then push_to transactions (reward_transaction cfg) ;; log info AddingReward
  else Ret tt.

(** The [catch] block of [mineBlock], once the error is formatted. *)
Definition on_mining_error (cfg : Config) : Prog unit :=
  log error MineError ;;
  log info RetryingMining ;;
  retryMineBlock cfg None None.

(** What the [catch] block of [mineBlock] does with an error. *)
Definition caught (cfg : Config) (e : Error) : Prog unit :=
  format_error e ;; on_mining_error cfg.

(** Two worlds that differ at most in what the clock shows. *)
Definition same_but_clock (w1 w2 : World) : Prop :=
  heap w1 = heap w2 /\ next_loc w1 = next_loc w2 /\
  requests w1 = requests w2 /\ trace w1 = trace w2.

(** The character that ends every serialized object. *)
Definition closing_brace : ascii := "}"%char.

(** Worker [index] returns [r] after exactly [trials] hash trials. *)
Definition own_result (header target : string) (index : N) (trials : nat) (r : MiningResult)
  : Prop :=
  mineSingleTask trials header target index = Some (r, 0%nat).

(** Every worker of [threadIndexes] returns, each after its own number of
    trials and with its own result. *)
Fixpoint all_return (header target : string) (threadIndexes : list N)
    (runs : list (nat * MiningResult)) : Prop :=
  match threadIndexes, runs with
  | [], [] => True
  | index :: rest, (trials, r) :: others =>
      own_result header target index trials r /\ all_return header target rest others
  | _, _ => False
  end.

Definition total_trials (runs : list (nat * MiningResult)) : nat :=
  list_sum (map fst runs).

(** What the answer to the GET makes [getPendingTransactions] return, as a
    list: the array under [data.pendingTransactions], or the empty list when
    the function returns a new array. *)
Definition pending_of (answer : GetResponse) : list JValue :=
  match answer with
  | GetOk data =>
      match pending_field data with
      | Some (JArr items) => items
      | _ => []
      end
  | GetFailed _ => []
  end.

(** What [getPendingTransactions] returns as it is: the truthy field of the
    answer, unless formatting its [length] throws; [None] when the function
    returns a new empty array instead. *)
Definition returned_field (answer : GetResponse) : option JValue :=
  match answer with
  | GetOk data =>
      match pending_field data with
      | Some pending =>
          match length_field pending with
          | Some count => if printable count then Some pending else None
          | None => Some pending
          end
      | None => None
      end
  | GetFailed _ => None
  end.

(** The transactions that [mineBlock] submits for an argument [v]: an empty
    array has received the reward, anything else is as it was. *)
Definition submitted (cfg : Config) (v : Value) (w : World) : JValue :=
  match v with
  | VArr a => JArr (with_reward cfg (contents a w))
  | _ => json_in v w
  end.

(** The transactions that a round mines for an answer to its GET: what the
    fetch returned when its [length] is greater than 0, the reward alone
    otherwise. *)
Definition mined_for (cfg : Config) (answer : GetResponse) : JValue :=
  match returned_field answer with
  | Some pending =>
      match greater_than_zero (length_field pending) with
      | Some true => pending
      | _ => JArr [reward_transaction cfg]
      end
  | None => JArr [reward_transaction cfg]
  end.

(** The [catch] blocks of [mineBlock] and [retryMineBlock] can format
    error [e]. *)
Definition formats (e : Error) : Prop :=
  match reason_of e with
  | Some data => printable data = true
  | None => True
  end.

(** A value whose [length] can be read and, if there is one, printed. *)
Definition sound_length (current : JValue) : Prop :=
  current <> JNull /\
  match length_field current with
  | Some count => printable count = true
  | None => True
  end.

(** [safe allowed answers post p]: as long as every POST is answered within
    [answers], the program [p] throws no error outside [allowed] to its
    caller, and returns no value outside [post]. *)
Inductive safe (allowed : Error -> Prop) (answers : PostResponse -> Prop) {A : Type}
    (post : A -> Prop) : Prog A -> Prop :=
| safe_Ret a : post a -> safe allowed answers post (Ret a)
| safe_Throw e : allowed e -> safe allowed answers post (Throw e)
| safe_Busy : safe allowed answers post Busy
| safe_Log l m k : safe allowed answers post k -> safe allowed answers post (Log l m k)
| safe_DateNow k :
    (forall t, safe allowed answers post (k t)) -> safe allowed answers post (DateNow k)
| safe_HttpGet url k :
    (forall r, safe allowed answers post (k r)) -> safe allowed answers post (HttpGet url k)
| safe_HttpPost url body k :
    (forall r, answers r -> safe allowed answers post (k r)) ->
    safe allowed answers post (HttpPost url body k)
| safe_Sleep ms k : safe allowed answers post k -> safe allowed answers post (Sleep ms k)
| safe_NewArray items k :
    (forall a, safe allowed answers post (k a)) ->
    safe allowed answers post (NewArray items k)
| safe_ReadArray a k :
    (forall items, safe allowed answers post (k items)) ->
    safe allowed answers post (ReadArray a k)
| safe_Push a item k :
    safe allowed answers post k -> safe allowed answers post (Push a item k).

(** A ledger service whose refusals can all be formatted. *)
Definition refusals_can_be_formatted (net : Network) : Prop :=
  forall n url body, verdict (snd (on_post net n url body)) <> Crashes.

(** ** Settings used in the examples

    The address of the end-to-end scenario, at difficulty 1, and a ledger
    service that is not running: every request fails without an answer. *)

Definition example_config : Config :=
  {| minerAddress := "abc123"; difficulty := 1; parallelThreads := 4 |}.

Definition example_header : string :=
  blockHeader example_config (JArr [reward_transaction example_config]).

Definition service_down : Network :=
  {| on_get := fun _ _ => (0%N, GetFailed None);
     on_post := fun _ _ _ => (0%N, PostFailed None) |}.

(** A transfer between two parties, and a ledger service that is running:
    it has that transfer pending, accepts every block and answers with the
    hash it was sent. *)
Definition example_transfer : JValue :=
  JObj [("Transmitter", JStr "alice"); ("Target", JStr "bob"); ("Holly$", JNum 3)].

Definition hash_field (body : JValue) : JValue :=
  match body with
  | JObj fields =>
      match List.find (fun kv => String.eqb (fst kv) "hash") fields with
      | Some kv => snd kv
      | None => JStr EmptyString
      end
  | _ => JStr EmptyString
  end.

Definition service_up : Network :=
  {| on_get := fun _ _ =>
       (40%N, GetOk (JObj [("pendingTransactions", JArr [example_transfer])]));
     on_post := fun _ _ body => (60%N, PostOk (JObj [("blockHash", hash_field body)])) |}.

(** A ledger service that does not answer the first [n] requests of the
    process and accepts the later ones. *)
Definition service_back_after (n : nat) : Network :=
  {| on_get := fun _ _ => (0%N, GetFailed None);
     on_post := fun i _ body =>
       if Nat.ltb i n then (0%N, PostFailed None)
       else (60%N, PostOk (JObj [("blockHash", hash_field body)])) |}.

(** A body that cannot be converted to a string: the JSON text
    [{"toString":1}]. A ledger service that refuses every POST with that
    body (and status 500, say). *)
Definition unprintable : JValue := JObj [("toString", JNum 1)].

Definition service_refusing_with (body : JValue) : Network :=
  {| on_get := fun _ _ => (0%N, GetFailed None);
     on_post := fun _ _ _ => (0%N, PostFailed (Some body)) |}.

(** A world in which array 0 holds the reward transaction alone. *)
Definition example_world : World :=
  snd (alloc [reward_transaction example_config] initial_world).
(** ** Facts about the digest and about strings *)

(** The two short messages of the standard's examples. *)
Example sha256_abc :
  SHA256.sha256_hex "abc" =
  "ba7816bf8f01cfea414140de5dae2223b00361a396177a9cb410ff61f20015ad".
Proof. vm_compute. reflexivity. Qed.

Example sha256_two_blocks :
  SHA256.sha256_hex "abcdbcdecdefdefgefghfghighijhijkijkljklmklmnlmnomnopnopq" =
  "248d6a61d20638b8e5c026930c3e6039a33ce45964ff2167f6ecedd419db06c1".
Proof. vm_compute. reflexivity. Qed.

(** The header of the end-to-end scenario, byte for byte. *)
Example example_header_bytes :
  example_header =
  String.concat (String dquote EmptyString)
    [ "{"; "minerAddress"; ":"; "abc123"; ","; "transactions"; ":[{"; "Holly$"; ":512,";
      "Transmitter"; ":"; "Coinbase"; ","; "Target"; ":"; "abc123"; ",";
      "BlockReward"; ":true}],"; "difficulty"; ":1}" ].
Proof. vm_compute. reflexivity. Qed.

Section StringFacts.

Lemma length_zeros (n : nat) : String.length (zeros n) = n.
Proof. induction n; simpl; congruence. Qed.

Lemma length_substring_le (n : nat) (s : string) :
  (String.length (substring 0 n s) <= String.length s)%nat.
Proof.
  revert s; induction n as [|n IH]; intros [|c s]; simpl; try lia.
  specialize (IH s). lia.
Qed.

Lemma get_substring_prefix (n : nat) (s : string) (i : nat) :
  (i < String.length (substring 0 n s))%nat ->
  String.get i s = String.get i (substring 0 n s).
Proof.
  revert s i; induction n as [|n IH]; intros [|c s] i; simpl; try lia.
  destruct i as [|i]; [reflexivity|]. intros H. apply IH. lia.
Qed.

Lemma get_zeros (d i : nat) : (i < d)%nat -> String.get i (zeros d) = Some "0"%char.
Proof.
  revert i; induction d as [|d IH]; intros [|i] H; simpl; try lia; auto.
  apply IH. lia.
Qed.

Lemma prefix_zeros_leading (d : nat) (h : string) :
  substring 0 d h = zeros d -> leading_zeros d h.
Proof.
  intros H i Hi.
  rewrite (get_substring_prefix d h i).
  - rewrite H. now apply get_zeros.
  - rewrite H, length_zeros. exact Hi.
Qed.

Lemma length_hex32 (w : Z) (tail : string) :
  String.length (SHA256.hex32 w tail) = (8 + String.length tail)%nat.
Proof. reflexivity. Qed.

(** A SHA-256 digest in hex has 64 characters. *)
Lemma length_sha256_hex (s : string) : String.length (SHA256.sha256_hex s) = 64%nat.
Proof.
  unfold SHA256.sha256_hex, SHA256.hex.
  destruct (SHA256.digest (SHA256.bytes_of s)).
  now rewrite !length_hex32.
Qed.

End StringFacts.

(** ** Facts about the worker loop *)

Section Worker.

Variables (blockHeader target : string).

Lemma js_incr_below (n : N) : (n < 2 ^ 53)%N -> js_incr n = (n + 1)%N.
Proof. unfold js_incr. intros H. apply N.ltb_lt in H. now rewrite H. Qed.

Lemma js_incr_le (n : N) : (n <= 2 ^ 53)%N -> (js_incr n <= 2 ^ 53)%N.
Proof.
  unfold js_incr. destruct (n <? 2 ^ 53)%N eqn:E; [|auto].
  apply N.ltb_lt in E. lia.
Qed.

(** What a returned result looks like, whatever the start. *)
Lemma mine_loop_sound (fuel left : nat) (start : N) (r : MiningResult) :
  mine_loop fuel blockHeader target start = Some (r, left) ->
  hash r = SHA256.sha256_hex (blockHeader ++ N_to_dec (nonce r)) /\
  qualifies blockHeader target (nonce r).
Proof.
  revert start; induction fuel as [|fuel IH]; intros start; cbn [mine_loop]; [discriminate|].
  destruct (String.eqb _ target) eqn:E.
  - intros [= <- _]. cbn [hash nonce]. split; [reflexivity|].
    now apply String.eqb_eq in E.
  - apply IH.
Qed.

(** More fuel does not change a result. *)
Lemma mine_loop_mono (fuel left extra : nat) (start : N) (r : MiningResult) :
  mine_loop fuel blockHeader target start = Some (r, left) ->
  mine_loop (fuel + extra) blockHeader target start = Some (r, (left + extra)%nat).
Proof.
  revert start; induction fuel as [|fuel IH]; intros start; cbn [mine_loop Nat.add];
    [discriminate|].
  destruct (String.eqb _ target); [|apply IH].
  now intros [= <- <-].
Qed.

(** The loop visits every nonce above its start, in order. *)
Lemma mine_loop_least (fuel left : nat) (start : N) (r : MiningResult) :
  (start < 2 ^ 53)%N ->
  mine_loop fuel blockHeader target start = Some (r, left) ->
  (start < nonce r <= 2 ^ 53)%N /\
  forall m, (start < m < nonce r)%N -> ~ qualifies blockHeader target m.
Proof.
  revert start; induction fuel as [|fuel IH]; intros start Hs; cbn [mine_loop];
    [discriminate|].
  rewrite (js_incr_below _ Hs).
  destruct (String.eqb _ target) eqn:E.
  - intros [= <- _]. cbn [nonce]. split; [lia|]. intros m Hm. lia.
  - intros H. destruct (N.eq_dec (start + 1) (2 ^ 53))%N as [Htop|Htop].
    + (* the counter is stuck at 2^53, whose digest does not qualify *)
      exfalso. clear IH. revert H. rewrite Htop.
      assert (Hstuck : String.eqb (substring 0 (String.length target)
                (SHA256.sha256_hex (blockHeader ++ N_to_dec (2 ^ 53)))) target = false)
        by (now rewrite <- Htop).
      clear E. induction fuel as [|fuel IH]; cbn [mine_loop]; [discriminate|].
      unfold js_incr. rewrite N.ltb_irrefl. rewrite Hstuck. exact IH.
    + destruct (IH (start + 1)%N ltac:(lia) H) as [Hr Hleast].
      split; [lia|]. intros m Hm.
      destruct (N.eq_dec m (start + 1))%N as [->|Hne].
      * unfold qualifies. intros Hq. apply String.eqb_eq in Hq. congruence.
      * apply Hleast. lia.
Qed.

(** If some nonce above the start qualifies, the loop finds one. *)
Lemma mine_loop_complete (start m : N) :
  (start < m <= 2 ^ 53)%N ->
  qualifies blockHeader target m ->
  exists r left, mine_loop (N.to_nat (m - start)) blockHeader target start = Some (r, left).
Proof.
  intros Hm Hq.
  remember (N.to_nat (m - start)) as k eqn:Hk.
  revert start Hm Hk; induction k as [|k IH]; intros start Hm Hk; [lia|].
  cbn [mine_loop]. rewrite js_incr_below by lia.
  destruct (String.eqb _ target) eqn:E; [eauto|].
  apply IH; [|lia].
  destruct (N.eq_dec m (start + 1))%N as [->|Hne]; [|lia].
  apply String.eqb_eq in Hq. congruence.
Qed.

(** A target longer than a digest is never met. *)
Lemma mine_loop_long_target (fuel : nat) (start : N) :
  (64 < String.length target)%nat ->
  mine_loop fuel blockHeader target start = None.
Proof.
  intros Hlen. revert start; induction fuel as [|fuel IH]; intros start; cbn [mine_loop];
    [reflexivity|].
  destruct (String.eqb _ target) eqn:E; [|apply IH].
  apply String.eqb_eq in E. exfalso.
  pose proof (length_substring_le (String.length target)
                (SHA256.sha256_hex (blockHeader ++ N_to_dec (js_incr start)))) as Hle.
  rewrite E, length_sha256_hex in Hle. lia.
Qed.

End Worker.

Section WorkerTrials.

Variables (blockHeader target : string).

(** A result comes after a definite number of trials. *)
Lemma mine_loop_exact (fuel left : nat) (start : N) (r : MiningResult) :
  mine_loop fuel blockHeader target start = Some (r, left) ->
  (left <= fuel)%nat /\
  mine_loop (fuel - left) blockHeader target start = Some (r, 0%nat).
Proof.
  revert start; induction fuel as [|fuel IH]; intros start; cbn [mine_loop]; [discriminate|].
  destruct (String.eqb _ target) eqn:E.
  - intros [= <- <-]. split; [lia|].
    replace (S fuel - fuel)%nat with 1%nat by lia. cbn [mine_loop]. now rewrite E.
  - intros H. destruct (IH _ H) as [Hle Hrun]. split; [lia|].
    replace (S fuel - left)%nat with (S (fuel - left)) by lia.
    cbn [mine_loop]. now rewrite E.
Qed.

(** Without a qualifying nonce above the start the loop never exits. *)
Lemma mine_loop_none (fuel : nat) (start : N) :
  (start < 2 ^ 53)%N ->
  (forall m, (start < m <= 2 ^ 53)%N -> ~ qualifies blockHeader target m) ->
  mine_loop fuel blockHeader target start = None.
Proof.
  intros Hs Hnone.
  destruct (mine_loop fuel blockHeader target start) as [[r left]|] eqn:E; [|reflexivity].
  exfalso.
  destruct (mine_loop_least _ _ _ _ _ _ Hs E) as [Hr _].
  destruct (mine_loop_sound _ _ _ _ _ _ E) as [_ Hq].
  exact (Hnone _ Hr Hq).
Qed.

(** The result does not depend on the fuel. *)
Lemma mine_loop_same_result (fuel1 fuel2 left1 left2 : nat) (start : N)
    (r1 r2 : MiningResult) :
  mine_loop fuel1 blockHeader target start = Some (r1, left1) ->
  mine_loop fuel2 blockHeader target start = Some (r2, left2) ->
  r1 = r2 /\ (fuel1 - left1 = fuel2 - left2)%nat.
Proof.
  revert fuel2 start; induction fuel1 as [|fuel1 IH]; intros [|fuel2] start;
    cbn [mine_loop]; try discriminate.
  destruct (String.eqb _ target) eqn:E.
  - intros [= <- <-] [= <- <-]. split; [reflexivity|lia].
  - intros H1 H2. destruct (IH _ _ H1 H2) as [Hr Hn]. split; [exact Hr|].
    apply mine_loop_exact in H1. apply mine_loop_exact in H2. lia.
Qed.

End WorkerTrials.

(** ** Facts about [run] *)

Section Run.

Context {A : Type}.
Variable net : Network.

Lemma run_bind {B : Type} (p : Prog A) (f : A -> Prog B) (w : World) :
  run net (bind p f) w =
  match run net p w with
  | (Returned a, w') => run net (f a) w'
  | (Threw e, w') => (Threw e, w')
  | (Unfinished, w') => (Unfinished, w')
  end.
Proof.
  revert w; induction p as [a|e| |l m k IH|k IH|url k IH|url body k IH|ms k IH
                           |items k IH|a k IH|a item k IH]; intros w; cbn [bind run]; auto.
  - destruct (on_get net (requests w) url). apply IH.
  - destruct (on_post net (requests w) url body). apply IH.
  - destruct (alloc items w). apply IH.
Qed.

Lemma run_try_catch (p : Prog A) (handler : Error -> Prog A) (w : World) :
  run net (try_catch p handler) w =
  match run net p w with
  | (Threw e, w') => run net (handler e) w'
  | other => other
  end.
Proof.
  revert w; induction p as [a|e| |l m k IH|k IH|url k IH|url body k IH|ms k IH
                           |items k IH|a k IH|a item k IH]; intros w; cbn [try_catch run]; auto.
  - destruct (on_get net (requests w) url). apply IH.
  - destruct (on_post net (requests w) url body). apply IH.
  - destruct (alloc items w). apply IH.
Qed.

(** A run only adds to the trace. *)
Lemma run_trace_grows (p : Prog A) (w : World) :
  exists new, trace (snd (run net p w)) = (trace w ++ new)%list.
Proof.
  revert w; induction p as [a|e| |l m k IH|k IH|url k IH|url body k IH|ms k IH
                           |items k IH|a k IH|a item k IH]; intros w; cbn [run];
    try (exists []; cbn; now rewrite app_nil_r).
  - destruct (IH (emit (EvLog l m) w)) as [new E]. exists (EvLog l m :: new).
    rewrite E. cbn. now rewrite <- app_assoc.
  - apply IH.
  - destruct (on_get net (requests w) url) as [latency r].
    destruct (IH r (elapse latency (count_request (emit (EvGet url) w)))) as [new E].
    exists (EvGet url :: new). rewrite E. cbn. now rewrite <- app_assoc.
  - destruct (on_post net (requests w) url body) as [latency r].
    destruct (IH r (elapse latency (count_request (emit (EvPost url body) w)))) as [new E].
    exists (EvPost url body :: new). rewrite E. cbn. now rewrite <- app_assoc.
  - destruct (IH (elapse ms (emit (EvSleep ms) w))) as [new E].
    exists (EvSleep ms :: new). rewrite E. cbn. now rewrite <- app_assoc.
  - exact (IH (fst (alloc items w)) (snd (alloc items w))).
  - apply IH.
  - exact (IH (append_to a item w)).
Qed.

End Run.

Lemma trace_new_events {A : Type} (net : Network) (p : Prog A) (w : World) :
  trace (snd (run net p w)) = (trace w ++ new_events net p w)%list.
Proof.
  unfold new_events. destruct (run_trace_grows net p w) as [new E].
  rewrite E. now rewrite skipn_app, Nat.sub_diag, skipn_all.
Qed.

Lemma new_events_intro {A : Type} (net : Network) (p : Prog A) (w : World) (new : list Event) :
  trace (snd (run net p w)) = (trace w ++ new)%list -> new_events net p w = new.
Proof.
  intros E. unfold new_events. rewrite E.
  now rewrite skipn_app, Nat.sub_diag, skipn_all.
Qed.

Lemma posts_app (xs ys : list Event) : posts (xs ++ ys) = (posts xs ++ posts ys)%list.
Proof. unfold posts. now rewrite flat_map_app. Qed.

Lemma sleeps_app (xs ys : list Event) : sleeps (xs ++ ys) = (sleeps xs ++ sleeps ys)%list.
Proof. unfold sleeps. now rewrite flat_map_app. Qed.

Create HintDb effects.
#[local] Hint Constructors only : effects.

(** ** Programs that leave some effects out *)

Lemma only_bind (ok : Kind -> Prop) {A B : Type} (p : Prog A) (f : A -> Prog B) :
  only ok p -> (forall a, only ok (f a)) -> only ok (bind p f).
Proof. intros Hp Hf. induction Hp; cbn [bind]; auto with effects. Qed.

Lemma only_try_catch (ok : Kind -> Prop) {A : Type} (p : Prog A) (handler : Error -> Prog A) :
  only ok p -> (forall e, only ok (handler e)) -> only ok (try_catch p handler).
Proof. intros Hp Hh. induction Hp; cbn [try_catch]; auto with effects. Qed.

#[local] Hint Resolve only_bind only_try_catch : effects.

Lemma keeps_heap_run {A : Type} (net : Network) (p : Prog A) (w : World) :
  only keeps_heap p -> heap (snd (run net p w)) = heap w.
Proof.
  intros Hp; revert w; induction Hp as [a|e| |l m k _ IH|k _ _ IH|url k _ _ IH
      |url body k _ _ IH|ms k _ _ IH|items k Hok _ _|a k _ IH|a item k Hok _ _];
    intros w; cbn [run]; auto.
  - now rewrite IH.
  - destruct (on_get net (requests w) url). now rewrite IH.
  - destruct (on_post net (requests w) url body). now rewrite IH.
  - now rewrite IH.
  - destruct Hok as [Hok _]. congruence.
  - destruct Hok as [_ Hok]. congruence.
Qed.

(** ** The nonce search worker *)

Lemma start_nonce_safe (threadIndex : N) :
  (threadIndex < 2 ^ 32)%N -> (start_nonce threadIndex < 2 ^ 53)%N.
Proof. unfold start_nonce. intros H. change (2 ^ 32)%N with 4294967296%N in H.
  change (2 ^ 53)%N with 9007199254740992%N. lia. Qed.

(** C1, as amended. For every difficulty [d], header and worker index (an
    array index, below 2^32): whenever the worker returns, its result
    [{nonce, hash}] has [hash] equal to the hex SHA-256 digest of the header
    followed by the decimal string of [nonce], and the first [d] characters
    of [hash] are all ['0']; the worker returns exactly when some nonce above
    its starting offset and up to 2^53 has such a digest; and it never
    returns when [d] exceeds 64, the length of a digest. *)
Theorem mineSingleTask_result (d : nat) (header : string) (threadIndex : N) :
  (threadIndex < 2 ^ 32)%N ->
  (forall fuel r left,
      mineSingleTask fuel header (zeros d) threadIndex = Some (r, left) ->
      hash r = SHA256.sha256_hex (header ++ N_to_dec (nonce r)) /\
      substring 0 d (hash r) = zeros d /\
      leading_zeros d (hash r)) /\
  ((exists fuel r left, mineSingleTask fuel header (zeros d) threadIndex = Some (r, left)) <->
   (exists m, (start_nonce threadIndex < m <= 2 ^ 53)%N /\ qualifies header (zeros d) m)) /\
  ((64 < d)%nat -> forall fuel, mineSingleTask fuel header (zeros d) threadIndex = None).
Proof.
  intros Hidx. pose proof (start_nonce_safe _ Hidx) as Hstart.
  assert (Hsound : forall fuel r left,
             mineSingleTask fuel header (zeros d) threadIndex = Some (r, left) ->
             hash r = SHA256.sha256_hex (header ++ N_to_dec (nonce r)) /\
             substring 0 d (hash r) = zeros d).
  { intros fuel r left H. destruct (mine_loop_sound _ _ _ _ _ _ H) as [Hh Hq].
    split; [exact Hh|]. unfold qualifies in Hq. rewrite length_zeros in Hq.
    now rewrite Hh. }
  split; [|split].
  - intros fuel r left H. destruct (Hsound _ _ _ H) as [Hh Hp].
    repeat split; auto. now apply prefix_zeros_leading.
  - split.
    + intros (fuel & r & left & H). exists (nonce r).
      destruct (mine_loop_least _ _ _ _ _ _ Hstart H) as [Hr _].
      destruct (mine_loop_sound _ _ _ _ _ _ H) as [_ Hq]. auto.
    + intros (m & Hm & Hq).
      destruct (mine_loop_complete _ _ _ _ Hm Hq) as (r & left & H). eauto.
  - intros Hd fuel. apply mine_loop_long_target. now rewrite length_zeros.
Qed.

Lemma mineSingleTask_result_witness :
  exists fuel r left,
    mineSingleTask fuel example_header (zeros 1) 0 = Some (r, left) /\
    hash r = SHA256.sha256_hex (example_header ++ N_to_dec (nonce r)) /\
    leading_zeros 1 (hash r).
Proof.
  destruct (mineSingleTask_result 1 example_header 0 ltac:(reflexivity))
    as (Hsound & Hreturns & _).
  destruct (proj2 Hreturns) as (fuel & r & left & H).
  - exists 19%N. split; [split; [reflexivity | discriminate] | vm_compute; reflexivity].
  - exists fuel, r, left. destruct (Hsound _ _ _ H) as (Hh & _ & Hz). auto.
Defined.

(** C1 as stated fails at difficulty 65: no digest has 65 characters, so the
    worker returns no result at all. *)
Lemma mineSingleTask_no_result_at_65 :
  ~ (exists fuel r left,
        mineSingleTask fuel
          (blockHeader {| minerAddress := "abc123"; difficulty := 65; parallelThreads := 4 |}
                       (JArr [reward_transaction example_config]))
          (zeros 65) 0 = Some (r, left)).
Proof.
  intros (fuel & r & left & H).
  unfold mineSingleTask in H. rewrite mine_loop_long_target in H; [discriminate|].
  rewrite length_zeros. lia.
Qed.


(** C9, as amended. The worker with index [threadIndex] (an array index,
    below 2^32) starts at the offset [threadIndex * 1000000]. Whenever it
    returns, its nonce is the least qualifying nonce above the offset: it is
    strictly greater than the offset, its digest starts with the target, and
    no nonce strictly between the offset and it has such a digest. It does
    return, within [m - offset] trials, as soon as some nonce [m] above the
    offset and up to 2^53 qualifies, and it never returns when none does.
    The offsets are increasing in the index, hence pairwise distinct. *)
Theorem mineSingleTask_least (header target : string) (threadIndex : N) :
  (threadIndex < 2 ^ 32)%N ->
  let offset := (threadIndex * 1000000)%N in
  (forall fuel r left,
     mineSingleTask fuel header target threadIndex = Some (r, left) ->
     (offset < nonce r)%N /\
     substring 0 (String.length target) (SHA256.sha256_hex (header ++ N_to_dec (nonce r)))
       = target /\
     (forall m, (offset < m < nonce r)%N ->
        substring 0 (String.length target) (SHA256.sha256_hex (header ++ N_to_dec m))
          <> target)) /\
  (forall m, (offset < m <= 2 ^ 53)%N ->
     substring 0 (String.length target) (SHA256.sha256_hex (header ++ N_to_dec m)) = target ->
     exists r left,
       mineSingleTask (N.to_nat (m - offset)) header target threadIndex = Some (r, left) /\
       (nonce r <= m)%N) /\
  ((forall m, (offset < m <= 2 ^ 53)%N ->
      substring 0 (String.length target) (SHA256.sha256_hex (header ++ N_to_dec m)) <> target) ->
   forall fuel, mineSingleTask fuel header target threadIndex = None) /\
  (forall i j, (i < j)%N -> (start_nonce i < start_nonce j)%N) /\
  (forall i j, i <> j -> start_nonce i <> start_nonce j).
Proof.
  intros Hidx offset. pose proof (start_nonce_safe _ Hidx) as Hstart.
  unfold mineSingleTask. change (start_nonce threadIndex) with offset in *.
  split; [|split; [|split; [|split]]].
  - intros fuel r left H.
    destruct (mine_loop_least _ _ _ _ _ _ Hstart H) as [Hr Hleast].
    destruct (mine_loop_sound _ _ _ _ _ _ H) as [_ Hq].
    split; [lia|]. split; [exact Hq|]. intros m Hm. exact (Hleast m Hm).
  - intros m Hm Hq.
    destruct (mine_loop_complete header target offset m Hm Hq) as (r & left & H).
    exists r, left. split; [exact H|].
    destruct (mine_loop_least _ _ _ _ _ _ Hstart H) as [Hr Hleast].
    destruct (N.le_gt_cases (nonce r) m) as [Hle|Hgt]; [exact Hle|].
    exfalso. apply (Hleast m); [lia|exact Hq].
  - intros Hnone fuel. apply mine_loop_none; [exact Hstart|]. exact Hnone.
  - intros i j Hij. unfold start_nonce. lia.
  - intros i j Hij. unfold start_nonce. lia.
Qed.

Lemma mineSingleTask_least_witness :
  mineSingleTask 100 example_header "0" 1 =
    Some ({| nonce := 1000004;
             hash := "060275953c73e5ea4b21c8071057cb29d05fc3392702ec5142d25f261f18f772" |},
          96%nat) /\
  (forall m, (1 * 1000000 < m < 1000004)%N ->
     substring 0 1 (SHA256.sha256_hex (example_header ++ N_to_dec m)) <> "0") /\
  exists r left,
    mineSingleTask 4 example_header "0" 1 = Some (r, left) /\ (nonce r <= 1000004)%N.
Proof.
  assert (H : mineSingleTask 100 example_header "0" 1 =
    Some ({| nonce := 1000004;
             hash := "060275953c73e5ea4b21c8071057cb29d05fc3392702ec5142d25f261f18f772" |},
          96%nat)) by (vm_compute; reflexivity).
  destruct (mineSingleTask_least example_header "0" 1 ltac:(reflexivity))
    as (Hleast & Hreturns & _).
  split; [exact H|]. split.
  - exact (proj2 (proj2 (Hleast _ _ _ H))).
  - apply (Hreturns 1000004%N); [split; [reflexivity|discriminate]|vm_compute; reflexivity].
Defined.

(** C9 as stated fails for a target of 65 zeros: no digest has 65
    characters, so worker 1 returns no nonce at all, least or not. *)
Lemma mineSingleTask_returns_no_least_nonce_at_65 :
  ~ (exists fuel r left,
        mineSingleTask fuel
          (blockHeader {| minerAddress := "abc123"; difficulty := 65; parallelThreads := 4 |}
                       (JArr [reward_transaction example_config]))
          (zeros 65) 1 = Some (r, left) /\
        (1 * 1000000 < nonce r)%N).
Proof.
  intros (fuel & r & left & H & _).
  unfold mineSingleTask in H. rewrite mine_loop_long_target in H; [discriminate|].
  rewrite length_zeros. lia.
Qed.

(** ** The coordinator *)

Lemma run_json_of (net : Network) (v : Value) (w : World) :
  run net (json_of v) w = (Returned (json_in v w), w).
Proof. destruct v; reflexivity. Qed.

Lemma json_in_same_heap (v : Value) (w1 w2 : World) :
  heap w1 = heap w2 -> json_in v w1 = json_in v w2.
Proof.
  intros H. destruct v; cbn [json_in]; try reflexivity.
  unfold contents. now rewrite H.
Qed.

Section Coordinator.

Variables (net : Network) (cfg : Config).

Let target : string := zeros (N.to_nat (difficulty cfg)).

Lemma validResult_none (goal : string) (results : list MiningResult) :
  validResult cfg goal results = None <->
  forall r, In r results -> ~ meets_target cfg goal r.
Proof.
  unfold validResult, meets_target. split.
  - intros H r Hin Hr. pose proof (find_none _ _ H r Hin) as Hf. cbn in Hf.
    apply String.eqb_eq in Hr. congruence.
  - intros H. induction results as [|x xs IH]; [reflexivity|]. cbn [find].
    destruct (String.eqb _ goal) eqn:E.
    + apply String.eqb_eq in E. exfalso. apply (H x); [now left | exact E].
    + apply IH. intros r Hin. apply H. now right.
Qed.

(** [find] returns the first element that passes the check. *)
Lemma validResult_first (goal : string) (results : list MiningResult) (r : MiningResult) :
  validResult cfg goal results = Some r ->
  exists before after,
    results = (before ++ r :: after)%list /\
    (forall x, In x before -> ~ meets_target cfg goal x) /\
    meets_target cfg goal r.
Proof.
  unfold validResult, meets_target.
  induction results as [|x xs IH]; cbn [find]; [discriminate|].
  destruct (String.eqb _ goal) eqn:E.
  - intros [= <-]. exists [], xs. apply String.eqb_eq in E. repeat split; auto.
  - intros H. destruct (IH H) as (before & after & -> & Hb & Hr).
    exists (x :: before), after. repeat split; auto.
    intros y [<-|Hy]; [|now apply Hb].
    intros Hy. apply String.eqb_eq in Hy. congruence.
Qed.

Lemma run_select_result (v : Value) (goal : string) (results : list MiningResult)
    (w : World) :
  run net (select_result cfg v goal results) w =
  match validResult cfg goal results with
  | Some r =>
      (Returned {| block_transactions := v; block_nonce := nonce r; block_hash := hash r |},
       emit (EvLog info (MinedWith (nonce r) (hash r))) w)
  | None => (Threw mining_failed, w)
  end.
Proof. unfold select_result. now destruct (validResult cfg goal results). Qed.

Lemma run_mineProofOfWorkParallel (fuel : nat) (v : Value) (w : World) :
  run net (mineProofOfWorkParallel fuel cfg v) w =
  match miningTasks fuel cfg (blockHeader cfg (json_in v w)) target with
  | Some results => run net (select_result cfg v target results) (emit (EvLog info StartingPoW) w)
  | None => (Unfinished, emit (EvLog info StartingPoW) w)
  end.
Proof.
  unfold mineProofOfWorkParallel. cbn [log bind run]. rewrite run_bind, run_json_of.
  rewrite (json_in_same_heap v (emit (EvLog info StartingPoW) w) w eq_refl).
  fold target. now destruct (miningTasks fuel cfg (blockHeader cfg (json_in v w)) target).
Qed.

(** Every worker that has returned brought a result that meets the target. *)
Lemma call_workers_results (fuel left : nat) (header goal : string) (threadIndexes : list N)
    (results : list MiningResult) :
  call_workers fuel header goal threadIndexes = Some (results, left) ->
  List.length results = List.length threadIndexes /\
  Forall (fun r => hash r = SHA256.sha256_hex (header ++ N_to_dec (nonce r)) /\
                   qualifies header goal (nonce r)) results.
Proof.
  revert fuel results; induction threadIndexes as [|index rest IH]; intros fuel results;
    cbn [call_workers].
  - intros [= <- _]. split; [reflexivity|constructor].
  - destruct (mineSingleTask fuel header goal index) as [[r fuel1]|] eqn:E1; [|discriminate].
    destruct (call_workers fuel1 header goal rest) as [[rs fuel2]|] eqn:E2; [|discriminate].
    intros [= <- <-]. destruct (IH _ _ E2) as [Hlen Hall].
    split; [cbn; congruence|]. constructor; [|exact Hall].
    exact (mine_loop_sound _ _ _ _ _ _ E1).
Qed.

Lemma total_trials_cons (trials : nat) (r : MiningResult) (runs : list (nat * MiningResult)) :
  total_trials ((trials, r) :: runs) = (trials + total_trials runs)%nat.
Proof. reflexivity. Qed.

(** The workers that [call_workers] has called have each run to their own
    result, and the trials add up. *)
Lemma call_workers_runs (fuel left : nat) (header goal : string) (threadIndexes : list N)
    (results : list MiningResult) :
  call_workers fuel header goal threadIndexes = Some (results, left) ->
  exists runs,
    all_return header goal threadIndexes runs /\
    map snd runs = results /\
    (total_trials runs + left = fuel)%nat.
Proof.
  revert fuel results; induction threadIndexes as [|index rest IH]; intros fuel results;
    cbn [call_workers].
  - intros [= <- <-]. exists []. cbn. auto.
  - destruct (mineSingleTask fuel header goal index) as [[r fuel1]|] eqn:E1; [|discriminate].
    destruct (call_workers fuel1 header goal rest) as [[rs fuel2]|] eqn:E2; [|discriminate].
    intros [= <- <-]. destruct (IH _ _ E2) as (runs & Hall & Hres & Hsum).
    destruct (mine_loop_exact _ _ _ _ _ _ E1) as [Hle Hown].
    exists (((fuel - fuel1)%nat, r) :: runs). cbn [all_return map snd].
    split; [split; [exact Hown|exact Hall]|]. split; [now rewrite Hres|].
    rewrite total_trials_cons. lia.
Qed.

(** Conversely, when every worker returns after its own trials, the calls
    in sequence use up the sum of the trials. *)
Lemma all_return_call_workers (header goal : string) (threadIndexes : list N)
    (runs : list (nat * MiningResult)) (extra : nat) :
  all_return header goal threadIndexes runs ->
  call_workers (total_trials runs + extra) header goal threadIndexes =
    Some (map snd runs, extra).
Proof.
  revert runs; induction threadIndexes as [|index rest IH]; intros [|[trials r] runs];
    cbn [all_return]; try contradiction; [intros _; reflexivity|].
  intros [Hown Hall]. cbn [call_workers]. rewrite total_trials_cons.
    unfold own_result, mineSingleTask in *.
    replace (trials + total_trials runs + extra)%nat
      with (trials + (total_trials runs + extra))%nat by lia.
    rewrite (mine_loop_mono _ _ _ _ _ _ _ Hown). cbn [Nat.add].
    now rewrite (IH runs Hall).
Qed.

Lemma length_indices (n : N) : List.length (indices n) = N.to_nat n.
Proof. unfold indices. now rewrite length_map, length_seq. Qed.

Lemma all_return_length (header goal : string) (threadIndexes : list N)
    (runs : list (nat * MiningResult)) :
  all_return header goal threadIndexes runs -> List.length runs = List.length threadIndexes.
Proof.
  revert runs; induction threadIndexes as [|index rest IH]; intros [|[trials r] runs];
    cbn [all_return List.length]; try contradiction; [reflexivity|].
  intros [_ Hall]. now rewrite (IH runs Hall).
Qed.

(** With the coordinator's own target, the result of worker 0 passes the
    check, so [find] stops there. *)
Lemma validResult_of_workers (fuel left : nat) (header : string) (threadIndexes : list N)
    (results : list MiningResult) :
  call_workers fuel header target threadIndexes = Some (results, left) ->
  validResult cfg target results = List.head results.
Proof.
  intros H. destruct (call_workers_results _ _ _ _ _ _ H) as [_ Hall].
  destruct results as [|r rs]; [reflexivity|].
  unfold validResult. cbn [find List.head].
  apply Forall_inv in Hall. destruct Hall as [Hh Hq].
  unfold qualifies, target in Hq. rewrite length_zeros, <- Hh in Hq.
  fold target in Hq. rewrite Hq, String.eqb_refl. reflexivity.
Qed.

(** The coordinator, step by step: all the workers, then the result of the
    first one. *)
Lemma run_coordinator (fuel : nat) (v : Value) (w : World) :
  run net (mineProofOfWorkParallel fuel cfg v) w =
  match call_workers fuel (blockHeader cfg (json_in v w)) target
                     (indices (parallelThreads cfg)) with
  | Some (results, _) =>
      match List.head results with
      | Some r =>
          (Returned {| block_transactions := v; block_nonce := nonce r; block_hash := hash r |},
           emit (EvLog info (MinedWith (nonce r) (hash r))) (emit (EvLog info StartingPoW) w))
      | None => (Threw mining_failed, emit (EvLog info StartingPoW) w)
      end
  | None => (Unfinished, emit (EvLog info StartingPoW) w)
  end.
Proof.
  rewrite run_mineProofOfWorkParallel. unfold miningTasks.
  destruct (call_workers fuel (blockHeader cfg (json_in v w)) target
                         (indices (parallelThreads cfg)))
    as [[results left]|] eqn:E; cbn [option_map fst]; [|reflexivity].
  rewrite run_select_result.
  now rewrite (validResult_of_workers _ _ _ _ _ E).
Qed.

End Coordinator.

(** C6. Once all workers have returned [results]: if no result has a hash
    whose first [difficulty] characters equal the target, the coordinator
    throws the error "Failed to mine block after all parallel threads" (an
    error of its own, raised with [throw]); otherwise it returns the block
    [{transactions, nonce, hash}] made of the first result that passes the
    check. The same holds of the selection step for any list of results. *)
Theorem coordinator_selects_or_fails (net : Network) (fuel : nat) (cfg : Config)
    (transactions : Value) (w : World) (results : list MiningResult) :
  let target := zeros (N.to_nat (difficulty cfg)) in
  miningTasks fuel cfg (blockHeader cfg (json_in transactions w)) target = Some results ->
  ((forall r, In r results -> ~ meets_target cfg target r) ->
   fst (run net (mineProofOfWorkParallel fuel cfg transactions) w) = Threw mining_failed) /\
  ((exists r, In r results /\ meets_target cfg target r) ->
   exists r, In r results /\ meets_target cfg target r /\
     fst (run net (mineProofOfWorkParallel fuel cfg transactions) w) =
       Returned {| block_transactions := transactions;
                   block_nonce := nonce r; block_hash := hash r |}) /\
  (forall (any : list MiningResult) (w' : World),
     ((forall r, In r any -> ~ meets_target cfg target r) ->
      run net (select_result cfg transactions target any) w' = (Threw mining_failed, w')) /\
     ((exists r, In r any /\ meets_target cfg target r) ->
      exists before r after,
        any = (before ++ r :: after)%list /\
        (forall x, In x before -> ~ meets_target cfg target x) /\
        meets_target cfg target r /\
        fst (run net (select_result cfg transactions target any) w') =
          Returned {| block_transactions := transactions;
                      block_nonce := nonce r; block_hash := hash r |})) /\
  (forall response, mining_failed <> HttpError response) /\ mining_failed <> TypeError.
Proof.
  intros target Hall.
  assert (Hsel : forall (any : list MiningResult) (w' : World),
     ((forall r, In r any -> ~ meets_target cfg target r) ->
      run net (select_result cfg transactions target any) w' = (Threw mining_failed, w')) /\
     ((exists r, In r any /\ meets_target cfg target r) ->
      exists before r after,
        any = (before ++ r :: after)%list /\
        (forall x, In x before -> ~ meets_target cfg target x) /\
        meets_target cfg target r /\
        fst (run net (select_result cfg transactions target any) w') =
          Returned {| block_transactions := transactions;
                      block_nonce := nonce r; block_hash := hash r |})).
  { intros any w'. rewrite run_select_result. split.
    - intros Hnone. apply validResult_none in Hnone. now rewrite Hnone.
    - intros (r & Hin & Hr).
      destruct (validResult cfg target any) as [v|] eqn:E.
      + destruct (validResult_first _ _ _ _ E) as (before & after & Heq & Hb & Hv).
        exists before, v, after. auto.
      + exfalso. exact (proj1 (validResult_none _ _ _) E r Hin Hr). }
  rewrite run_mineProofOfWorkParallel. fold target. rewrite Hall.
  repeat split; try discriminate.
  - intros Hnone. now rewrite (proj1 (Hsel results _) Hnone).
  - intros Hsome.
    destruct (proj2 (Hsel results (emit (EvLog info StartingPoW) w)) Hsome)
      as (before & r & after & -> & _ & Hr & Hrun).
    exists r. split; [|split]; auto. apply in_or_app. right. now left.
  - apply Hsel.
  - apply Hsel.
Qed.

(** With four workers the block comes from a result that passes the check;
    with none the coordinator throws. *)
Lemma coordinator_selects_or_fails_witness :
  (exists r, meets_target example_config "0" r /\
     fst (run service_down (mineProofOfWorkParallel 100 example_config (VArr 0)) example_world) =
       Returned {| block_transactions := VArr 0;
                   block_nonce := nonce r; block_hash := hash r |}) /\
  fst (run service_down
         (mineProofOfWorkParallel 100
            {| minerAddress := "abc123"; difficulty := 1; parallelThreads := 0 |} (VArr 0))
         example_world) = Threw mining_failed.
Proof.
  split.
  - destruct (coordinator_selects_or_fails service_down 100 example_config (VArr 0)
                example_world
                [ {| nonce := 19;
                     hash := "013068e86c3813e2d7cc186066aaca6cf15685ee40b9f6429d46668c5beff14e" |};
                  {| nonce := 1000004;
                     hash := "060275953c73e5ea4b21c8071057cb29d05fc3392702ec5142d25f261f18f772" |};
                  {| nonce := 2000005;
                     hash := "02321089154eb3299a423841cb558627b079bac3ee6b20467ac2c8a5f696e5a9" |};
                  {| nonce := 3000010;
                     hash := "070a5997fc97803b5a729d0f4f412fb3355fc3b4941063fd736497d9e3b8bb69" |} ]
                ltac:(vm_compute; reflexivity)) as (_ & Hsome & _).
    destruct Hsome as (r & _ & Hr & Hrun).
    + eexists. split; [left; reflexivity | reflexivity].
    + exists r. auto.
  - refine (proj1 (coordinator_selects_or_fails service_down 100
             {| minerAddress := "abc123"; difficulty := 1; parallelThreads := 0 |}
             (VArr 0) example_world [] ltac:(reflexivity)) _).
    intros r [].
Defined.

(** C4, as amended. The coordinator cancels no worker. It is done exactly
    when every worker has run to its own result, the result of
    [mineSingleTask] for its own index: the workers are called one after the
    other, so the trials that the coordinator needs are those of all the
    workers together. It then uses the first result in index order, that of
    worker 0, and drops the others. A call changes no array and sends no
    request. *)
Theorem coordinator_waits_for_all (net : Network) (fuel : nat) (cfg : Config) (a : loc)
    (w : World) :
  let header := blockHeader cfg (JArr (contents a w)) in
  let target := zeros (N.to_nat (difficulty cfg)) in
  let out := run net (mineProofOfWorkParallel fuel cfg (VArr a)) w in
  (fst out <> Unfinished <->
   exists runs,
     all_return header target (indices (parallelThreads cfg)) runs /\
     (total_trials runs <= fuel)%nat) /\
  (forall runs,
     all_return header target (indices (parallelThreads cfg)) runs ->
     (total_trials runs <= fuel)%nat ->
     List.length runs = N.to_nat (parallelThreads cfg) /\
     match runs with
     | [] => fst out = Threw mining_failed
     | (_, first) :: _ =>
         fst out = Returned {| block_transactions := VArr a;
                               block_nonce := nonce first;
                               block_hash := hash first |}
     end) /\
  (forall runs,
     all_return header target (indices (parallelThreads cfg)) runs ->
     (fuel < total_trials runs)%nat -> fst out = Unfinished) /\
  heap (snd out) = heap w /\
  posts (new_events net (mineProofOfWorkParallel fuel cfg (VArr a)) w) = [].
Proof.
  intros header target out.
  assert (Hout : out =
    match call_workers fuel header target (indices (parallelThreads cfg)) with
    | Some (results, _) =>
        match List.head results with
        | Some r =>
            (Returned {| block_transactions := VArr a;
                         block_nonce := nonce r; block_hash := hash r |},
             emit (EvLog info (MinedWith (nonce r) (hash r))) (emit (EvLog info StartingPoW) w))
        | None => (Threw mining_failed, emit (EvLog info StartingPoW) w)
        end
    | None => (Unfinished, emit (EvLog info StartingPoW) w)
    end) by apply run_coordinator.
  assert (Hdone : forall runs,
    all_return header target (indices (parallelThreads cfg)) runs ->
    (total_trials runs <= fuel)%nat ->
    call_workers fuel header target (indices (parallelThreads cfg)) =
      Some (map snd runs, (fuel - total_trials runs)%nat)).
  { intros runs Hall Hle.
    rewrite <- (all_return_call_workers _ _ _ _ (fuel - total_trials runs) Hall).
    f_equal. lia. }
  split; [|split; [|split; [|split]]].
  - rewrite Hout. split.
    + destruct (call_workers fuel header target (indices (parallelThreads cfg)))
        as [[results left]|] eqn:E; [|cbn [fst]; congruence].
      intros _. destruct (call_workers_runs _ _ _ _ _ _ E) as (runs & Hall & _ & Hsum).
      exists runs. split; [exact Hall|lia].
    + intros (runs & Hall & Hle). rewrite (Hdone runs Hall Hle).
      destruct (List.head (map snd runs)); cbn; discriminate.
  - intros runs Hall Hle. rewrite Hout, (Hdone runs Hall Hle). split.
    + now rewrite (all_return_length _ _ _ _ Hall), length_indices.
    + destruct runs as [|[trials first] runs]; reflexivity.
  - intros runs Hall Hlt. rewrite Hout.
    destruct (call_workers fuel header target (indices (parallelThreads cfg)))
      as [[results left]|] eqn:E; [|reflexivity].
    exfalso.
    destruct (call_workers_runs _ _ _ _ _ _ E) as (runs' & Hall' & _ & Hsum).
    pose proof (all_return_call_workers _ _ _ _ left Hall') as E'.
    pose proof (all_return_call_workers _ _ _ _ (total_trials runs' + left) Hall) as E2.
    replace (total_trials runs + (total_trials runs' + left))%nat
      with (total_trials runs' + left + total_trials runs)%nat in E2 by lia.
    assert (Hmore : forall (idx : list N) f l rs extra,
              call_workers f header target idx = Some (rs, l) ->
              call_workers (f + extra) header target idx = Some (rs, (l + extra)%nat)).
    { clear. induction idx as [|index rest IH]; intros f l rs extra; cbn [call_workers].
      - now intros [= <- <-].
      - destruct (mineSingleTask f header target index) as [[r f1]|] eqn:E1; [|discriminate].
        unfold mineSingleTask in *. rewrite (mine_loop_mono _ _ _ _ _ _ _ E1).
        destruct (call_workers f1 header target rest) as [[rs1 f2]|] eqn:E2; [|discriminate].
        intros [= <- <-]. now rewrite (IH _ _ _ _ E2). }
    rewrite (Hmore _ _ _ _ (total_trials runs) E') in E2.
    injection E2 as _ Hleft. lia.
  - rewrite Hout.
    destruct (call_workers fuel header target (indices (parallelThreads cfg)))
      as [[results left]|]; [destruct (List.head results)|]; reflexivity.
  - destruct (call_workers fuel header target (indices (parallelThreads cfg)))
      as [[results left]|]; [destruct (List.head results) as [r|]|].
    + rewrite (new_events_intro _ _ _
                 [EvLog info StartingPoW; EvLog info (MinedWith (nonce r) (hash r))]);
        [reflexivity|].
      fold out. rewrite Hout. cbn [snd emit trace]. now rewrite <- app_assoc.
    + rewrite (new_events_intro _ _ _ [EvLog info StartingPoW]); [reflexivity|].
      fold out. now rewrite Hout.
    + rewrite (new_events_intro _ _ _ [EvLog info StartingPoW]); [reflexivity|].
      fold out. now rewrite Hout.
Qed.

Lemma coordinator_waits_for_all_witness :
  fst (run service_down (mineProofOfWorkParallel 38 example_config (VArr 0)) example_world) =
    Returned {| block_transactions := VArr 0;
                block_nonce := 19;
                block_hash := "013068e86c3813e2d7cc186066aaca6cf15685ee40b9f6429d46668c5beff14e" |} /\
  fst (run service_down (mineProofOfWorkParallel 37 example_config (VArr 0)) example_world) =
    Unfinished.
Proof.
  pose (runs :=
    [ (19%nat, {| nonce := 19;
          hash := "013068e86c3813e2d7cc186066aaca6cf15685ee40b9f6429d46668c5beff14e" |});
      (4%nat, {| nonce := 1000004;
          hash := "060275953c73e5ea4b21c8071057cb29d05fc3392702ec5142d25f261f18f772" |});
      (5%nat, {| nonce := 2000005;
          hash := "02321089154eb3299a423841cb558627b079bac3ee6b20467ac2c8a5f696e5a9" |});
      (10%nat, {| nonce := 3000010;
          hash := "070a5997fc97803b5a729d0f4f412fb3355fc3b4941063fd736497d9e3b8bb69" |}) ]).
  assert (Hall : all_return example_header "0" (indices 4) runs)
    by (vm_compute; repeat split).
  split.
  - exact (proj2 (proj1 (proj2 (coordinator_waits_for_all service_down 38 example_config 0
                                  example_world)) runs Hall ltac:(vm_compute; lia))).
  - exact (proj1 (proj2 (proj2 (coordinator_waits_for_all service_down 37 example_config 0
                                  example_world))) runs Hall ltac:(vm_compute; lia)).
Defined.

(** C4 as stated fails: 19 hash trials let worker 0 return a valid result,
    yet the coordinator is not done with them; workers 1, 2 and 3 are then
    called and run to their own results (38 trials in all). *)
Lemma coordinator_keeps_mining_after_first_result :
  ~ (forall fuel r left,
        mineSingleTask fuel example_header "0" 0 = Some (r, left) ->
        meets_target example_config "0" r ->
        fst (run service_down (mineProofOfWorkParallel fuel example_config (VArr 0))
                 example_world)
          <> Unfinished).
Proof.
  intros H.
  apply (H 19%nat
           {| nonce := 19;
              hash := "013068e86c3813e2d7cc186066aaca6cf15685ee40b9f6429d46668c5beff14e" |}
           0%nat); vm_compute; reflexivity.
Qed.

(** ** Submitting, and what the answer leads to *)

(** Closes the description of one step once the new world is known. *)
Ltac settle_step :=
  cbn [snd emit elapse count_request trace heap];
  rewrite <- ?app_assoc; cbn [app];
  repeat split; try reflexivity; try congruence.

Section Submission.

Context {A : Type}.
Variable net : Network.

(** A request awaited inside a [try] block whose [catch] block starts by
    formatting the error: the answer decides between the rest of the [try]
    block, the rest of the [catch] block, and an error that leaves both. *)
Lemma run_submission (url : string) (body : JValue) (k : option JValue -> Prog A)
    (rest : Prog A) (w : World) (latency : N) (answer : PostResponse) :
  on_post net (requests w) url body = (latency, answer) ->
  run net (try_catch (data <- axios_post url body ;;
                      blockHash <- blockHash_of data ;;
                      k blockHash)
                     (fun thrown => format_error thrown ;; rest)) w =
  match verdict answer with
  | Accepted blockHash =>
      run net (try_catch (k blockHash) (fun thrown => format_error thrown ;; rest))
          (after_post url body latency w)
  | Failed => run net rest (after_post url body latency w)
  | Crashes => (Threw TypeError, after_post url body latency w)
  end.
Proof.
  intros Hpost. unfold axios_post, after_post. cbn [bind try_catch run]. rewrite Hpost.
  destruct answer as [data|response]; cbn [bind try_catch].
  - unfold verdict, blockHash_of.
    destruct data as [ |b|n|s|items|fields]; cbn [get_field];
      try reflexivity.
    destruct (own_field "blockHash" fields) as [blockHash|]; [|reflexivity].
    unfold interpolate. destruct (printable blockHash); reflexivity.
  - unfold verdict, format_error. destruct (reason_of (HttpError response)) as [data|];
      [|reflexivity].
    unfold interpolate. destruct (printable data); reflexivity.
Qed.

End Submission.

(** An answer without a usable hash, or a refusal, is never a success. *)
Lemma verdict_of_refusal (response : option JValue) (blockHash : option JValue) :
  verdict (PostFailed response) <> Accepted blockHash.
Proof.
  unfold verdict. destruct (reason_of (HttpError response)) as [data|]; [|discriminate].
  destruct (printable data); discriminate.
Qed.

(** ** The retry controller *)

Section Retry.

Variables (net : Network) (cfg : Config) (retries delay : N).

Lemma trace_after_failure (attempt : N) (w w1 : World) (latency : N) :
  w1 = after_post API_URL_MINE (retry_body cfg) latency
         (emit (EvLog info (RetryAttempt attempt)) w) ->
  trace (after_failure retries delay attempt w1) =
    (trace w ++ failed_attempt cfg retries delay attempt)%list /\
  requests (after_failure retries delay attempt w1) = S (requests w) /\
  heap (after_failure retries delay attempt w1) = heap w.
Proof.
  intros ->. unfold after_failure, after_post, failed_attempt.
  destruct (attempt <? retries)%N; settle_step.
Qed.

(** One iteration of the loop: it sends one request, with the address
    alone, and the answer decides what follows. *)
Lemma retry_loop_step (n : nat) (attempt : N) (w : World) (latency : N)
    (answer : PostResponse) :
  (attempt <= retries)%N ->
  on_post net (requests w) API_URL_MINE (retry_body cfg) = (latency, answer) ->
  let w1 := after_post API_URL_MINE (retry_body cfg) latency
              (emit (EvLog info (RetryAttempt attempt)) w) in
  run net (retry_loop (S n) cfg retries delay attempt) w =
  match verdict answer with
  | Accepted blockHash =>
      (Returned tt, emit (EvLog info (RetrySucceeded attempt blockHash)) w1)
  | Failed =>
      run net (retry_loop n cfg retries delay (attempt + 1))
          (after_failure retries delay attempt w1)
  | Crashes => (Threw TypeError, w1)
  end.
Proof.
  intros Hle Hpost w1. apply N.leb_le in Hle.
  cbn [retry_loop]. rewrite Hle. rewrite run_bind.
  cbn [log bind try_catch run]. fold (retry_body cfg).
  rewrite (run_submission net API_URL_MINE (retry_body cfg) _ _ _ latency answer)
    by exact Hpost.
  fold w1. destruct (verdict answer) as [blockHash| |].
  - reflexivity.
  - unfold after_failure.
    destruct (attempt <? retries)%N; reflexivity.
  - reflexivity.
Qed.

(** For any service: the loop sends at most [n] requests, each to the mining
    endpoint with the address alone, and leaves the arrays alone; it returns
    or throws a [TypeError]. *)
Lemma retry_loop_any (n : nat) (attempt : N) (w : World) :
  exists new,
    trace (snd (run net (retry_loop n cfg retries delay attempt) w)) = (trace w ++ new)%list /\
    Forall (fun p => p = (API_URL_MINE, retry_body cfg)) (posts new) /\
    (List.length (posts new) <= n)%nat /\
    heap (snd (run net (retry_loop n cfg retries delay attempt) w)) = heap w /\
    (fst (run net (retry_loop n cfg retries delay attempt) w) = Returned tt \/
     fst (run net (retry_loop n cfg retries delay attempt) w) = Threw TypeError).
Proof.
  revert attempt w; induction n as [|n IH]; intros attempt w.
  - exists []. cbn. rewrite app_nil_r. repeat split; auto.
  - destruct (N.leb_spec attempt retries) as [Hle|Hgt].
    + destruct (on_post net (requests w) API_URL_MINE (retry_body cfg))
        as [latency answer] eqn:Hpost.
      rewrite (retry_loop_step n attempt w latency answer Hle Hpost). cbv zeta.
      set (w1 := after_post API_URL_MINE (retry_body cfg) latency
                   (emit (EvLog info (RetryAttempt attempt)) w)).
      destruct (verdict answer) as [blockHash| |].
      * exists [EvLog info (RetryAttempt attempt); EvPost API_URL_MINE (retry_body cfg);
                EvLog info (RetrySucceeded attempt blockHash)].
        unfold w1, after_post. cbn [fst snd emit elapse count_request trace heap].
        rewrite <- !app_assoc.
        split; [reflexivity|]. split; [repeat constructor|]. split; [cbn; lia|]. auto.
      * destruct (trace_after_failure attempt w w1 latency eq_refl) as (Htr & _ & Hheap).
        destruct (IH (attempt + 1)%N (after_failure retries delay attempt w1))
          as (new & Hnew & Hall & Hlen & Hh & Hret).
        exists (failed_attempt cfg retries delay attempt ++ new)%list.
        rewrite Hnew, Htr, Hh, Hheap, <- app_assoc.
        split; [reflexivity|]. rewrite posts_app.
        assert (Hp : posts (failed_attempt cfg retries delay attempt)
                     = [(API_URL_MINE, retry_body cfg)])
          by (unfold failed_attempt; now destruct (attempt <? retries)%N).
        rewrite Hp. cbn [app List.length].
        repeat split; auto. lia.
      * exists [EvLog info (RetryAttempt attempt); EvPost API_URL_MINE (retry_body cfg)].
        unfold w1, after_post. cbn [fst snd emit elapse count_request trace heap].
        rewrite <- !app_assoc.
        split; [reflexivity|]. split; [repeat constructor|]. split; [cbn; lia|]. auto.
    + exists []. cbn [retry_loop]. apply N.leb_gt in Hgt. rewrite Hgt. cbn.
      rewrite app_nil_r. repeat split; auto. lia.
Qed.

Lemma attempts_from_S (first : N) (n : nat) :
  attempts_from first (S n) = first :: attempts_from (first + 1) n.
Proof.
  unfold attempts_from. cbn [seq map]. rewrite N.add_0_r. f_equal.
  rewrite <- seq_shift, map_map. apply map_ext. intros i. lia.
Qed.

(** While the attempts fail in the ordinary way the loop goes on: after [k]
    such attempts it is where it would be had it started at attempt
    [attempt + k]. *)
Lemma retry_loop_skip (k n : nat) (attempt : N) (w : World) :
  (k <= n)%nat ->
  (attempt + N.of_nat k <= retries + 1)%N ->
  (forall i, (i < k)%nat -> retry_verdict net cfg w i = Failed) ->
  exists wk,
    run net (retry_loop n cfg retries delay attempt) w =
      run net (retry_loop (n - k) cfg retries delay (attempt + N.of_nat k)) wk /\
    trace wk = (trace w ++ flat_map (failed_attempt cfg retries delay)
                                    (attempts_from attempt k))%list /\
    requests wk = (requests w + k)%nat /\
    heap wk = heap w.
Proof.
  revert n attempt w; induction k as [|k IH]; intros n attempt w Hn Hle Hfail.
  - exists w. rewrite Nat.sub_0_r, N.add_0_r, Nat.add_0_r. cbn. now rewrite app_nil_r.
  - destruct n as [|n]; [lia|].
    destruct (on_post net (requests w) API_URL_MINE (retry_body cfg))
      as [latency answer] eqn:Hpost.
    rewrite (retry_loop_step n attempt w latency answer ltac:(lia) Hpost). cbv zeta.
    assert (Hv : verdict answer = Failed).
    { specialize (Hfail 0%nat ltac:(lia)). unfold retry_verdict in Hfail.
      rewrite Nat.add_0_r, Hpost in Hfail. exact Hfail. }
    rewrite Hv.
    set (w1 := after_post API_URL_MINE (retry_body cfg) latency
                 (emit (EvLog info (RetryAttempt attempt)) w)).
    destruct (trace_after_failure attempt w w1 latency eq_refl) as (Htr & Hreq & Hheap).
    destruct (IH n (attempt + 1)%N (after_failure retries delay attempt w1))
      as (wk & Hrun & Htrk & Hreqk & Hheapk); try lia.
    { intros i Hi. specialize (Hfail (S i) ltac:(lia)). unfold retry_verdict in *.
      rewrite Hreq. now replace (S (requests w) + i)%nat with (requests w + S i)%nat by lia. }
    exists wk. rewrite Hrun. cbn [Nat.sub].
    replace (attempt + 1 + N.of_nat k)%N with (attempt + N.of_nat (S k))%N by lia.
    split; [reflexivity|]. rewrite Htrk, Htr, Hreqk, Hreq, Hheapk, Hheap, attempts_from_S.
    cbn [flat_map]. rewrite <- app_assoc. repeat split; auto; lia.
Qed.

(** [k] ordinary failures, then an answer that ends the loop: a success, or
    a refusal that the [catch] block cannot format. *)
Lemma retry_loop_until (k n : nat) (attempt : N) (w : World) (latency : N)
    (answer : PostResponse) :
  (k < n)%nat ->
  (attempt + N.of_nat k <= retries)%N ->
  (forall i, (i < k)%nat -> retry_verdict net cfg w i = Failed) ->
  on_post net (requests w + k)%nat API_URL_MINE (retry_body cfg) = (latency, answer) ->
  verdict answer <> Failed ->
  let out := run net (retry_loop n cfg retries delay attempt) w in
  let sent := (flat_map (failed_attempt cfg retries delay) (attempts_from attempt k)
               ++ [ EvLog info (RetryAttempt (attempt + N.of_nat k));
                    EvPost API_URL_MINE (retry_body cfg) ])%list in
  match verdict answer with
  | Accepted blockHash =>
      fst out = Returned tt /\
      trace (snd out) =
        (trace w ++ sent
           ++ [EvLog info (RetrySucceeded (attempt + N.of_nat k) blockHash)])%list
  | _ => fst out = Threw TypeError /\ trace (snd out) = (trace w ++ sent)%list
  end.
Proof.
  intros Hn Hle Hfail Hpost Hv out sent.
  destruct (retry_loop_skip k n attempt w ltac:(lia) ltac:(lia) Hfail)
    as (wk & Hrun & Htr & Hreq & _).
  unfold out. rewrite Hrun.
  destruct (n - k)%nat as [|m] eqn:Em; [lia|].
  rewrite <- Hreq in Hpost.
  rewrite (retry_loop_step m _ wk latency answer Hle Hpost). cbv zeta.
  unfold sent, after_post.
  destruct (verdict answer) as [blockHash| |]; [|congruence|];
    cbn [fst snd emit elapse count_request trace]; rewrite Htr, <- !app_assoc;
    split; reflexivity.
Qed.

(** When every planned attempt fails in the ordinary way, each is made. *)
Lemma retry_loop_all_fail (n : nat) (attempt : N) (w : World) :
  (forall i, (i < n)%nat -> retry_verdict net cfg w i = Failed) ->
  (attempt + N.of_nat n = retries + 1)%N ->
  fst (run net (retry_loop n cfg retries delay attempt) w) = Returned tt /\
  trace (snd (run net (retry_loop n cfg retries delay attempt) w)) =
    (trace w ++ flat_map (failed_attempt cfg retries delay) (attempts_from attempt n))%list.
Proof.
  intros Hfail Hn.
  destruct (retry_loop_skip n n attempt w ltac:(lia) ltac:(lia) Hfail)
    as (wk & Hrun & Htr & _).
  rewrite Hrun, Nat.sub_diag. cbn [retry_loop run fst snd]. auto.
Qed.

(** The attempt that follows [k] ordinary failures is made, if it is
    planned: its request is sent. *)
Lemma retry_loop_next_attempt (k n : nat) (attempt : N) (w : World) :
  (k < n)%nat ->
  (attempt + N.of_nat k <= retries)%N ->
  (forall i, (i < k)%nat -> retry_verdict net cfg w i = Failed) ->
  (k < List.length (posts (new_events net (retry_loop n cfg retries delay attempt) w)))%nat.
Proof.
  intros Hn Hle Hfail.
  destruct (retry_loop_skip k n attempt w ltac:(lia) ltac:(lia) Hfail)
    as (wk & Hrun & Htr & Hreq & _).
  destruct (n - k)%nat as [|m] eqn:Em; [lia|].
  destruct (on_post net (requests wk) API_URL_MINE (retry_body cfg))
    as [latency answer] eqn:Hpost.
  pose proof (retry_loop_step m _ wk latency answer Hle Hpost) as Hstep. cbv zeta in Hstep.
  set (w1 := after_post API_URL_MINE (retry_body cfg) latency
               (emit (EvLog info (RetryAttempt (attempt + N.of_nat k))) wk)) in *.
  assert (Hmore : exists more,
    trace (snd (run net (retry_loop n cfg retries delay attempt) w)) =
    (trace w ++ flat_map (failed_attempt cfg retries delay) (attempts_from attempt k)
       ++ EvLog info (RetryAttempt (attempt + N.of_nat k))
       :: EvPost API_URL_MINE (retry_body cfg) :: more)%list).
  { rewrite Hrun, Hstep.
    assert (Hw1 : trace w1 =
      (trace w ++ flat_map (failed_attempt cfg retries delay) (attempts_from attempt k)
         ++ [EvLog info (RetryAttempt (attempt + N.of_nat k));
             EvPost API_URL_MINE (retry_body cfg)])%list).
    { unfold w1, after_post. cbn [emit elapse count_request trace].
      now rewrite Htr, <- !app_assoc. }
    destruct (verdict answer) as [blockHash| |].
    - eexists. cbn [snd emit trace]. rewrite Hw1, <- !app_assoc. reflexivity.
    - destruct (trace_after_failure (attempt + N.of_nat k) wk w1 latency eq_refl)
        as (Hfa & _).
      destruct (run_trace_grows net (retry_loop m cfg retries delay (attempt + N.of_nat k + 1))
                  (after_failure retries delay (attempt + N.of_nat k) w1)) as [more Hm].
      eexists. rewrite Hm, Hfa, Htr. unfold failed_attempt. rewrite <- !app_assoc.
      cbn [app]. reflexivity.
    - exists []. cbn [snd]. exact Hw1. }
  destruct Hmore as [more Hmore].
  rewrite (new_events_intro _ _ _ _ Hmore), posts_app.
  assert (Hk : List.length (posts (flat_map (failed_attempt cfg retries delay)
                                            (attempts_from attempt k))) = k).
  { clear. generalize attempt. induction k as [|k IH]; intros first; [reflexivity|].
    rewrite attempts_from_S. cbn [flat_map]. rewrite posts_app, length_app, IH.
    unfold failed_attempt. now destruct (first <? retries)%N. }
  rewrite length_app, Hk.
  change (posts (EvLog info (RetryAttempt (attempt + N.of_nat k))
                   :: EvPost API_URL_MINE (retry_body cfg) :: more))
    with ((API_URL_MINE, retry_body cfg) :: posts more).
  cbn [List.length]. lia.
Qed.

End Retry.

(** ** The trace of attempts that fail *)

Section FailedAttempts.

Variables (cfg : Config) (retries delay : N).

Lemma posts_failed_attempts (l : list N) :
  posts (flat_map (failed_attempt cfg retries delay) l) =
  repeat (API_URL_MINE, retry_body cfg) (List.length l).
Proof.
  induction l as [|k l IH]; [reflexivity|].
  cbn [flat_map List.length repeat]. rewrite posts_app, IH.
  unfold failed_attempt. now destruct (k <? retries)%N.
Qed.

Lemma sleeps_failed_attempts (n : nat) (first : N) :
  (first + N.of_nat n = retries + 1)%N ->
  sleeps (flat_map (failed_attempt cfg retries delay) (attempts_from first n)) =
  repeat delay (n - 1).
Proof.
  revert first; induction n as [|n IH]; intros first Hn; [reflexivity|].
  rewrite attempts_from_S. cbn [flat_map]. rewrite sleeps_app, IH by lia.
  unfold failed_attempt. destruct (N.ltb_spec first retries) as [Hlt|Hge].
  - destruct n as [|n]; [lia|]. cbn. now rewrite Nat.sub_0_r.
  - destruct n as [|n]; [reflexivity|lia].
Qed.

Lemma last_failed_attempt (n : nat) (first : N) :
  (first + N.of_nat (S n) = retries + 1)%N ->
  exists before,
    flat_map (failed_attempt cfg retries delay) (attempts_from first (S n)) =
    (before ++ [EvLog info AllRetriesFailed])%list.
Proof.
  revert first; induction n as [|n IH]; intros first Hn; rewrite attempts_from_S;
    cbn [flat_map].
  - cbn [attempts_from seq map flat_map]. rewrite app_nil_r. unfold failed_attempt.
    destruct (N.ltb_spec first retries) as [Hlt|Hge]; [lia|].
    now exists [EvLog info (RetryAttempt first); EvPost API_URL_MINE (retry_body cfg);
                EvLog error (AttemptFailed first)].
  - destruct (IH (first + 1)%N ltac:(lia)) as [before ->].
    exists (failed_attempt cfg retries delay first ++ before)%list.
    now rewrite app_assoc.
Qed.

Lemma sleeps_early_attempts (l : list N) :
  Forall (fun attempt => (attempt < retries)%N) l ->
  sleeps (flat_map (failed_attempt cfg retries delay) l) = repeat delay (List.length l).
Proof.
  induction 1 as [|attempt l Hlt _ IH]; [reflexivity|].
  cbn [flat_map List.length repeat]. rewrite sleeps_app, IH.
  unfold failed_attempt. apply N.ltb_lt in Hlt. now rewrite Hlt.
Qed.

(** The final failure is reported by the last planned attempt only. *)
Lemma early_attempts_do_not_give_up (l : list N) :
  Forall (fun attempt => (attempt < retries)%N) l ->
  ~ In (EvLog info AllRetriesFailed) (flat_map (failed_attempt cfg retries delay) l).
Proof.
  induction 1 as [|attempt l Hlt _ IH]; [intros []|].
  cbn [flat_map]. intros Hin. apply in_app_or in Hin. destruct Hin as [Hin|Hin]; [|auto].
  unfold failed_attempt in Hin. apply N.ltb_lt in Hlt. rewrite Hlt in Hin.
  cbn in Hin. intuition discriminate.
Qed.

Lemma attempts_from_bound (first : N) (n : nat) :
  Forall (fun attempt => (attempt < first + N.of_nat n)%N) (attempts_from first n).
Proof.
  unfold attempts_from. apply List.Forall_forall. intros x Hin.
  apply in_map_iff in Hin. destruct Hin as (i & <- & Hi). apply in_seq in Hi. lia.
Qed.

Lemma length_attempts_from (first : N) (n : nat) : List.length (attempts_from first n) = n.
Proof. unfold attempts_from. now rewrite length_map, length_seq. Qed.

End FailedAttempts.

(** C5. The retry controller sends at most [retries] requests (3 when the
    argument is omitted), whatever the service answers, and it returns or
    throws a [TypeError]. When every attempt fails in the ordinary way (a
    refusal whose body can be printed, or an answer without a usable hash)
    it makes exactly [retries] attempts, sleeps [delay] milliseconds (12000
    when omitted) between two consecutive attempts and nowhere else, logs the
    final failure after the last attempt and returns: nothing is sent or
    mined after that. But a refusal whose body cannot be converted to a
    string makes the [catch] block throw while it formats its message: the
    controller then stops at that attempt with a [TypeError], without the
    failure line of the attempt and without the final failure. *)
Theorem retryMineBlock_bounded (net : Network) (cfg : Config) (retries delay : option N)
    (w : World) :
  let r := default 3%N retries in
  let d := default 12000%N delay in
  let out := run net (retryMineBlock cfg retries delay) w in
  let new := new_events net (retryMineBlock cfg retries delay) w in
  (List.length (posts new) <= N.to_nat r)%nat /\
  (fst out = Returned tt \/ fst out = Threw TypeError) /\
  ((forall i, (i < N.to_nat r)%nat -> retry_verdict net cfg w i = Failed) ->
   fst out = Returned tt /\
   new = flat_map (failed_attempt cfg r d) (attempts_from 1 (N.to_nat r)) /\
   posts new = repeat (API_URL_MINE, retry_body cfg) (N.to_nat r) /\
   sleeps new = repeat d (N.to_nat r - 1) /\
   ((0 < r)%N -> exists before, new = (before ++ [EvLog info AllRetriesFailed])%list)) /\
  (forall k,
     (k < N.to_nat r)%nat ->
     (forall i, (i < k)%nat -> retry_verdict net cfg w i = Failed) ->
     retry_verdict net cfg w k = Crashes ->
     fst out = Threw TypeError /\
     new = (flat_map (failed_attempt cfg r d) (attempts_from 1 k)
              ++ [ EvLog info (RetryAttempt (1 + N.of_nat k));
                   EvPost API_URL_MINE (retry_body cfg) ])%list /\
     posts new = repeat (API_URL_MINE, retry_body cfg) (S k) /\
     sleeps new = repeat d k /\
     ~ In (EvLog info AllRetriesFailed) new).
Proof.
  intros r d out new.
  destruct (retry_loop_any net cfg r d (N.to_nat r) 1 w) as (evs & Htr & _ & Hlen & _ & Hret).
  assert (Hnew : new = evs) by (apply new_events_intro; exact Htr).
  split; [now rewrite Hnew|]. split; [exact Hret|]. split.
  - intros Hfail.
    destruct (retry_loop_all_fail net cfg r d (N.to_nat r) 1 w Hfail ltac:(lia))
      as [Hreturned Htrace].
    assert (Hall : new = flat_map (failed_attempt cfg r d) (attempts_from 1 (N.to_nat r)))
      by (apply new_events_intro; exact Htrace).
    split; [exact Hreturned|]. rewrite Hall. split; [reflexivity|]. split; [|split].
    + now rewrite posts_failed_attempts, length_attempts_from.
    + apply sleeps_failed_attempts. lia.
    + intros Hpos. destruct (N.to_nat r) as [|n] eqn:E; [lia|].
      apply last_failed_attempt. lia.
  - intros k Hk Hfail Hcrash.
    destruct (on_post net (requests w + k)%nat API_URL_MINE (retry_body cfg))
      as [latency answer] eqn:Hpost.
    assert (Hv : verdict answer = Crashes).
    { unfold retry_verdict in Hcrash. now rewrite Hpost in Hcrash. }
    pose proof (retry_loop_until net cfg r d k (N.to_nat r) 1 w latency answer Hk
                  ltac:(lia) Hfail Hpost ltac:(congruence)) as Huntil.
    cbv zeta in Huntil. rewrite Hv in Huntil. destruct Huntil as [Hthrew Htrace].
    assert (Hall : new =
      (flat_map (failed_attempt cfg r d) (attempts_from 1 k)
         ++ [ EvLog info (RetryAttempt (1 + N.of_nat k));
              EvPost API_URL_MINE (retry_body cfg) ])%list)
      by (apply new_events_intro; exact Htrace).
    assert (Hearly : Forall (fun attempt => (attempt < r)%N) (attempts_from 1 k)).
    { eapply List.Forall_impl; [|apply attempts_from_bound]. cbn. intros x Hx. lia. }
    split; [exact Hthrew|]. rewrite Hall. split; [reflexivity|]. split; [|split].
    + rewrite posts_app, posts_failed_attempts, length_attempts_from.
      change (posts [ EvLog info (RetryAttempt (1 + N.of_nat k));
                      EvPost API_URL_MINE (retry_body cfg) ])
        with [(API_URL_MINE, retry_body cfg)].
      now rewrite <- repeat_cons.
    + rewrite sleeps_app, (sleeps_early_attempts cfg r d _ Hearly), length_attempts_from.
      apply app_nil_r.
    + intros Hin. apply in_app_or in Hin. destruct Hin as [Hin|Hin].
      * exact (early_attempts_do_not_give_up cfg r d _ Hearly Hin).
      * cbn in Hin. intuition discriminate.
Qed.

(** Against a service that is down the three attempts are made and the
    final failure is reported; against one that refuses with the body
    [{"toString":1}] the first attempt ends the call with a [TypeError]. *)
Lemma retryMineBlock_bounded_witness :
  (posts (new_events service_down (retryMineBlock example_config None None) initial_world)
     = repeat (API_URL_MINE, retry_body example_config) 3 /\
   sleeps (new_events service_down (retryMineBlock example_config None None) initial_world)
     = [12000%N; 12000%N] /\
   exists before,
     new_events service_down (retryMineBlock example_config None None) initial_world
     = (before ++ [EvLog info AllRetriesFailed])%list) /\
  (fst (run (service_refusing_with unprintable) (retryMineBlock example_config None None)
            initial_world) = Threw TypeError /\
   posts (new_events (service_refusing_with unprintable)
                     (retryMineBlock example_config None None) initial_world)
     = [(API_URL_MINE, retry_body example_config)] /\
   ~ In (EvLog info AllRetriesFailed)
        (new_events (service_refusing_with unprintable)
                    (retryMineBlock example_config None None) initial_world)).
Proof.
  split.
  - destruct (retryMineBlock_bounded service_down example_config None None initial_world)
      as (_ & _ & Hfail & _).
    destruct Hfail as (_ & _ & Hposts & Hsleeps & Hlast).
    + intros i _. reflexivity.
    + split; [exact Hposts|]. split; [exact Hsleeps|]. apply Hlast. reflexivity.
  - destruct (retryMineBlock_bounded (service_refusing_with unprintable) example_config
                None None initial_world) as (_ & _ & _ & Hcrash).
    destruct (Hcrash 0%nat) as (Hthrew & _ & Hposts & _ & Hnone).
    + cbn. lia.
    + intros i Hi. lia.
    + reflexivity.
    + split; [exact Hthrew|]. split; [exact Hposts|exact Hnone].
Defined.

(** ** One call of [mineBlock] *)

Section TryBlocks.

Context {A B : Type}.
Variable net : Network.

(** A [try] block runs its first step; what follows stays under the
    [catch]. *)
Lemma run_try_catch_bind (p : Prog A) (f : A -> Prog B) (handler : Error -> Prog B)
    (w : World) :
  run net (try_catch (bind p f) handler) w =
  match run net p w with
  | (Returned a, w') => run net (try_catch (f a) handler) w'
  | (Threw e, w') => run net (handler e) w'
  | (Unfinished, w') => (Unfinished, w')
  end.
Proof.
  revert w; induction p as [a|e| |l m k IH|k IH|url k IH|url body k IH|ms k IH
                           |items k IH|a k IH|a item k IH]; intros w;
    cbn [bind try_catch run]; auto.
  - destruct (on_get net (requests w) url). apply IH.
  - destruct (on_post net (requests w) url body). apply IH.
  - destruct (alloc items w). apply IH.
Qed.

End TryBlocks.

Lemma is_zero_length (n : nat) : is_zero (Some (JNum (Z.of_nat n))) = Nat.eqb n 0.
Proof. destruct n; reflexivity. Qed.

Lemma run_format_error (net : Network) (e : Error) (w : World) :
  run net (format_error e) w =
  match reason_of e with
  | Some data => if printable data then (Returned tt, w) else (Threw TypeError, w)
  | None => (Returned tt, w)
  end.
Proof.
  unfold format_error. destruct (reason_of e) as [data|]; [|reflexivity].
  unfold interpolate. now destruct (printable data).
Qed.

Section Round.

Variables (net : Network) (fuel : nat) (cfg : Config).

(** The reward step on an array. *)
Lemma run_reward_step_array (a : loc) (w : World) :
  run net (reward_step cfg (VArr a)) (emit (EvLog info Requesting) w) =
  (Returned tt, after_reward_step cfg a w).
Proof.
  unfold reward_step, after_reward_step, length_of.
  cbn [json_of read_array bind run length_field].
  change (contents a (emit (EvLog info Requesting) w)) with (contents a w).
  rewrite is_zero_length.
  now destruct (Nat.eqb (List.length (contents a w)) 0).
Qed.

(** [mineBlock], step by step, for any argument. *)
Lemma run_mineBlock_any (v : Value) (w : World) :
  run net (mineBlock fuel cfg v) w =
  match run net (reward_step cfg v) (emit (EvLog info Requesting) w) with
  | (Returned _, w1) =>
      match run net (mineProofOfWorkParallel fuel cfg v) w1 with
      | (Returned b, w2) =>
          let body := block_body cfg (json_in (block_transactions b) w2)
                                 (block_nonce b) (block_hash b) in
          let answer := on_post net (requests w2) API_URL_MINE body in
          let w3 := after_post API_URL_MINE body (fst answer) w2 in
          match verdict (snd answer) with
          | Accepted blockHash => (Returned tt, emit (EvLog info (BlockAdded blockHash)) w3)
          | Failed => run net (on_mining_error cfg) w3
          | Crashes => (Threw TypeError, w3)
          end
      | (Threw e, w2) => run net (caught cfg e) w2
      | (Unfinished, w2) => (Unfinished, w2)
      end
  | (Threw e, w1) => run net (caught cfg e) w1
  | (Unfinished, w1) => (Unfinished, w1)
  end.
Proof.
  unfold mineBlock, reward_step. cbn [log bind run].
  rewrite run_try_catch_bind, run_bind.
  destruct (run net (length_of v) (emit (EvLog info Requesting) w)) as [[count|e|] w0];
    try reflexivity.
  rewrite run_try_catch_bind.
  destruct (run net (if is_zero count
                     then bind (push_to v (reward_transaction cfg))
                               (fun _ => log info AddingReward)
                     else Ret tt) w0) as [[u|e|] w1]; try reflexivity.
  rewrite run_try_catch_bind.
  destruct (run net (mineProofOfWorkParallel fuel cfg v) w1) as [[b|e|] w2]; try reflexivity.
  rewrite run_try_catch_bind, run_json_of.
  fold (block_body cfg (json_in (block_transactions b) w2) (block_nonce b) (block_hash b)).
  cbv zeta.
  destruct (on_post net (requests w2) API_URL_MINE
              (block_body cfg (json_in (block_transactions b) w2)
                          (block_nonce b) (block_hash b)))
    as [latency answer] eqn:Hpost.
  rewrite (run_submission net API_URL_MINE _ _ _ w2 latency answer Hpost).
  cbn [fst snd]. destruct (verdict answer); reflexivity.
Qed.

(** [mineBlock] on an array, step by step. *)
Lemma run_mineBlock (a : loc) (w : World) :
  run net (mineBlock fuel cfg (VArr a)) w =
  match run net (mineProofOfWorkParallel fuel cfg (VArr a)) (after_reward_step cfg a w) with
  | (Returned b, w2) =>
      let body := block_body cfg (json_in (block_transactions b) w2)
                             (block_nonce b) (block_hash b) in
      let answer := on_post net (requests w2) API_URL_MINE body in
      let w3 := after_post API_URL_MINE body (fst answer) w2 in
      match verdict (snd answer) with
      | Accepted blockHash => (Returned tt, emit (EvLog info (BlockAdded blockHash)) w3)
      | Failed => run net (on_mining_error cfg) w3
      | Crashes => (Threw TypeError, w3)
      end
  | (Threw e, w2) => run net (caught cfg e) w2
  | (Unfinished, w2) => (Unfinished, w2)
  end.
Proof. now rewrite run_mineBlock_any, run_reward_step_array. Qed.

Lemma contents_append_to (a : loc) (item : JValue) (w : World) :
  contents a (append_to a item w) = (contents a w ++ [item])%list.
Proof. unfold contents, append_to. cbn [heap]. now rewrite lookup_insert_eq. Qed.

Lemma contents_after_reward_step (a : loc) (w : World) :
  contents a (after_reward_step cfg a w) = with_reward cfg (contents a w).
Proof.
  unfold after_reward_step, with_reward.
  destruct (Nat.eqb (List.length (contents a w)) 0); [|reflexivity].
  change (contents a (emit (EvLog info AddingReward)
                        (append_to a (reward_transaction cfg) (emit (EvLog info Requesting) w))))
    with (contents a (append_to a (reward_transaction cfg) (emit (EvLog info Requesting) w))).
  now rewrite contents_append_to.
Qed.

Lemma requests_after_reward_step (a : loc) (w : World) :
  requests (after_reward_step cfg a w) = requests w.
Proof.
  unfold after_reward_step. now destruct (Nat.eqb (List.length (contents a w)) 0).
Qed.

Lemma trace_after_reward_step_exact (a : loc) (w : World) :
  trace (after_reward_step cfg a w) =
  (trace w ++ EvLog info Requesting
     :: (if Nat.eqb (List.length (contents a w)) 0 then [EvLog info AddingReward] else []))%list.
Proof.
  unfold after_reward_step.
  destruct (Nat.eqb (List.length (contents a w)) 0); cbn [emit append_to trace];
    [now rewrite <- app_assoc | reflexivity].
Qed.

Lemma trace_after_reward_step (a : loc) (w : World) :
  exists new,
    trace (after_reward_step cfg a w) = (trace w ++ new)%list /\ posts new = [].
Proof.
  rewrite trace_after_reward_step_exact. eexists. split; [reflexivity|].
  now destruct (Nat.eqb (List.length (contents a w)) 0).
Qed.

Lemma Forall_eq_repeat {X : Type} (x : X) (l : list X) :
  Forall (fun y => y = x) l -> l = repeat x (List.length l).
Proof. induction 1 as [|y l -> _ IH]; cbn; [reflexivity|]. now rewrite <- IH. Qed.

(** The rest of the [catch] block: two log lines, then the retries, at
    most three requests with the address alone. The attempt that follows [j]
    ordinary failures is made. *)
Lemma on_mining_error_any (w : World) :
  exists new,
    trace (snd (run net (on_mining_error cfg) w)) = (trace w ++ new)%list /\
    Forall (fun p => p = (API_URL_MINE, retry_body cfg)) (posts new) /\
    (List.length (posts new) <= 3)%nat /\
    heap (snd (run net (on_mining_error cfg) w)) = heap w /\
    (fst (run net (on_mining_error cfg) w) = Returned tt \/
     fst (run net (on_mining_error cfg) w) = Threw TypeError) /\
    (forall j, (j < 3)%nat ->
       (forall i, (i < j)%nat -> retry_verdict net cfg w i = Failed) ->
       (j < List.length (posts new))%nat).
Proof.
  unfold on_mining_error, retryMineBlock. cbn [bind log run default].
  set (w0 := emit (EvLog info RetryingMining) (emit (EvLog error MineError) w)).
  destruct (retry_loop_any net cfg 3 12000 (N.to_nat 3) 1 w0)
    as (new & Htr & Hall & Hlen & Hheap & Hret).
  exists (EvLog error MineError :: EvLog info RetryingMining :: new).
  rewrite Htr, Hheap. unfold w0. cbn [emit trace heap]. rewrite <- !app_assoc.
  repeat split; auto.
  intros j Hj Hfail.
  pose proof (retry_loop_next_attempt net cfg 3 12000 j (N.to_nat 3) 1 w0 Hj ltac:(lia) Hfail)
    as Hnext.
  now rewrite (new_events_intro _ _ _ _ Htr) in Hnext.
Qed.

(** An error that the [try] block of [mineBlock] can throw before the
    request is formatted without harm. *)
Lemma caught_mining_failed (w : World) :
  run net (caught cfg mining_failed) w = run net (on_mining_error cfg) w.
Proof. reflexivity. Qed.

Lemma caught_TypeError (w : World) :
  run net (caught cfg TypeError) w = run net (on_mining_error cfg) w.
Proof. reflexivity. Qed.

End Round.

Section RoundSummary.

Variables (net : Network) (fuel : nat) (cfg : Config) (a : loc).

(** What a call of [mineBlock] on an array sends: the mined block first, if
    there is one, then at most three retries with the address alone. The
    retries are made when the submission failed in the ordinary way, one
    more after each retry that failed so; there is none when the submission
    was accepted, or when its refusal could not be formatted. The arrays are
    as the reward step left them. *)
Lemma mineBlock_summary (w : World) :
  let items := with_reward cfg (contents a w) in
  let target := zeros (N.to_nat (difficulty cfg)) in
  let w' := snd (run net (mineBlock fuel cfg (VArr a)) w) in
  heap w' = heap (after_reward_step cfg a w) /\
  exists new first k,
    trace w' = (trace w ++ new)%list /\
    posts new = (first ++ repeat (API_URL_MINE, retry_body cfg) k)%list /\
    (k <= 3)%nat /\
    first =
      match call_workers fuel (blockHeader cfg (JArr items)) target
                         (indices (parallelThreads cfg)) with
      | Some (r :: _, _) => [(API_URL_MINE, block_body cfg (JArr items) (nonce r) (hash r))]
      | _ => []
      end /\
    (forall r rs left,
       call_workers fuel (blockHeader cfg (JArr items)) target (indices (parallelThreads cfg))
         = Some (r :: rs, left) ->
       match verdict (snd (on_post net (requests w) API_URL_MINE
                             (block_body cfg (JArr items) (nonce r) (hash r)))) with
       | Failed =>
           forall j, (j < 3)%nat ->
             (forall i, (i < j)%nat ->
                verdict (snd (on_post net (S (requests w) + i)%nat API_URL_MINE
                                (retry_body cfg))) = Failed) ->
             (j < k)%nat
       | _ => k = 0%nat
       end).
Proof.
  intros items target w'. unfold w'. rewrite run_mineBlock, run_coordinator.
  cbn [json_in]. rewrite contents_after_reward_step. fold items target.
  destruct (trace_after_reward_step cfg a w) as (new1 & Htr1 & Hp1).
  destruct (call_workers fuel (blockHeader cfg (JArr items)) target
                         (indices (parallelThreads cfg)))
    as [[[|r rs] left]|]; cbn [List.head].
  - (* no worker at all: the coordinator throws *)
    rewrite caught_mining_failed.
    destruct (on_mining_error_any net cfg
                (emit (EvLog info StartingPoW) (after_reward_step cfg a w)))
      as (new & Htr & Hall & Hlen & Hheap & _).
    split; [exact Hheap|].
    exists (new1 ++ EvLog info StartingPoW :: new)%list, [], (List.length (posts new)).
    rewrite Htr. cbn [emit trace]. rewrite Htr1, <- !app_assoc.
    repeat split; auto; try discriminate.
    rewrite posts_app, Hp1. cbn [app]. apply (Forall_eq_repeat _ _ Hall).
  - (* a block was mined *)
    cbn [block_transactions block_nonce block_hash json_in].
    set (w2 := emit (EvLog info (MinedWith (nonce r) (hash r)))
                 (emit (EvLog info StartingPoW) (after_reward_step cfg a w))).
    assert (Hc : contents a w2 = items) by apply contents_after_reward_step.
    assert (Hr : requests w2 = requests w) by apply requests_after_reward_step.
    rewrite Hc, Hr.
    set (body := block_body cfg (JArr items) (nonce r) (hash r)).
    cbv zeta.
    set (latency := fst (on_post net (requests w) API_URL_MINE body)).
    set (w3 := after_post API_URL_MINE body latency w2).
    assert (Htr2 : trace w3 =
      (trace w ++ new1 ++ [EvLog info StartingPoW; EvLog info (MinedWith (nonce r) (hash r));
                           EvPost API_URL_MINE body])%list).
    { unfold w3, after_post. cbn [elapse count_request emit trace w2]. rewrite Htr1.
      now rewrite <- !app_assoc. }
    assert (Hreq3 : requests w3 = S (requests w)).
    { unfold w3, after_post. cbn [elapse count_request emit requests]. now rewrite Hr. }
    assert (Hheap3 : heap w3 = heap (after_reward_step cfg a w)) by reflexivity.
    destruct (verdict (snd (on_post net (requests w) API_URL_MINE body)))
      as [blockHash| |] eqn:Hv.
    + split; [reflexivity|].
      eexists _, [(API_URL_MINE, body)], 0%nat.
      cbn [snd emit trace]. rewrite Htr2, <- !app_assoc.
      split; [reflexivity|].
      split; [rewrite !posts_app, Hp1; reflexivity|].
      split; [lia|]. split; [reflexivity|].
      intros r0 rs0 left0 [= <- _ _]. fold body. now rewrite Hv.
    + destruct (on_mining_error_any net cfg w3) as (new & Htr & Hall & Hlen & Hheap & _ & Hnext).
      split; [now rewrite Hheap|].
      eexists _, [(API_URL_MINE, body)], (List.length (posts new)).
      rewrite Htr, Htr2, <- !app_assoc.
      split; [reflexivity|].
      split.
      { rewrite !posts_app, Hp1. cbn [app posts flat_map].
        f_equal. apply (Forall_eq_repeat _ _ Hall). }
      split; [exact Hlen|]. split; [reflexivity|].
      intros r0 rs0 left0 [= <- _ _]. fold body. rewrite Hv.
      intros j Hj Hfail. apply Hnext; [exact Hj|].
      intros i Hi. unfold retry_verdict. rewrite Hreq3. now apply Hfail.
    + split; [reflexivity|].
      eexists _, [(API_URL_MINE, body)], 0%nat.
      cbn [snd]. rewrite Htr2.
      split; [reflexivity|].
      split; [rewrite !posts_app, Hp1; reflexivity|].
      split; [lia|]. split; [reflexivity|].
      intros r0 rs0 left0 [= <- _ _]. fold body. now rewrite Hv.
  - (* the workers are still running *)
    split; [reflexivity|].
    exists (new1 ++ [EvLog info StartingPoW])%list, [], 0%nat.
    cbn [snd emit trace]. rewrite Htr1, <- app_assoc.
    repeat split; auto; try discriminate. now rewrite posts_app, Hp1.
Qed.

End RoundSummary.

(** C8. Every request of the retry controller goes to the mining endpoint
    with the body [{minerAddress}] and nothing else, and every planned
    attempt is made with such a request: the first one always, each later
    one when all the earlier ones failed in the ordinary way. The requests of
    a whole call of [mineBlock] are the first submission, with the body
    [{minerAddress, transactions, nonce, hash}], when a block was mined,
    followed by the retries, at most three: at least one when that
    submission failed in the ordinary way, one more after each retry that
    failed so. *)
Theorem retry_sends_address_only (net : Network) (fuel : nat) (cfg : Config) (a : loc)
    (w : World) :
  let items := with_reward cfg (contents a w) in
  let target := zeros (N.to_nat (difficulty cfg)) in
  let retry := (API_URL_MINE, JObj [("minerAddress", JStr (minerAddress cfg))]) in
  (forall retries delay w0,
     let sent := posts (new_events net (retryMineBlock cfg retries delay) w0) in
     sent = repeat retry (List.length sent) /\
     (List.length sent <= N.to_nat (default 3%N retries))%nat /\
     (forall j, (j < N.to_nat (default 3%N retries))%nat ->
        (forall i, (i < j)%nat ->
           verdict (snd (on_post net (requests w0 + i)%nat API_URL_MINE (snd retry))) = Failed) ->
        (j < List.length sent)%nat)) /\
  exists first k,
    posts (new_events net (mineBlock fuel cfg (VArr a)) w) = (first ++ repeat retry k)%list /\
    (k <= 3)%nat /\
    first =
      match call_workers fuel (blockHeader cfg (JArr items)) target
                         (indices (parallelThreads cfg)) with
      | Some (r :: _, _) =>
          [(API_URL_MINE,
            JObj [ ("minerAddress", JStr (minerAddress cfg));
                   ("transactions", JArr items);
                   ("nonce", JNum (Z.of_N (nonce r)));
                   ("hash", JStr (hash r)) ])]
      | _ => []
      end /\
    (forall r rs left,
       call_workers fuel (blockHeader cfg (JArr items)) target (indices (parallelThreads cfg))
         = Some (r :: rs, left) ->
       match verdict (snd (on_post net (requests w) API_URL_MINE
                             (block_body cfg (JArr items) (nonce r) (hash r)))) with
       | Failed =>
           forall j, (j < 3)%nat ->
             (forall i, (i < j)%nat ->
                verdict (snd (on_post net (S (requests w) + i)%nat API_URL_MINE (snd retry)))
                  = Failed) ->
             (j < k)%nat
       | _ => k = 0%nat
       end).
Proof.
  intros items target retry. split.
  - intros retries delay w0 sent.
    destruct (retry_loop_any net cfg (default 3%N retries) (default 12000%N delay)
                (N.to_nat (default 3%N retries)) 1 w0) as (evs & Htr & Hall & Hlen & _).
    assert (Hsent : sent = posts evs)
      by (unfold sent, retryMineBlock; now rewrite (new_events_intro _ _ _ _ Htr)).
    split; [rewrite Hsent; apply (Forall_eq_repeat _ _ Hall)|].
    split; [now rewrite Hsent|].
    intros j Hj Hfail.
    exact (retry_loop_next_attempt net cfg (default 3%N retries) (default 12000%N delay)
             j (N.to_nat (default 3%N retries)) 1 w0 Hj ltac:(lia) Hfail).
  - destruct (mineBlock_summary net fuel cfg a w)
      as (_ & new & first & k & Htr & Hp & Hk & Hf & Hnext).
    exists first, k. rewrite (new_events_intro _ _ _ _ Htr). auto.
Qed.

(** Against a service that is down: the block, then three requests with
    the address alone. *)
Lemma retry_sends_address_only_witness :
  posts (new_events service_down (mineBlock 100 example_config (VArr 0))
                    (snd (alloc [] initial_world))) =
  [ (API_URL_MINE,
     JObj [ ("minerAddress", JStr "abc123");
            ("transactions", JArr [reward_transaction example_config]);
            ("nonce", JNum 19);
            ("hash", JStr "013068e86c3813e2d7cc186066aaca6cf15685ee40b9f6429d46668c5beff14e") ]);
    (API_URL_MINE, JObj [("minerAddress", JStr "abc123")]);
    (API_URL_MINE, JObj [("minerAddress", JStr "abc123")]);
    (API_URL_MINE, JObj [("minerAddress", JStr "abc123")]) ].
Proof.
  destruct (retry_sends_address_only service_down 100 example_config 0
              (snd (alloc [] initial_world))) as (_ & first & k & Hposts & Hk & Hfirst & Hnext).
  assert (Hw : call_workers 100 example_header "0" (indices 4) =
    Some ([ {| nonce := 19;
               hash := "013068e86c3813e2d7cc186066aaca6cf15685ee40b9f6429d46668c5beff14e" |};
            {| nonce := 1000004;
               hash := "060275953c73e5ea4b21c8071057cb29d05fc3392702ec5142d25f261f18f772" |};
            {| nonce := 2000005;
               hash := "02321089154eb3299a423841cb558627b079bac3ee6b20467ac2c8a5f696e5a9" |};
            {| nonce := 3000010;
               hash := "070a5997fc97803b5a729d0f4f412fb3355fc3b4941063fd736497d9e3b8bb69" |} ],
          62%nat)) by (vm_compute; reflexivity).
  change (call_workers 100
            (blockHeader example_config
               (JArr (with_reward example_config (contents 0 (snd (alloc [] initial_world))))))
            (zeros (N.to_nat (difficulty example_config)))
            (indices (parallelThreads example_config)))
    with (call_workers 100 example_header "0" (indices 4)) in Hfirst, Hnext.
  rewrite Hw in Hfirst.
  specialize (Hnext _ _ _ Hw 2%nat ltac:(lia) ltac:(intros; reflexivity)).
  assert (Hthree : k = 3%nat) by lia.
  rewrite Hposts, Hfirst, Hthree. reflexivity.
Defined.

(** ** Block assembly *)

(** C2. A call of [mineBlock] on an empty transaction list leaves a list of
    length 1 that holds exactly the reward transaction, whose [Target] is the
    miner address; the push comes before serialization, so the header that is
    hashed and the body that is submitted contain it. A call on a non-empty
    list leaves the list as it was. *)
Theorem mineBlock_reward_when_empty (net : Network) (fuel : nat) (cfg : Config) (a : loc)
    (w : World) :
  let w' := snd (run net (mineBlock fuel cfg (VArr a)) w) in
  let target := zeros (N.to_nat (difficulty cfg)) in
  (contents a w = [] ->
   contents a w' = [reward_transaction cfg] /\
   List.length (contents a w') = 1%nat /\
   (exists fields, reward_transaction cfg = JObj fields /\
                   In ("Target", JStr (minerAddress cfg)) fields /\
                   In ("BlockReward", JBool true) fields) /\
   (forall r rs left,
      call_workers fuel (blockHeader cfg (JArr [reward_transaction cfg])) target
                   (indices (parallelThreads cfg)) = Some (r :: rs, left) ->
      hash r = SHA256.sha256_hex
                 (blockHeader cfg (JArr [reward_transaction cfg]) ++ N_to_dec (nonce r)) /\
      exists retries,
        posts (new_events net (mineBlock fuel cfg (VArr a)) w) =
        (API_URL_MINE, block_body cfg (JArr [reward_transaction cfg]) (nonce r) (hash r))
          :: retries)) /\
  (contents a w <> [] -> contents a w' = contents a w).
Proof.
  intros w' target.
  destruct (mineBlock_summary net fuel cfg a w)
    as (Hheap & new & first & k & Htr & Hp & _ & Hf & _).
  assert (Hc : contents a w' = with_reward cfg (contents a w)).
  { unfold contents at 1. unfold w'. rewrite Hheap. apply contents_after_reward_step. }
  split.
  - intros Hempty. rewrite Hc, Hempty. cbn [with_reward List.length Nat.eqb app].
    split; [reflexivity|]. split; [reflexivity|]. split.
    + eexists. split; [reflexivity|]. split.
      * right. right. left. reflexivity.
      * right. right. right. left. reflexivity.
    + intros r rs left Hw. rewrite Hempty in Hf. cbn [with_reward List.length Nat.eqb app] in Hf.
      fold target in Hf. rewrite Hw in Hf.
      destruct (call_workers_results _ _ _ _ _ _ Hw) as [_ Hall].
      apply Forall_inv in Hall. split; [apply Hall|].
      exists (repeat (API_URL_MINE, retry_body cfg) k).
      now rewrite (new_events_intro _ _ _ _ Htr), Hp, Hf.
  - intros Hne. rewrite Hc. unfold with_reward.
    destruct (contents a w); [congruence|reflexivity].
Qed.

Lemma mineBlock_reward_when_empty_witness :
  contents 0 (snd (run service_down (mineBlock 100 example_config (VArr 0))
                       (snd (alloc [] initial_world)))) =
    [reward_transaction example_config] /\
  contents 0 (snd (run service_down (mineBlock 100 example_config (VArr 0))
                       (snd (alloc [JStr "tx1"] initial_world)))) = [JStr "tx1"].
Proof.
  split.
  - apply (mineBlock_reward_when_empty service_down 100 example_config 0
             (snd (alloc [] initial_world))). reflexivity.
  - apply (mineBlock_reward_when_empty service_down 100 example_config 0
             (snd (alloc [JStr "tx1"] initial_world))). discriminate.
Defined.



(** ** Which effects each function has *)

Section Effects.

Variable ok : Kind -> Prop.

Lemma only_log (l : Level) (m : LogMsg) : only ok (log l m).
Proof. unfold log. auto with effects. Qed.

Lemma only_read_array (a : loc) : only ok (read_array a).
Proof. unfold read_array. auto with effects. Qed.

Lemma only_new_array (items : list JValue) : ok KNew -> only ok (new_array items).
Proof. unfold new_array. auto with effects. Qed.

Lemma only_push (a : loc) (item : JValue) : ok KPush -> only ok (push a item).
Proof. unfold push. auto with effects. Qed.

Lemma only_sleep (ms : N) : ok KSleep -> only ok (sleep ms).
Proof. unfold sleep. auto with effects. Qed.

Lemma only_axios_get (url : string) : ok KGet -> only ok (axios_get url).
Proof.
  intros H. unfold axios_get. constructor; [exact H|]. intros [data|response]; constructor.
Qed.

Lemma only_axios_post (url : string) (body : JValue) : ok KPost -> only ok (axios_post url body).
Proof.
  intros H. unfold axios_post. constructor; [exact H|]. intros [data|response]; constructor.
Qed.

Lemma only_interpolate (x : option JValue) : only ok (interpolate x).
Proof. destruct x as [v|]; cbn; [destruct (printable v)|]; constructor. Qed.

Lemma only_blockHash_of (data : JValue) : only ok (blockHash_of data).
Proof.
  destruct data; cbn [blockHash_of]; try constructor;
    (apply only_bind; [apply only_interpolate|intros _; constructor]).
Qed.

Lemma only_format_error (e : Error) : only ok (format_error e).
Proof.
  unfold format_error. destruct (reason_of e); [apply only_interpolate|constructor].
Qed.

Lemma only_json_of (v : Value) : only ok (json_of v).
Proof.
  destruct v; cbn [json_of read_array bind]; repeat (intros; constructor).
Qed.

Lemma only_value_of (v : JValue) : ok KNew -> only ok (value_of v).
Proof.
  intros H. destruct v; cbn [value_of new_array bind]; repeat (intros; constructor);
    assumption.
Qed.

Lemma only_length_of (v : Value) : only ok (length_of v).
Proof.
  unfold length_of. apply only_bind; [apply only_json_of|].
  intros current. destruct current; constructor.
Qed.

Lemma only_push_to (v : Value) (item : JValue) : ok KPush -> only ok (push_to v item).
Proof. intros H. destruct v; cbn [push_to push]; repeat constructor; assumption. Qed.

Lemma only_positive (x : option JValue) : only ok (positive x).
Proof. unfold positive. destruct (greater_than_zero x); constructor. Qed.

Hint Resolve only_log only_read_array only_new_array only_push only_sleep
  only_axios_get only_axios_post only_interpolate only_blockHash_of only_format_error
  only_json_of only_value_of only_length_of only_push_to only_positive : effects.

Lemma only_select_result (cfg : Config) (v : Value) (target : string)
    (results : list MiningResult) :
  only ok (select_result cfg v target results).
Proof. unfold select_result. destruct (validResult cfg target results); auto with effects. Qed.

Lemma only_mineProofOfWorkParallel (fuel : nat) (cfg : Config) (v : Value) :
  only ok (mineProofOfWorkParallel fuel cfg v).
Proof.
  unfold mineProofOfWorkParallel.
  apply only_bind; [auto with effects|]. intros _.
  apply only_bind; [auto with effects|]. intros serialized.
  destruct (miningTasks _ _ _ _); [apply only_select_result|constructor].
Qed.

Lemma only_retry_loop (n : nat) (cfg : Config) (retries delay attempt : N) :
  ok KPost -> ok KSleep -> only ok (retry_loop n cfg retries delay attempt).
Proof.
  intros Hpost Hsleep. revert attempt; induction n as [|n IH]; intros attempt;
    cbn [retry_loop]; [constructor|].
  destruct (attempt <=? retries)%N; [|constructor].
  apply only_bind.
  - apply only_try_catch.
    + repeat (apply only_bind; [auto with effects|]; intros ?). constructor.
    + intros thrown. repeat (apply only_bind; [|intros ?]); auto with effects.
      destruct (attempt <? retries)%N; auto with effects.
  - intros [|]; auto with effects.
Qed.

Lemma only_retryMineBlock (cfg : Config) (retries delay : option N) :
  ok KPost -> ok KSleep -> only ok (retryMineBlock cfg retries delay).
Proof. intros. unfold retryMineBlock. now apply only_retry_loop. Qed.

Lemma only_mineBlock (fuel : nat) (cfg : Config) (v : Value) :
  ok KPush -> ok KPost -> ok KSleep -> only ok (mineBlock fuel cfg v).
Proof.
  intros Hpush Hpost Hsleep. unfold mineBlock.
  apply only_bind; [auto with effects|]. intros _.
  apply only_try_catch.
  - apply only_bind; [auto with effects|]. intros count.
    apply only_bind; [destruct (is_zero count); auto with effects|]. intros _.
    apply only_bind; [apply only_mineProofOfWorkParallel|]. intros b.
    repeat (apply only_bind; [auto with effects|]; intros ?). auto with effects.
  - intros thrown. repeat (apply only_bind; [auto with effects|]; intros ?).
    now apply only_retryMineBlock.
Qed.

Lemma only_getPendingTransactions :
  ok KGet -> ok KNew -> only ok getPendingTransactions.
Proof.
  intros Hget Hnew. unfold getPendingTransactions. apply only_try_catch.
  - apply only_bind; [auto with effects|]. intros _.
    apply only_bind; [auto with effects|]. intros data.
    destruct (pending_field data);
      repeat (apply only_bind; [auto with effects|]; intros ?); auto with effects.
  - intros _. repeat (apply only_bind; [auto with effects|]; intros ?). constructor.
Qed.

End Effects.

(** After the clock is read, [startMining] does not look at it again, and
    what was read is not used. *)
Lemma startMining_reads_clock_once (fuel : nat) (cfg : Config) :
  exists body : Prog unit,
    startMining fuel cfg = DateNow (fun _ => body) /\ only no_clock body.
Proof.
  unfold startMining, now. cbn [bind]. eexists. split; [reflexivity|].
  assert (Hk : forall k, k <> KClock -> no_clock k) by (intros k H; exact H).
  apply only_bind; [apply only_log|]. intros _.
  apply only_bind; [apply only_getPendingTransactions; apply Hk; discriminate|].
  intros pending.
  apply only_bind; [apply only_length_of|]. intros count.
  apply only_bind; [apply only_positive|]. intros some.
  apply only_bind; [|intros _; apply only_log].
  destruct some.
  - apply only_bind; [apply only_interpolate|]. intros _.
    apply only_bind; [apply only_log|]. intros _.
    apply only_mineBlock; apply Hk; discriminate.
  - apply only_bind; [apply only_log|]. intros _.
    apply only_bind; [apply only_new_array; apply Hk; discriminate|]. intros fresh.
    apply only_mineBlock; apply Hk; discriminate.
Qed.

(** A program that does not read the clock runs the same whatever the clock
    shows. *)
Lemma run_clock_blind {A : Type} (net : Network) (p : Prog A) :
  only no_clock p ->
  forall w1 w2, same_but_clock w1 w2 ->
    fst (run net p w1) = fst (run net p w2) /\
    same_but_clock (snd (run net p w1)) (snd (run net p w2)).
Proof.
  unfold same_but_clock.
  induction 1 as [a|e| |l m k _ IH|k Hok _ _|url k _ _ IH|url body k _ _ IH|ms k _ _ IH
                  |items k _ _ IH|a k _ IH|a item k _ _ IH];
    intros w1 w2 (Hh & Hn & Hr & Ht); cbn [run]; auto.
  - apply IH. cbn. repeat split; congruence.
  - now destruct Hok.
  - rewrite Hr. destruct (on_get net (requests w2) url) as [latency r].
    apply IH. cbn. repeat split; congruence.
  - rewrite Hr. destruct (on_post net (requests w2) url body) as [latency r].
    apply IH. cbn. repeat split; congruence.
  - apply IH. cbn. repeat split; congruence.
  - cbn [alloc]. rewrite Hn. apply IH. cbn. repeat split; congruence.
  - unfold contents. rewrite Hh. apply IH. auto.
  - apply IH. unfold append_to, contents. cbn. repeat split; congruence.
Qed.

(** ** Determinism of the header *)

(** C3. The header is a function of the miner address, the transaction list
    and the difficulty: two settings that agree on address and difficulty
    serialize any list to the same bytes; the coordinator, called in any two
    worlds (whatever their clocks, traces and services) on an array with the
    same contents, ends in the same way, with the same nonce and hash; and a
    whole round of [startMining] runs the same whatever the clock shows when
    it is read, so no timestamp reaches the header. *)
Theorem header_is_deterministic (net : Network) (fuel : nat) (cfg : Config) :
  (forall cfg' transactions,
     minerAddress cfg' = minerAddress cfg -> difficulty cfg' = difficulty cfg ->
     blockHeader cfg' transactions = blockHeader cfg transactions) /\
  (forall net' a w1 w2,
     contents a w1 = contents a w2 ->
     fst (run net (mineProofOfWorkParallel fuel cfg (VArr a)) w1) =
     fst (run net' (mineProofOfWorkParallel fuel cfg (VArr a)) w2)) /\
  (forall w1 w2,
     same_but_clock w1 w2 ->
     fst (run net (startMining fuel cfg) w1) = fst (run net (startMining fuel cfg) w2) /\
     same_but_clock (snd (run net (startMining fuel cfg) w1))
                    (snd (run net (startMining fuel cfg) w2))).
Proof.
  split; [|split].
  - intros cfg' transactions Ha Hd. unfold blockHeader. now rewrite Ha, Hd.
  - intros net' a w1 w2 Hc. rewrite !run_coordinator. cbn [json_in]. rewrite Hc.
    destruct (call_workers _ _ _ _) as [[results left]|]; [|reflexivity].
    now destruct (List.head results).
  - intros w1 w2 Hw.
    destruct (startMining_reads_clock_once fuel cfg) as (body & -> & Hbody).
    cbn [run]. now apply run_clock_blind.
Qed.

(** Two rounds that start at different times leave the same trace. *)
Lemma header_is_deterministic_witness :
  trace (snd (run service_down (startMining 100 example_config) initial_world)) =
  trace (snd (run service_down (startMining 100 example_config)
                  (set_clock 1762160400000 initial_world))).
Proof.
  refine (proj2 (proj2 (proj2 (proj2
            (proj2 (proj2 (header_is_deterministic service_down 100 example_config))
               initial_world (set_clock 1762160400000 initial_world) _))))).
  repeat split.
Defined.

(** ** The periodic trigger *)

(** Before its first [await], [startMining] reads the clock, logs twice and
    sends the request for the pending transactions; it is resumed when the
    answer is there. *)
Lemma advance_startMining (net : Network) (fuel : nat) (cfg : Config) (w : World) :
  exists task w',
    advance net (startMining fuel cfg) w = (Awaiting task, w') /\
    trace w' = (trace w ++ [EvLog info StartingMining; EvLog info Fetching;
                            EvGet PENDING_URL])%list /\
    requests w' = S (requests w) /\
    heap w' = heap w /\
    wake task = (clock w + fst (on_get net (requests w) PENDING_URL))%N.
Proof.
  unfold startMining, now, getPendingTransactions.
  cbn [bind try_catch log axios_get advance].
  change (requests (emit (EvLog info Fetching) (emit (EvLog info StartingMining) w)))
    with (requests w).
  destruct (on_get net (requests w) PENDING_URL) as [latency r].
  eexists _, _. split; [reflexivity|].
  cbn [count_request emit trace requests heap wake fst clock].
  rewrite <- !app_assoc. repeat split.
Qed.

Lemma earliest_wake (ts : list Task) (t : Task) (others : list Task) :
  earliest ts = Some (t, others) -> In (wake t) (map wake ts).
Proof.
  revert t others; induction ts as [|x ts IH]; intros t others; cbn [earliest]; [discriminate|].
  destruct (earliest ts) as [[t' rest']|].
  - destruct (wake x <=? wake t')%N; intros [= <- _]; [now left|].
    right. now apply (IH t' rest').
  - intros [= <- _]. now left.
Qed.

Lemma event_loop_last (n : nat) (net : Network) (fuel : nat) (cfg : Config) (s : Process) :
  event_loop (S n) net fuel cfg s = turn net fuel cfg (event_loop n net fuel cfg s).
Proof.
  revert s; induction n as [|n IH]; intros s; [reflexivity|].
  change (event_loop (S (S n)) net fuel cfg s)
    with (event_loop (S n) net fuel cfg (turn net fuel cfg s)).
  now rewrite IH.
Qed.

(** C7, as amended. While the process runs, the periodic trigger starts a
    round each time it fires, however many earlier rounds are unfinished. The
    round is neither skipped nor queued: at the tick itself it logs its first
    two lines and sends its request for the pending transactions. The earlier
    rounds stay as they are, waiting for a request or a timer, and the new
    round waits beside them for its answer; the trigger is armed again
    10000 ms later. *)
Theorem tick_always_starts_a_round (net : Network) (fuel : nat) (cfg : Config) (s : Process) :
  halted s = false ->
  (forall t others, earliest (waiting s) = Some (t, others) -> (next_tick s < wake t)%N) ->
  exists task,
    waiting (turn net fuel cfg s) = (waiting s ++ [task])%list /\
    List.length (waiting (turn net fuel cfg s)) = S (List.length (waiting s)) /\
    trace (world (turn net fuel cfg s)) =
      (trace (world s) ++ [EvLog info StartingMining; EvLog info Fetching;
                           EvGet PENDING_URL])%list /\
    requests (world (turn net fuel cfg s)) = S (requests (world s)) /\
    heap (world (turn net fuel cfg s)) = heap (world s) /\
    wake task = (N.max (clock (world s)) (next_tick s)
                 + fst (on_get net (requests (world s)) PENDING_URL))%N /\
    next_tick (turn net fuel cfg s) = (next_tick s + 10000)%N /\
    halted (turn net fuel cfg s) = false.
Proof.
  intros Hrun Hdue.
  assert (Hturn : turn net fuel cfg s = fire_tick net fuel cfg s).
  { unfold turn. rewrite Hrun.
    destruct (earliest (waiting s)) as [[t others]|] eqn:E; [|reflexivity].
    specialize (Hdue t others eq_refl). apply N.leb_gt in Hdue. now rewrite Hdue. }
  rewrite Hturn. unfold fire_tick, dispatch.
  destruct (advance_startMining net fuel cfg (set_clock (next_tick s) (world s)))
    as (task & w' & -> & Htrace & Hrequests & Hheap & Hwake).
  exists task. cbn [waiting next_tick halted world]. rewrite length_app. cbn [List.length].
  repeat split; auto. lia.
Qed.

(** A round that sleeps between two retries is joined by the next round,
    which sends its own request at once. *)
Lemma tick_always_starts_a_round_witness :
  List.length (waiting (event_loop 4 service_down 100 example_config started)) = 1%nat /\
  List.length (waiting (event_loop 5 service_down 100 example_config started)) = 2%nat /\
  trace (world (event_loop 5 service_down 100 example_config started)) =
    (trace (world (event_loop 4 service_down 100 example_config started))
       ++ [EvLog info StartingMining; EvLog info Fetching; EvGet PENDING_URL])%list.
Proof.
  assert (H1 : List.length (waiting (event_loop 4 service_down 100 example_config started))
               = 1%nat) by (vm_compute; reflexivity).
  split; [exact H1|].
  destruct (tick_always_starts_a_round service_down 100 example_config
              (event_loop 4 service_down 100 example_config started))
    as (task & _ & Hlen & Htrace & _).
  - vm_compute. reflexivity.
  - intros t others E. apply earliest_wake in E.
    assert (Hw : map wake (waiting (event_loop 4 service_down 100 example_config started))
                 = [22000%N]) by (vm_compute; reflexivity).
    assert (Hn : next_tick (event_loop 4 service_down 100 example_config started) = 20000%N)
      by (vm_compute; reflexivity).
    rewrite Hw in E. rewrite Hn. destruct E as [<-|[]]. reflexivity.
  - split.
    + exact (eq_trans (f_equal (fun s => List.length (waiting s))
                         (event_loop_last 4 service_down 100 example_config started))
                      (eq_trans Hlen (f_equal S H1))).
    + exact (eq_trans (f_equal (fun s => trace (world s))
                         (event_loop_last 4 service_down 100 example_config started))
                      Htrace).
Defined.

(** C7 as stated fails. The service is down; the first round (started at
    10000 ms) fails its submission and its first retry and sleeps until
    22000 ms; the trigger fires at 20000 ms and starts a second round beside
    it. *)
Lemma rounds_overlap_during_retry :
  ~ (forall turns,
       rounds_do_not_overlap (event_loop turns service_down 100 example_config started)).
Proof.
  assert (H5 : List.length (waiting (event_loop 5 service_down 100 example_config started))
               = 2%nat) by (vm_compute; reflexivity).
  intros H. specialize (H 5%nat). unfold rounds_do_not_overlap in H.
  rewrite H5 in H. lia.
Qed.

(** The two rounds then take turns: the second round runs up to its own
    sleep while the first one sleeps, and the second retry of the first
    round comes after that. *)
Example rounds_interleave :
  skipn 17 (trace (world (event_loop 9 service_down 100 example_config started))) =
  [ EvLog info StartingMining; EvLog info Fetching; EvGet PENDING_URL;
    EvLog error FetchError; EvLog info NoPending; EvLog info Requesting;
    EvLog info AddingReward; EvLog info StartingPoW;
    EvLog info (MinedWith 19 "013068e86c3813e2d7cc186066aaca6cf15685ee40b9f6429d46668c5beff14e");
    EvPost API_URL_MINE
      (block_body example_config (JArr [reward_transaction example_config]) 19
         "013068e86c3813e2d7cc186066aaca6cf15685ee40b9f6429d46668c5beff14e");
    EvLog error MineError; EvLog info RetryingMining; EvLog info (RetryAttempt 1);
    EvPost API_URL_MINE (retry_body example_config);
    EvLog error (AttemptFailed 1); EvLog info (RetryingIn 12000); EvSleep 12000;
    EvLog info (RetryAttempt 2); EvPost API_URL_MINE (retry_body example_config) ].
Proof. vm_compute. reflexivity. Qed.
(** ** More on the workers and the coordinator *)

Lemma indices_head (n index : N) (rest : list N) :
  indices n = index :: rest -> index = 0%N.
Proof.
  unfold indices. destruct (N.to_nat n); cbn [seq map]; [discriminate|].
  now intros [= <- _].
Qed.

Lemma indices_bound (n : N) : Forall (fun index => (index < n)%N) (indices n).
Proof.
  unfold indices. apply List.Forall_forall. intros index Hin.
  apply in_map_iff in Hin. destruct Hin as (i & <- & Hi).
  apply in_seq in Hi. lia.
Qed.

(** The first result of [call_workers] is that of the first worker called. *)
Lemma call_workers_first (fuel left : nat) (header goal : string) (threadIndexes : list N)
    (r : MiningResult) (rs : list MiningResult) :
  call_workers fuel header goal threadIndexes = Some (r :: rs, left) ->
  exists index rest fuel1,
    threadIndexes = index :: rest /\
    mineSingleTask fuel header goal index = Some (r, fuel1).
Proof.
  destruct threadIndexes as [|index rest]; cbn [call_workers]; [discriminate|].
  destruct (mineSingleTask fuel header goal index) as [[r1 fuel1]|] eqn:E; [|discriminate].
  destruct (call_workers fuel1 header goal rest) as [[rs1 fuel2]|]; [|discriminate].
  intros [= -> _ _]. exists index, rest, fuel1. auto.
Qed.



(** The block that the coordinator returns carries the smallest positive
    nonce whose digest meets the target, with the digest of the header and
    that nonce; the searches of the other workers never change it. *)
Theorem coordinator_returns_least_nonce (net : Network) (fuel : nat) (cfg : Config)
    (transactions : Value) (w : World) (b : MinedBlock) :
  let header := blockHeader cfg (json_in transactions w) in
  let target := zeros (N.to_nat (difficulty cfg)) in
  fst (run net (mineProofOfWorkParallel fuel cfg transactions) w) = Returned b ->
  block_transactions b = transactions /\
  block_hash b = SHA256.sha256_hex (header ++ N_to_dec (block_nonce b)) /\
  leading_zeros (N.to_nat (difficulty cfg)) (block_hash b) /\
  (0 < block_nonce b)%N /\
  (forall m, (0 < m < block_nonce b)%N -> ~ qualifies header target m).
Proof.
  intros header target. rewrite run_coordinator. fold header target.
  destruct (call_workers fuel header target (indices (parallelThreads cfg)))
    as [[[|r rs] left]|] eqn:E; cbn [List.head fst]; try discriminate.
  intros [= <-]. cbn [block_transactions block_hash block_nonce].
  destruct (call_workers_first _ _ _ _ _ _ _ E) as (index & rest & fuel1 & Hidx & Hr).
  apply indices_head in Hidx. subst index.
  destruct (mine_loop_sound _ _ _ _ _ _ Hr) as [Hh Hq].
  destruct (mine_loop_least _ _ _ _ _ _ (start_nonce_safe 0 ltac:(reflexivity)) Hr)
    as [Hpos Hleast].
  change (start_nonce 0) with 0%N in *.
  repeat split; try lia; auto.
  apply prefix_zeros_leading. unfold qualifies, target in Hq.
  rewrite length_zeros in Hq. now rewrite Hh.
Qed.

Lemma coordinator_returns_least_nonce_witness :
  leading_zeros 1 "013068e86c3813e2d7cc186066aaca6cf15685ee40b9f6429d46668c5beff14e" /\
  ~ qualifies example_header "0" 18.
Proof.
  destruct (coordinator_returns_least_nonce service_down 38 example_config (VArr 0)
       example_world
       {| block_transactions := VArr 0;
          block_nonce := 19;
          block_hash := "013068e86c3813e2d7cc186066aaca6cf15685ee40b9f6429d46668c5beff14e" |}
       ltac:(vm_compute; reflexivity)) as (_ & _ & Hzeros & _ & Hleast).
  split; [exact Hzeros|]. apply Hleast. split; reflexivity.
Defined.

(** The error of the coordinator is raised exactly when there is no worker
    at all: with at least one worker a call either returns a block or is
    still searching. *)
Theorem coordinator_throws_only_without_workers (net : Network) (fuel : nat) (cfg : Config)
    (transactions : Value) (w : World) :
  (parallelThreads cfg = 0%N ->
   fst (run net (mineProofOfWorkParallel fuel cfg transactions) w) = Threw mining_failed) /\
  (forall e, fst (run net (mineProofOfWorkParallel fuel cfg transactions) w) = Threw e ->
             parallelThreads cfg = 0%N /\ e = mining_failed).
Proof.
  rewrite run_coordinator. split.
  - intros ->. reflexivity.
  - intros e.
    destruct (call_workers _ _ _ _) as [[[|r rs] left]|] eqn:E; cbn [List.head fst];
      try discriminate.
    intros [= <-]. split; [|reflexivity].
    destruct (call_workers_results _ _ _ _ _ _ E) as [Hlen _].
    rewrite length_indices in Hlen. cbn in Hlen. lia.
Qed.

Lemma coordinator_throws_only_without_workers_witness :
  fst (run service_down
         (mineProofOfWorkParallel 0
            {| minerAddress := "abc123"; difficulty := 4; parallelThreads := 0 |} (VArr 0))
         example_world) = Threw mining_failed.
Proof.
  apply (coordinator_throws_only_without_workers service_down 0
           {| minerAddress := "abc123"; difficulty := 4; parallelThreads := 0 |} (VArr 0)
           example_world).
  reflexivity.
Defined.

(** With an empty target every digest qualifies: each worker stops at its
    first trial. *)
Lemma call_workers_empty_target (fuel : nat) (header : string) (threadIndexes : list N) :
  Forall (fun index => (index < 2 ^ 32)%N) threadIndexes ->
  (List.length threadIndexes <= fuel)%nat ->
  call_workers fuel header EmptyString threadIndexes =
  Some (map (fun index =>
               {| nonce := (start_nonce index + 1)%N;
                  hash := SHA256.sha256_hex (header ++ N_to_dec (start_nonce index + 1)) |})
            threadIndexes,
        (fuel - List.length threadIndexes)%nat).
Proof.
  intros Hall. revert fuel; induction Hall as [|index rest Hidx _ IH]; intros fuel Hfuel;
    cbn [call_workers map List.length].
  - now rewrite Nat.sub_0_r.
  - destruct fuel as [|fuel]; [cbn in Hfuel; lia|].
    unfold mineSingleTask. cbn [mine_loop String.length substring].
    rewrite (js_incr_below _ (start_nonce_safe _ Hidx)).
    replace (substring 0 0 (SHA256.sha256_hex (header ++ N_to_dec (start_nonce index + 1))))
      with EmptyString by (now destruct (SHA256.sha256_hex _)).
    cbn [String.eqb]. rewrite IH by (cbn in Hfuel; lia). reflexivity.
Qed.

(** At difficulty 0 the coordinator needs one hash trial per worker and
    returns nonce 1. *)
Theorem difficulty_zero_first_nonce (net : Network) (fuel : nat) (cfg : Config)
    (transactions : Value) (w : World) :
  difficulty cfg = 0%N ->
  (0 < parallelThreads cfg < 2 ^ 32)%N ->
  (N.to_nat (parallelThreads cfg) <= fuel)%nat ->
  fst (run net (mineProofOfWorkParallel fuel cfg transactions) w) =
    Returned {| block_transactions := transactions;
                block_nonce := 1;
                block_hash :=
                  SHA256.sha256_hex (blockHeader cfg (json_in transactions w) ++ "1") |}.
Proof.
  intros Hd Hn Hfuel. rewrite run_coordinator, Hd. cbn [N.to_nat zeros].
  rewrite call_workers_empty_target.
  - destruct (indices (parallelThreads cfg)) as [|index rest] eqn:E.
    + apply (f_equal (@List.length N)) in E. rewrite length_indices in E. cbn in E. lia.
    + apply indices_head in E as Hidx. subst index. reflexivity.
  - eapply List.Forall_impl; [|apply indices_bound]. cbn. intros index Hi. lia.
  - now rewrite length_indices.
Qed.

Lemma difficulty_zero_first_nonce_witness :
  fst (run service_down
         (mineProofOfWorkParallel 4
            {| minerAddress := "abc123"; difficulty := 0; parallelThreads := 4 |} (VArr 0))
         example_world) =
  Returned {| block_transactions := VArr 0;
              block_nonce := 1;
              block_hash :=
                SHA256.sha256_hex
                  (blockHeader {| minerAddress := "abc123"; difficulty := 0;
                                  parallelThreads := 4 |}
                               (JArr (contents 0 example_world)) ++ "1") |}.
Proof.
  apply (difficulty_zero_first_nonce service_down 4
           {| minerAddress := "abc123"; difficulty := 0; parallelThreads := 4 |} (VArr 0)
           example_world).
  - reflexivity.
  - split; reflexivity.
  - cbn. lia.
Defined.

(** ** The hashed text: where the header ends and the nonce starts *)

Lemma list_ascii_app (s t : string) :
  list_ascii_of_string (s ++ t) = (list_ascii_of_string s ++ list_ascii_of_string t)%list.
Proof.
  induction s as [|c s IH]; simpl; [reflexivity|].
  now rewrite IH.
Qed.

Lemma list_ascii_inj (s t : string) :
  list_ascii_of_string s = list_ascii_of_string t -> s = t.
Proof.
  intros H. rewrite <- (string_of_list_ascii_of_string s), H.
  apply string_of_list_ascii_of_string.
Qed.

(** A decimal numeral holds digits only. *)
Lemma string_of_uint_no_brace (d : Decimal.uint) :
  ~ In closing_brace (list_ascii_of_string (NilEmpty.string_of_uint d)).
Proof.
  induction d; cbn [NilEmpty.string_of_uint list_ascii_of_string In];
    first [ tauto | intros [H|H]; [discriminate H | exact (IHd H)] ].
Qed.

Lemma N_to_dec_inj (n m : N) : N_to_dec n = N_to_dec m -> n = m.
Proof.
  unfold N_to_dec. intros H.
  apply (f_equal NilEmpty.uint_of_string) in H. rewrite !NilEmpty.usu in H.
  injection H as H. apply (f_equal N.of_uint) in H.
  now rewrite !DecimalN.Unsigned.of_to in H.
Qed.

(** The text after the last occurrence of a character is determined. *)
Lemma split_at_last {X : Type} (x : X) (p1 p2 q1 q2 : list X) :
  ~ In x q1 -> ~ In x q2 ->
  (p1 ++ x :: q1 = p2 ++ x :: q2)%list -> p1 = p2 /\ q1 = q2.
Proof.
  intros H1 H2. revert p2; induction p1 as [|y p1 IH]; intros [|z p2]; cbn [app].
  - now intros [= ->].
  - intros [= <- ->]. exfalso. apply H1. apply in_or_app. right. now left.
  - intros [= -> <-]. exfalso. apply H2. apply in_or_app. right. now left.
  - intros [= -> H]. destruct (IH _ H) as [-> ->]. auto.
Qed.

(** A header is an object literal: it ends with a closing brace. *)
Lemma blockHeader_ends_with_brace (cfg : Config) (transactions : JValue) :
  exists body, blockHeader cfg transactions = body ++ String closing_brace EmptyString.
Proof.
  unfold blockHeader. cbn [stringify].
  eexists (String "{" _). simpl. f_equal.
Qed.

(** The text that is hashed determines the header and the nonce it was made
    of: no header followed by a nonce reads as another header followed by
    another nonce. *)
Theorem header_and_nonce_do_not_run_together (cfg1 cfg2 : Config)
    (transactions1 transactions2 : JValue) (n1 n2 : N) :
  blockHeader cfg1 transactions1 ++ N_to_dec n1 = blockHeader cfg2 transactions2 ++ N_to_dec n2 ->
  blockHeader cfg1 transactions1 = blockHeader cfg2 transactions2 /\ n1 = n2.
Proof.
  destruct (blockHeader_ends_with_brace cfg1 transactions1) as [b1 ->].
  destruct (blockHeader_ends_with_brace cfg2 transactions2) as [b2 ->].
  intros H. apply (f_equal list_ascii_of_string) in H.
  rewrite !list_ascii_app in H. cbn [list_ascii_of_string] in H.
  rewrite <- !app_assoc in H. cbn [app] in H.
  apply split_at_last in H; try apply string_of_uint_no_brace.
  destruct H as [Hb Hn]. apply list_ascii_inj in Hb. apply list_ascii_inj in Hn.
  split; [now rewrite Hb | now apply N_to_dec_inj].
Qed.

Lemma header_and_nonce_do_not_run_together_witness :
  blockHeader example_config (JArr [JStr "tx1"]) =
  blockHeader {| minerAddress := "abc123"; difficulty := 1; parallelThreads := 8 |}
              (JArr [JStr "tx1"]) /\ 7%N = 7%N.
Proof.
  apply (header_and_nonce_do_not_run_together example_config
           {| minerAddress := "abc123"; difficulty := 1; parallelThreads := 8 |}
           (JArr [JStr "tx1"]) (JArr [JStr "tx1"]) 7 7).
  reflexivity.
Defined.

(** ** Fetching the pending transactions *)

Lemma contents_alloc_new (items : list JValue) (w : World) :
  contents (next_loc w) (snd (alloc items w)) = items.
Proof. unfold contents, alloc. cbn [snd heap]. now rewrite lookup_insert_eq. Qed.

Lemma contents_alloc_other (items : list JValue) (a : loc) (w : World) :
  a <> next_loc w -> contents a (snd (alloc items w)) = contents a w.
Proof.
  intros Hne. unfold contents, alloc. cbn [snd heap].
  now rewrite lookup_insert_ne by congruence.
Qed.

Section Fetch.

Variable net : Network.

(** A parsed value becomes the value of a variable: an array is allocated,
    anything else is kept as it is. *)
Lemma run_value_of (j : JValue) (w : World) :
  exists v w',
    run net (value_of j) w = (Returned v, w') /\
    json_in v w' = j /\
    trace w' = trace w /\ requests w' = requests w /\ clock w' = clock w /\
    (forall a, a <> next_loc w -> contents a w' = contents a w) /\
    ((v = VArr (next_loc w) /\ next_loc w' = S (next_loc w)) \/
     ((forall a, v <> VArr a) /\ w' = w)).
Proof.
  destruct j as [ |b|n|s|items|fields]; cbn [value_of new_array bind run];
    try (eexists _, w; split; [reflexivity|];
         split; [reflexivity|]; split; [reflexivity|]; split; [reflexivity|];
         split; [reflexivity|]; split; [reflexivity|];
         right; split; [intros a; discriminate|reflexivity]).
  exists (VArr (next_loc w)), (snd (alloc items w)).
  split; [reflexivity|]. cbn [json_in]. rewrite contents_alloc_new.
  repeat split; auto.
  intros a Ha. now apply contents_alloc_other.
Qed.

Lemma run_try_value_of (j : JValue) (handler : Error -> Prog Value) (w : World) :
  run net (try_catch (value_of j) handler) w = run net (value_of j) w.
Proof. destruct j; reflexivity. Qed.

(** [getPendingTransactions], step by step: the request, one log line that
    depends on the answer, and the value that is returned. *)
Lemma run_getPendingTransactions (w : World) :
  let answer := on_get net (requests w) PENDING_URL in
  exists l m,
    run net getPendingTransactions w =
    run net (value_of (default (JArr []) (returned_field (snd answer))))
        (emit (EvLog l m)
           (elapse (fst answer)
              (count_request (emit (EvGet PENDING_URL) (emit (EvLog info Fetching) w))))).
Proof.
  unfold getPendingTransactions.
  cbn [bind try_catch log axios_get run].
  change (requests (emit (EvLog info Fetching) w)) with (requests w).
  destruct (on_get net (requests w) PENDING_URL) as [latency [data|response]];
    cbn [fst snd returned_field default bind try_catch].
  - destruct (pending_field data) as [pending|].
    + unfold interpolate.
      destruct (length_field pending) as [count|].
      * destruct (printable count).
        -- exists info, (FoundPending (Some count)).
           cbn [bind try_catch log run default]. apply run_try_value_of.
        -- exists error, FetchError. reflexivity.
      * exists info, (FoundPending None).
        cbn [bind try_catch log run default]. apply run_try_value_of.
    + exists error, NoPendingInResponse. reflexivity.
  - exists error, FetchError. reflexivity.
Qed.

End Fetch.

(** [getPendingTransactions] never throws. It sends one GET and no POST. It
    returns the field [pendingTransactions] of the answer as it is when that
    field is truthy: an array as an array object of its own, a string, a
    number, [true] or an object unchanged. It returns a new empty array when
    the request fails, when the answer has no truthy field, and when the
    [length] of the field cannot be formatted for the log. The arrays that
    exist already are left alone. *)
Theorem getPendingTransactions_always_returns (net : Network) (w : World) :
  let answer := snd (on_get net (requests w) PENDING_URL) in
  let out := run net getPendingTransactions w in
  (exists v,
     fst out = Returned v /\
     json_in v (snd out) = default (JArr []) (returned_field answer) /\
     ((v = VArr (next_loc w) /\ next_loc (snd out) = S (next_loc w)) \/
      ((forall a, v <> VArr a) /\ next_loc (snd out) = next_loc w /\
       heap (snd out) = heap w))) /\
  (forall a, a <> next_loc w -> contents a (snd out) = contents a w) /\
  requests (snd out) = S (requests w) /\
  gets (new_events net getPendingTransactions w) = [PENDING_URL] /\
  posts (new_events net getPendingTransactions w) = [].
Proof.
  intros answer out.
  destruct (run_getPendingTransactions net w) as (l & m & Hout).
  cbv zeta in Hout. fold answer out in Hout.
  set (w1 := emit (EvLog l m)
               (elapse (fst (on_get net (requests w) PENDING_URL))
                  (count_request (emit (EvGet PENDING_URL) (emit (EvLog info Fetching) w)))))
    in Hout.
  destruct (run_value_of net (default (JArr []) (returned_field answer)) w1)
    as (v & w' & Hrun & Hjson & Htrace & Hreq & _ & Hframe & Hcases).
  rewrite Hrun in Hout. rewrite Hout. cbn [fst snd].
  split; [|split; [|split; [|split]]].
  - exists v. split; [reflexivity|]. split; [exact Hjson|].
    destruct Hcases as [[-> Hnext]|[Hplain ->]]; [left|right]; auto.
  - intros a Ha. now apply Hframe.
  - now rewrite Hreq.
  - rewrite (new_events_intro _ _ _ [EvLog info Fetching; EvGet PENDING_URL; EvLog l m]);
      [reflexivity|].
    fold out. rewrite Hout. cbn [snd]. rewrite Htrace. unfold w1.
    cbn [emit elapse count_request trace]. now rewrite <- !app_assoc.
  - rewrite (new_events_intro _ _ _ [EvLog info Fetching; EvGet PENDING_URL; EvLog l m]);
      [reflexivity|].
    fold out. rewrite Hout. cbn [snd]. rewrite Htrace. unfold w1.
    cbn [emit elapse count_request trace]. now rewrite <- !app_assoc.
Qed.

(** The service sends one transfer; it is down; it sends a text where the
    list should be. *)
Lemma getPendingTransactions_always_returns_witness :
  (exists v, fst (run service_up getPendingTransactions initial_world) = Returned v /\
     json_in v (snd (run service_up getPendingTransactions initial_world))
       = JArr [example_transfer]) /\
  (exists v, fst (run service_down getPendingTransactions initial_world) = Returned v /\
     json_in v (snd (run service_down getPendingTransactions initial_world)) = JArr []) /\
  (exists v,
     fst (run {| on_get := fun _ _ =>
                   (0%N, GetOk (JObj [("pendingTransactions", JStr "none")]));
                 on_post := on_post service_down |}
              getPendingTransactions initial_world) = Returned v /\
     json_in v initial_world = JStr "none").
Proof.
  split; [|split].
  - destruct (proj1 (getPendingTransactions_always_returns service_up initial_world))
      as (v & Hv & Hjson & _). exists v. split; [exact Hv|exact Hjson].
  - destruct (proj1 (getPendingTransactions_always_returns service_down initial_world))
      as (v & Hv & Hjson & _). exists v. split; [exact Hv|exact Hjson].
  - destruct (proj1 (getPendingTransactions_always_returns
                       {| on_get := fun _ _ =>
                            (0%N, GetOk (JObj [("pendingTransactions", JStr "none")]));
                          on_post := on_post service_down |} initial_world))
      as (v & Hv & Hjson & _). exists v. split; [exact Hv|].
    cbn in Hjson. destruct v; cbn [json_in] in *; try discriminate. exact Hjson.
Defined.

(** ** What [mineBlock] submits, for any argument *)

Section AnyArgument.

Variables (net : Network) (fuel : nat) (cfg : Config).

Lemma run_length_of (v : Value) (w : World) :
  run net (length_of v) w =
  match json_in v w with
  | JNull => (Threw TypeError, w)
  | current => (Returned (length_field current), w)
  end.
Proof.
  unfold length_of. rewrite run_bind, run_json_of. now destruct (json_in v w).
Qed.

(** On anything but an array the reward step changes nothing: it passes, or
    it throws a [TypeError] (a read on [null], or a [push] on what has no
    such method). *)
Lemma run_reward_step_plain (v : Value) (w : World) :
  (forall a, v <> VArr a) ->
  run net (reward_step cfg v) w = (Returned tt, w) \/
  run net (reward_step cfg v) w = (Threw TypeError, w).
Proof.
  intros Hplain. unfold reward_step. rewrite run_bind, run_length_of.
  destruct v as [a| |b|n|s|fields]; cbn [json_in length_field is_zero];
    try (now left); try (now right).
  - now destruct (Hplain a).
  - destruct (Z.of_nat (utf16_length s) =? 0)%Z; [now right|now left].
  - destruct (is_zero (own_field "length" fields)); [now right|now left].
Qed.

Lemma submitted_plain (v : Value) (w : World) :
  (forall a, v <> VArr a) -> submitted cfg v w = json_in v w.
Proof. intros Hplain. destruct v; try reflexivity. now destruct (Hplain a). Qed.

Lemma json_in_plain (v : Value) (w1 w2 : World) :
  (forall a, v <> VArr a) -> json_in v w1 = json_in v w2.
Proof. intros Hplain. destruct v; try reflexivity. now destruct (Hplain a). Qed.

(** The requests of a call of [mineBlock] on what is not an array. *)
Lemma mineBlock_posts_plain (v : Value) (w : World) :
  (forall a, v <> VArr a) ->
  let transactions := json_in v w in
  let target := zeros (N.to_nat (difficulty cfg)) in
  let w' := snd (run net (mineBlock fuel cfg v) w) in
  ((forall a, v <> VArr a) -> heap w' = heap w) /\
  exists new first k,
    trace w' = (trace w ++ new)%list /\
    posts new = (first ++ repeat (API_URL_MINE, retry_body cfg) k)%list /\
    (k <= 3)%nat /\
    (first = [] \/
     exists r rs spare,
       call_workers fuel (blockHeader cfg transactions) target (indices (parallelThreads cfg))
         = Some (r :: rs, spare) /\
       first = [(API_URL_MINE, block_body cfg transactions (nonce r) (hash r))]).
Proof.
  intros Hplain transactions target w'.
  assert (Htx : transactions = json_in v w) by reflexivity.
  unfold w'; rewrite run_mineBlock_any;
    set (w0 := emit (EvLog info Requesting) w);
    assert (Hfail : forall w1 : World,
      heap w1 = heap w ->
      (exists mid, trace w1 = (trace w ++ mid)%list /\ posts mid = []) ->
      ((forall a, v <> VArr a) -> heap (snd (run net (on_mining_error cfg) w1)) = heap w) /\
      exists new first k,
        trace (snd (run net (on_mining_error cfg) w1)) = (trace w ++ new)%list /\
        posts new = (first ++ repeat (API_URL_MINE, retry_body cfg) k)%list /\
        (k <= 3)%nat /\
        (first = [] \/
         exists r rs spare,
           call_workers fuel (blockHeader cfg transactions) target
                        (indices (parallelThreads cfg)) = Some (r :: rs, spare) /\
           first = [(API_URL_MINE, block_body cfg transactions (nonce r) (hash r))]))
      by (intros w1 Hh (mid & Hmid & Hpmid);
          destruct (on_mining_error_any net cfg w1) as (new & Htr & Hall & Hlen & Hheap & _);
          split; [intros _; now rewrite Hheap|];
          exists (mid ++ new)%list, [], (List.length (posts new));
          rewrite Htr, Hmid, <- app_assoc; split; [reflexivity|];
          rewrite posts_app, Hpmid; cbn [app];
          split; [apply (Forall_eq_repeat _ _ Hall)|]; split; [exact Hlen|now left]);
    destruct (run_reward_step_plain v w0 Hplain) as [-> | ->].
  2: try (rewrite caught_TypeError; apply Hfail;
            [reflexivity | exists [EvLog info Requesting]; split; reflexivity]).
  all: rewrite run_coordinator, (json_in_plain v w0 w Hplain), <- Htx; fold target;
    destruct (call_workers fuel (blockHeader cfg transactions) target
                           (indices (parallelThreads cfg)))
      as [[[|r rs] spare]|] eqn:Ew; cbn [List.head].
  all: try (rewrite caught_mining_failed; apply Hfail;
            [reflexivity
            | exists [EvLog info Requesting; EvLog info StartingPoW]; split;
              [unfold w0; cbn [emit trace]; now rewrite <- app_assoc | reflexivity]]).
  all: try (split; [reflexivity|];
            exists [EvLog info Requesting; EvLog info StartingPoW], [], 0%nat;
            unfold w0; cbn [snd emit trace]; rewrite <- app_assoc;
            repeat split; auto).
  all: cbn [block_transactions block_nonce block_hash];
    set (w2 := emit (EvLog info (MinedWith (nonce r) (hash r)))
                 (emit (EvLog info StartingPoW) w0));
    rewrite (json_in_plain v w2 w Hplain), <- Htx;
    set (body := block_body cfg transactions (nonce r) (hash r));
    cbv zeta;
    set (answer := on_post net (requests w2) API_URL_MINE body);
    set (w3 := after_post API_URL_MINE body (fst answer) w2);
    assert (Htr3 : trace w3 =
      (trace w ++ [EvLog info Requesting; EvLog info StartingPoW;
                   EvLog info (MinedWith (nonce r) (hash r)); EvPost API_URL_MINE body])%list)
      by (unfold w3, after_post, w2, w0; cbn [elapse count_request emit trace];
          now rewrite <- !app_assoc);
    destruct (verdict (snd answer)) as [blockHash| |].
  all: try (split; [reflexivity|];
            eexists _, [(API_URL_MINE, body)], 0%nat;
            cbn [snd emit trace]; rewrite Htr3, <- ?app_assoc;
            split; [reflexivity|]; split; [reflexivity|]; split; [lia|];
            right; exists r, rs, spare; split; reflexivity).
  all: destruct (on_mining_error_any net cfg w3) as (new & Htr & Hall & Hlen & Hheap & _);
    (split; [intros _; now rewrite Hheap|]);
    eexists _, [(API_URL_MINE, body)], (List.length (posts new));
    rewrite Htr, Htr3, <- !app_assoc;
    (split; [reflexivity|]);
    (split; [rewrite posts_app; cbn [app posts flat_map]; f_equal;
             apply (Forall_eq_repeat _ _ Hall)|]);
    (split; [exact Hlen|]);
    right; exists r, rs, spare; split; reflexivity.
Qed.


(** The requests of a call of [mineBlock]: the mined block first, if there
    is one, then at most three retries with the address alone. *)
Lemma mineBlock_posts_any (v : Value) (w : World) :
  let transactions := submitted cfg v w in
  let target := zeros (N.to_nat (difficulty cfg)) in
  let w' := snd (run net (mineBlock fuel cfg v) w) in
  ((forall a, v <> VArr a) -> heap w' = heap w) /\
  exists new first k,
    trace w' = (trace w ++ new)%list /\
    posts new = (first ++ repeat (API_URL_MINE, retry_body cfg) k)%list /\
    (k <= 3)%nat /\
    (first = [] \/
     exists r rs spare,
       call_workers fuel (blockHeader cfg transactions) target (indices (parallelThreads cfg))
         = Some (r :: rs, spare) /\
       first = [(API_URL_MINE, block_body cfg transactions (nonce r) (hash r))]).
Proof.
  intros transactions target w'.
  destruct v as [a| |b|n|s|fields].
  1: { (* an array *)
    destruct (mineBlock_summary net fuel cfg a w)
      as (_ & new & first & k & Htr & Hp & Hk & Hf & _).
    split; [intros Hplain; now destruct (Hplain a)|].
    exists new, first, k. split; [exact Htr|]. split; [exact Hp|]. split; [exact Hk|].
    unfold transactions, submitted, target. cbv zeta in Hf.
    destruct (call_workers fuel (blockHeader cfg (JArr (with_reward cfg (contents a w))))
                (zeros (N.to_nat (difficulty cfg))) (indices (parallelThreads cfg)))
      as [[[|r rs] spare]|];
      [left; exact Hf| |left; exact Hf].
    right. exists r, rs, spare. auto. }
  all: apply mineBlock_posts_plain; intros a; discriminate.
Qed.

(** A request of [mineBlock] with the four fields of a block is the first
    submission, made of the result of worker 0. *)
Lemma mineBlock_block_post (v : Value) (w : World) (url : string) (transactions : JValue)
    (n : N) (h : string) :
  In (url, block_body cfg transactions n h)
     (posts (new_events net (mineBlock fuel cfg v) w)) ->
  url = API_URL_MINE /\
  transactions = submitted cfg v w /\
  exists r rs spare,
    call_workers fuel (blockHeader cfg transactions) (zeros (N.to_nat (difficulty cfg)))
                 (indices (parallelThreads cfg)) = Some (r :: rs, spare) /\
    n = nonce r /\ h = hash r.
Proof.
  destruct (mineBlock_posts_any v w) as (_ & new & first & k & Htr & Hp & _ & Hf).
  rewrite (new_events_intro _ _ _ _ Htr), Hp. intros Hin.
  apply in_app_or in Hin. destruct Hin as [Hin|Hin].
  - destruct Hf as [->|(r & rs & spare & Hw & ->)]; [now destruct Hin|].
    destruct Hin as [Heq|[]]. unfold block_body in Heq.
    injection Heq as <- <- Hn <-. apply N2Z.inj in Hn. subst n.
    repeat split; auto. exists r, rs, spare. auto.
  - apply repeat_spec in Hin. discriminate Hin.
Qed.

End AnyArgument.



(** ** A round, from the fetch to its last line *)

Lemma first_other_verdict (f : nat -> Verdict) (n : nat) :
  (forall i, (i < n)%nat -> f i = Failed) \/
  exists k, (k < n)%nat /\ (forall i, (i < k)%nat -> f i = Failed) /\ f k <> Failed.
Proof.
  induction n as [|n [IH|(k & Hk & Hb & Hn)]].
  - left. intros i Hi. lia.
  - destruct (f n) as [blockHash| |] eqn:E.
    + right. exists n. split; [lia|]. split; [exact IH|]. congruence.
    + left. intros i Hi. destruct (Nat.eq_dec i n) as [->|Hne]; [exact E|]. apply IH. lia.
    + right. exists n. split; [lia|]. split; [exact IH|]. congruence.
  - right. exists k. split; [lia|]. auto.
Qed.

Lemma rejects_never_accepts (net : Network) :
  rejects_every_post net ->
  forall n url body blockHash, verdict (snd (on_post net n url body)) <> Accepted blockHash.
Proof.
  intros Hrej n url body blockHash. destruct (Hrej n url body) as [response ->].
  apply verdict_of_refusal.
Qed.

Section Refused.

Variables (net : Network) (fuel : nat) (cfg : Config).

Hypothesis never_accepted :
  forall n url body blockHash, verdict (snd (on_post net n url body)) <> Accepted blockHash.

(** A retry loop that returns without any success has made its last
    attempt and reported the final failure. *)
Lemma retry_loop_refused (retries delay : N) (n : nat) (attempt : N) (w : World) :
  (attempt + N.of_nat (S n) = retries + 1)%N ->
  fst (run net (retry_loop (S n) cfg retries delay attempt) w) = Returned tt ->
  exists before,
    trace (snd (run net (retry_loop (S n) cfg retries delay attempt) w)) =
    (trace w ++ before ++ [EvLog info AllRetriesFailed])%list.
Proof.
  intros Hn Hret.
  destruct (first_other_verdict (retry_verdict net cfg w) (S n))
    as [Hall|(k & Hk & Hb & Hnot)].
  - destruct (retry_loop_all_fail net cfg retries delay (S n) attempt w Hall Hn) as [_ ->].
    destruct (last_failed_attempt cfg retries delay n attempt Hn) as [before ->].
    now exists before.
  - destruct (on_post net (requests w + k)%nat API_URL_MINE (retry_body cfg))
      as [latency answer] eqn:Hpost.
    assert (Hv : retry_verdict net cfg w k = verdict answer)
      by (unfold retry_verdict; now rewrite Hpost).
    rewrite Hv in Hnot.
    pose proof (retry_loop_until net cfg retries delay k (S n) attempt w latency answer
                  Hk ltac:(lia) Hb Hpost Hnot) as Hu.
    cbv zeta in Hu.
    pose proof (never_accepted (requests w + k)%nat API_URL_MINE (retry_body cfg)) as Hna.
    rewrite Hpost in Hna. cbn [snd] in Hna.
    destruct (verdict answer) as [blockHash| |].
    + now destruct (Hna blockHash).
    + congruence.
    + destruct Hu as [Hthrew _]. rewrite Hthrew in Hret. discriminate.
Qed.

Lemma on_mining_error_refused (w : World) :
  fst (run net (on_mining_error cfg) w) = Returned tt ->
  exists before,
    trace (snd (run net (on_mining_error cfg) w)) =
    (trace w ++ before ++ [EvLog info AllRetriesFailed])%list.
Proof.
  unfold on_mining_error, retryMineBlock. cbn [bind log run default].
  change (N.to_nat 3) with 3%nat. intros Hret.
  destruct (retry_loop_refused 3 12000 2 1
              (emit (EvLog info RetryingMining) (emit (EvLog error MineError) w))
              eq_refl Hret) as [before Hbefore].
  exists (EvLog error MineError :: EvLog info RetryingMining :: before).
  rewrite Hbefore. cbn [emit trace]. now rewrite <- !app_assoc.
Qed.

(** When no submission is accepted, a call of [mineBlock] that returns has
    logged the final failure last. *)
Lemma mineBlock_refused (v : Value) (w : World) :
  fst (run net (mineBlock fuel cfg v) w) = Returned tt ->
  exists before,
    trace (snd (run net (mineBlock fuel cfg v) w)) =
    (trace w ++ before ++ [EvLog info AllRetriesFailed])%list.
Proof.
  rewrite run_mineBlock_any.
  assert (Hend : forall w2 : World,
    (exists mid, trace w2 = (trace w ++ mid)%list) ->
    fst (run net (on_mining_error cfg) w2) = Returned tt ->
    exists before,
      trace (snd (run net (on_mining_error cfg) w2)) =
      (trace w ++ before ++ [EvLog info AllRetriesFailed])%list).
  { intros w2 [mid Hmid] Hret. destruct (on_mining_error_refused w2 Hret) as [before ->].
    exists (mid ++ before)%list. now rewrite Hmid, <- !app_assoc. }
  assert (Hcaught : forall (e : Error) (w2 : World),
    (exists mid, trace w2 = (trace w ++ mid)%list) ->
    fst (run net (caught cfg e) w2) = Returned tt ->
    exists before,
      trace (snd (run net (caught cfg e) w2)) =
      (trace w ++ before ++ [EvLog info AllRetriesFailed])%list).
  { intros e w2 Hmid. unfold caught. rewrite run_bind, run_format_error.
    destruct (reason_of e) as [data|]; [destruct (printable data)|];
      try (intros Hret; discriminate Hret); now apply Hend. }
  destruct (run_trace_grows net (reward_step cfg v) (emit (EvLog info Requesting) w))
    as [new1 Htr1].
  destruct (run net (reward_step cfg v) (emit (EvLog info Requesting) w))
    as [[[]|e|] w1]; cbn [snd emit trace] in Htr1.
  - destruct (run_trace_grows net (mineProofOfWorkParallel fuel cfg v) w1) as [new2 Htr2].
    destruct (run net (mineProofOfWorkParallel fuel cfg v) w1) as [[b|e|] w2];
      cbn [snd] in Htr2.
    + cbv zeta.
      pose proof (never_accepted (requests w2) API_URL_MINE
                    (block_body cfg (json_in (block_transactions b) w2)
                                (block_nonce b) (block_hash b))) as Hna.
      destruct (verdict (snd (on_post net (requests w2) API_URL_MINE
                  (block_body cfg (json_in (block_transactions b) w2)
                              (block_nonce b) (block_hash b))))) as [blockHash| |].
      * now destruct (Hna blockHash).
      * apply Hend. eexists. unfold after_post.
        cbn [elapse count_request emit trace]. rewrite Htr2, Htr1, <- !app_assoc.
        reflexivity.
      * intros Hret; discriminate Hret.
    + apply Hcaught. eexists. rewrite Htr2, Htr1, <- !app_assoc. reflexivity.
    + intros Hret; discriminate Hret.
  - apply Hcaught. eexists. rewrite Htr1, <- !app_assoc. reflexivity.
  - intros Hret; discriminate Hret.
Qed.

End Refused.

(** What the fetch returns has a [length] that can be read and printed:
    the function has printed it already. *)
Lemma returned_sound (answer : GetResponse) :
  sound_length (default (JArr []) (returned_field answer)).
Proof.
  assert (Hempty : sound_length (JArr [])) by (split; [discriminate|reflexivity]).
  unfold returned_field. destruct answer as [data|response]; [|exact Hempty].
  destruct (pending_field data) as [pending|] eqn:Ep; [|exact Hempty].
  assert (Hnn : pending <> JNull).
  { unfold pending_field in Ep. destruct (truthy data); [|discriminate].
    destruct (get_field "pendingTransactions" data) as [p|]; [|discriminate].
    destruct (truthy p) eqn:Et; [|discriminate]. injection Ep as <-.
    intros ->. discriminate Et. }
  destruct (length_field pending) as [count|] eqn:El.
  - destruct (printable count) eqn:Epr; [|exact Hempty].
    change (sound_length pending). split; [exact Hnn|]. rewrite El; auto.
  - change (sound_length pending). split; [exact Hnn|]. rewrite El; auto.
Qed.

Lemma printable_comparable (count : JValue) :
  printable count = true -> exists b, greater_than_zero (Some count) = Some b.
Proof.
  unfold printable, greater_than_zero.
  destruct count as [ |b|n|s|items|fields]; eauto;
    destruct (to_string _) as [text|]; try discriminate; cbn [option_map]; eauto.
Qed.

Lemma sound_comparable (current : JValue) :
  sound_length current -> exists b, greater_than_zero (length_field current) = Some b.
Proof.
  intros [_ Hp]. destruct (length_field current) as [count|].
  - now apply printable_comparable.
  - now exists false.
Qed.

Section WholeRound.

Variables (net : Network) (fuel : nat) (cfg : Config).

(** The fetch: what it returns and what it leaves behind. *)
Lemma getPendingTransactions_result (w : World) :
  let answer := snd (on_get net (requests w) PENDING_URL) in
  exists v w1 l m,
    run net getPendingTransactions w = (Returned v, w1) /\
    json_in v w1 = default (JArr []) (returned_field answer) /\
    trace w1 = (trace w ++ [EvLog info Fetching; EvGet PENDING_URL; EvLog l m])%list /\
    requests w1 = S (requests w) /\
    (forall a, a <> next_loc w -> contents a w1 = contents a w) /\
    ((v = VArr (next_loc w) /\ next_loc w1 = S (next_loc w)) \/
     ((forall a, v <> VArr a) /\ next_loc w1 = next_loc w /\ heap w1 = heap w)).
Proof.
  intros answer.
  destruct (run_getPendingTransactions net w) as (l & m & Hout).
  cbv zeta in Hout. fold answer in Hout.
  set (w0 := emit (EvLog l m)
               (elapse (fst (on_get net (requests w) PENDING_URL))
                  (count_request (emit (EvGet PENDING_URL) (emit (EvLog info Fetching) w)))))
    in Hout.
  destruct (run_value_of net (default (JArr []) (returned_field answer)) w0)
    as (v & w1 & Hrun & Hjson & Htrace & Hreq & _ & Hframe & Hcases).
  exists v, w1, l, m. rewrite Hout.
  split; [exact Hrun|]. split; [exact Hjson|].
  split; [rewrite Htrace; unfold w0; cbn [emit elapse count_request trace];
          now rewrite <- !app_assoc|].
  split; [now rewrite Hreq|].
  split; [intros a Ha; now apply Hframe|].
  destruct Hcases as [[-> Hnext]|[Hplain ->]]; [left|right]; auto.
Qed.

(** [startMining], step by step: the fetch, then [mineBlock] on what was
    fetched when its [length] is greater than 0 and on a new empty array
    otherwise, then the closing line. *)
Lemma run_startMining (w : World) :
  exists v w1,
    run net getPendingTransactions (emit (EvLog info StartingMining) w) = (Returned v, w1) /\
    exists vm wm,
      let count := length_field (json_in v w1) in
      ((greater_than_zero count = Some true /\ vm = v /\
        wm = emit (EvLog info (MiningPending count)) w1) \/
       (greater_than_zero count = Some false /\ vm = VArr (next_loc w1) /\
        wm = snd (alloc [] (emit (EvLog info NoPending) w1)))) /\
      run net (startMining fuel cfg) w =
        match run net (mineBlock fuel cfg vm) wm with
        | (Returned _, w3) => (Returned tt, emit (EvLog info MiningComplete) w3)
        | (Threw e, w3) => (Threw e, w3)
        | (Unfinished, w3) => (Unfinished, w3)
        end.
Proof.
  destruct (getPendingTransactions_result (emit (EvLog info StartingMining) w))
    as (v & w1 & l & m & Hrun & Hjson & _).
  exists v, w1. split; [exact Hrun|].
  pose proof (returned_sound
                (snd (on_get net (requests (emit (EvLog info StartingMining) w)) PENDING_URL)))
    as Hsound.
  rewrite <- Hjson in Hsound.
  destruct (sound_comparable _ Hsound) as [b Hb].
  destruct Hsound as [Hnn Hpr].
  assert (Hlen : run net (length_of v) w1 = (Returned (length_field (json_in v w1)), w1)).
  { rewrite run_length_of. destruct (json_in v w1); try reflexivity. now destruct Hnn. }
  assert (Hstart :
    run net (startMining fuel cfg) w =
    run net (some <- positive (length_field (json_in v w1)) ;;
             (if some
              then interpolate (length_field (json_in v w1)) ;;
                   log info (MiningPending (length_field (json_in v w1))) ;;
                   mineBlock fuel cfg v
              else log info NoPending ;;
                   fresh <- new_array [] ;;
                   mineBlock fuel cfg (VArr fresh)) ;;
             log info MiningComplete) w1).
  { unfold startMining, now. cbn [bind log run].
    now rewrite run_bind, Hrun, run_bind, Hlen. }
  rewrite Hstart. clear Hstart.
  unfold positive. rewrite Hb. cbn [bind].
  destruct b.
  - exists v, (emit (EvLog info (MiningPending (length_field (json_in v w1)))) w1).
    split; [left; auto|].
    unfold interpolate.
    destruct (length_field (json_in v w1)) as [count|]; [rewrite Hpr|];
      cbn [bind log run]; rewrite run_bind;
      match goal with |- context [run net (mineBlock ?f ?c ?a) ?x] =>
        destruct (run net (mineBlock f c a) x) as [[[]|e|] w3] end; reflexivity.
  - exists (VArr (next_loc w1)), (snd (alloc [] (emit (EvLog info NoPending) w1))).
    split; [right; auto|].
    cbn [bind log new_array run alloc snd emit next_loc heap clock requests trace].
    rewrite run_bind.
    match goal with |- context [run net (mineBlock ?f ?c ?a) ?x] =>
      destruct (run net (mineBlock f c a) x) as [[[]|e|] w3] end; reflexivity.
Qed.

(** Where [mineBlock] starts within a round: the trace so far extends the
    trace at the start of the round, with one GET and without any POST. *)
Lemma startMining_reaches_mineBlock (w : World) :
  exists vm wm mid,
    trace wm = (trace w ++ mid)%list /\ posts mid = [] /\ gets mid = [PENDING_URL] /\
    requests wm = S (requests w) /\
    run net (startMining fuel cfg) w =
      match run net (mineBlock fuel cfg vm) wm with
      | (Returned _, w3) => (Returned tt, emit (EvLog info MiningComplete) w3)
      | (Threw e, w3) => (Threw e, w3)
      | (Unfinished, w3) => (Unfinished, w3)
      end.
Proof.
  destruct (run_startMining w) as (v & w1 & Hget & vm & wm & Hcases & Hrun).
  destruct (getPendingTransactions_result (emit (EvLog info StartingMining) w))
    as (v' & w1' & l & m & Hget' & _ & Htr1 & Hreq1 & _).
  rewrite Hget in Hget'. injection Hget' as <- <-.
  cbn [emit trace requests] in Htr1, Hreq1. rewrite <- app_assoc in Htr1. cbn [app] in Htr1.
  cbv zeta in Hcases.
  destruct Hcases as [(_ & _ & ->)|(_ & _ & ->)].
  - exists vm, (emit (EvLog info (MiningPending (length_field (json_in v w1)))) w1),
      [EvLog info StartingMining; EvLog info Fetching; EvGet PENDING_URL; EvLog l m;
       EvLog info (MiningPending (length_field (json_in v w1)))].
    split; [cbn [emit trace]; now rewrite Htr1, <- app_assoc|].
    split; [reflexivity|]. split; [reflexivity|]. split; [exact Hreq1|exact Hrun].
  - exists vm, (snd (alloc [] (emit (EvLog info NoPending) w1))),
      [EvLog info StartingMining; EvLog info Fetching; EvGet PENDING_URL; EvLog l m;
       EvLog info NoPending].
    split; [cbn [snd alloc emit trace]; now rewrite Htr1, <- app_assoc|].
    split; [reflexivity|]. split; [reflexivity|]. split; [exact Hreq1|exact Hrun].
Qed.

End WholeRound.

(** A round that returns ends with the log line "Mining process complete.
    Block successfully mined!", also when the service rejected the block
    and every retry: the line then follows "All retry attempts failed". *)
Theorem startMining_always_reports_completion (net : Network) (fuel : nat) (cfg : Config)
    (w : World) :
  fst (run net (startMining fuel cfg) w) = Returned tt ->
  (exists before,
     new_events net (startMining fuel cfg) w = (before ++ [EvLog info MiningComplete])%list) /\
  (rejects_every_post net ->
   exists before,
     new_events net (startMining fuel cfg) w =
     (before ++ [EvLog info AllRetriesFailed; EvLog info MiningComplete])%list).
Proof.
  destruct (startMining_reaches_mineBlock net fuel cfg w)
    as (vm & wm & mid & Hmid & _ & _ & _ & Hrun).
  destruct (run_trace_grows net (mineBlock fuel cfg vm) wm) as [new2 Htr2].
  pose proof (fun H => mineBlock_refused net fuel cfg H vm wm) as Hlast.
  rewrite Hrun.
  destruct (run net (mineBlock fuel cfg vm) wm) as [[[]|e|] w3]; cbn [fst snd] in *;
    try discriminate.
  intros _. split.
  - exists (mid ++ new2)%list. apply new_events_intro. rewrite Hrun.
    cbn [snd emit trace]. now rewrite Htr2, Hmid, <- !app_assoc.
  - intros Hfail.
    destruct (Hlast (rejects_never_accepts net Hfail) eq_refl) as [before Hbefore].
    exists (mid ++ before)%list. apply new_events_intro. rewrite Hrun.
    cbn [snd emit trace]. now rewrite Hbefore, Hmid, <- !app_assoc.
Qed.

Lemma startMining_always_reports_completion_witness :
  exists before,
    new_events service_down (startMining 100 example_config) initial_world =
    (before ++ [EvLog info AllRetriesFailed; EvLog info MiningComplete])%list.
Proof.
  refine (proj2 (startMining_always_reports_completion service_down 100 example_config
                   initial_world _) _).
  - vm_compute. reflexivity.
  - intros n url body. exists None. reflexivity.
Defined.

(** ** Submission *)

(** An answer that is not [null], with no [blockHash] or one that can be
    printed, ends the [try] block with the success line. *)
Lemma verdict_accepted (data : JValue) :
  data <> JNull ->
  (forall blockHash, get_field "blockHash" data = Some blockHash -> printable blockHash = true) ->
  verdict (PostOk data) = Accepted (get_field "blockHash" data).
Proof.
  intros Hdata Hhash. unfold verdict.
  destruct data as [ |b|n|s|items|fields]; try reflexivity; [congruence|].
  destruct (get_field "blockHash" (JObj fields)) as [blockHash|] eqn:E; [|reflexivity].
  now rewrite (Hhash blockHash eq_refl).
Qed.

(** When the service accepts the first submission (it answers with a body
    that is not [null], whose [blockHash], if any, can be printed),
    [mineBlock] sends that one request and nothing else: no retry, no
    sleep, and the success line closes the call. *)
Theorem mineBlock_accepted_at_once (net : Network) (fuel : nat) (cfg : Config) (a : loc)
    (w : World) (r : MiningResult) (rs : list MiningResult) (spare : nat) (data : JValue) :
  let items := with_reward cfg (contents a w) in
  let body := block_body cfg (JArr items) (nonce r) (hash r) in
  let out := run net (mineBlock fuel cfg (VArr a)) w in
  call_workers fuel (blockHeader cfg (JArr items)) (zeros (N.to_nat (difficulty cfg)))
               (indices (parallelThreads cfg)) = Some (r :: rs, spare) ->
  snd (on_post net (requests w) API_URL_MINE body) = PostOk data ->
  data <> JNull ->
  (forall blockHash, get_field "blockHash" data = Some blockHash -> printable blockHash = true) ->
  fst out = Returned tt /\
  new_events net (mineBlock fuel cfg (VArr a)) w =
    (EvLog info Requesting
       :: (if Nat.eqb (List.length (contents a w)) 0 then [EvLog info AddingReward] else [])
       ++ [ EvLog info StartingPoW; EvLog info (MinedWith (nonce r) (hash r));
            EvPost API_URL_MINE body;
            EvLog info (BlockAdded (get_field "blockHash" data)) ])%list /\
  posts (new_events net (mineBlock fuel cfg (VArr a)) w) = [(API_URL_MINE, body)] /\
  sleeps (new_events net (mineBlock fuel cfg (VArr a)) w) = [].
Proof.
  intros items body out Hw Hpost Hdata Hhash.
  assert (Hv : verdict (snd (on_post net (requests w) API_URL_MINE body))
               = Accepted (get_field "blockHash" data))
    by (rewrite Hpost; now apply verdict_accepted).
  set (w2 := emit (EvLog info (MinedWith (nonce r) (hash r)))
               (emit (EvLog info StartingPoW) (after_reward_step cfg a w))).
  assert (Hout : out =
    (Returned tt,
     emit (EvLog info (BlockAdded (get_field "blockHash" data)))
       (after_post API_URL_MINE body (fst (on_post net (requests w) API_URL_MINE body)) w2))).
  { unfold out. rewrite run_mineBlock, run_coordinator. cbn [json_in].
    rewrite contents_after_reward_step. fold items. rewrite Hw.
    cbn [List.head block_transactions block_nonce block_hash json_in]. fold w2.
    assert (Hc : contents a w2 = items) by apply contents_after_reward_step.
    assert (Hr : requests w2 = requests w) by apply requests_after_reward_step.
    rewrite Hc, Hr. fold body. cbv zeta. now rewrite Hv. }
  assert (Hnew : new_events net (mineBlock fuel cfg (VArr a)) w =
    (EvLog info Requesting
       :: (if Nat.eqb (List.length (contents a w)) 0 then [EvLog info AddingReward] else [])
       ++ [ EvLog info StartingPoW; EvLog info (MinedWith (nonce r) (hash r));
            EvPost API_URL_MINE body;
            EvLog info (BlockAdded (get_field "blockHash" data)) ])%list).
  { apply new_events_intro. fold out. rewrite Hout. unfold after_post, w2.
    cbn [snd emit elapse count_request trace]. rewrite trace_after_reward_step_exact.
    rewrite <- !app_assoc. reflexivity. }
  rewrite Hnew, Hout. cbn [fst].
  repeat split; now destruct (Nat.eqb (List.length (contents a w)) 0).
Qed.

Lemma mineBlock_accepted_at_once_witness :
  posts (new_events service_up (mineBlock 100 example_config (VArr 0))
                    (snd (alloc [example_transfer] initial_world))) =
  [ (API_URL_MINE,
     block_body example_config (JArr [example_transfer]) 6
       "0e8578bbca83767fe3f11aca3fdd8aabafd65a9f501b976812e068f4f47d928c") ].
Proof.
  refine (proj1 (proj2 (proj2
    (mineBlock_accepted_at_once service_up 100 example_config 0
       (snd (alloc [example_transfer] initial_world))
       {| nonce := 6;
          hash := "0e8578bbca83767fe3f11aca3fdd8aabafd65a9f501b976812e068f4f47d928c" |}
       [ {| nonce := 1000024;
            hash := "0742e3126ca086993bc721dbba1718182316567e0226a4e0a517dc25c6e0735f" |};
         {| nonce := 2000002;
            hash := "03679b38196c2000388524b7dde40efa31d7be8b70d4cebe9b76951d4b8c421f" |};
         {| nonce := 3000006;
            hash := "0c4c9845ff6c852199b3049e838c9218c836ff2e1064d6eb8388311739f11b3d" |} ]
       62%nat
       (JObj [("blockHash",
               JStr "0e8578bbca83767fe3f11aca3fdd8aabafd65a9f501b976812e068f4f47d928c")])
       _ _ _ _)))).
  - vm_compute. reflexivity.
  - reflexivity.
  - discriminate.
  - intros blockHash [= <-]. reflexivity.
Defined.

(** The retry controller stops at the first request that the service
    accepts: after [k] attempts that fail in the ordinary way and one
    acceptance it has sent [k + 1] requests and slept [k] times, it logs the
    success last and returns; the remaining attempts are not made. *)
Theorem retry_stops_at_first_success (net : Network) (cfg : Config) (retries delay : option N)
    (w : World) (k : nat) (data : JValue) :
  let r := default 3%N retries in
  let d := default 12000%N delay in
  let new := new_events net (retryMineBlock cfg retries delay) w in
  (N.of_nat k < r)%N ->
  (forall i, (i < k)%nat -> retry_verdict net cfg w i = Failed) ->
  snd (on_post net (requests w + k)%nat API_URL_MINE (retry_body cfg)) = PostOk data ->
  data <> JNull ->
  (forall blockHash, get_field "blockHash" data = Some blockHash -> printable blockHash = true) ->
  fst (run net (retryMineBlock cfg retries delay) w) = Returned tt /\
  posts new = repeat (API_URL_MINE, retry_body cfg) (S k) /\
  sleeps new = repeat d k /\
  exists before,
    new = (before ++ [EvLog info (RetrySucceeded (N.of_nat (S k))
                                    (get_field "blockHash" data))])%list.
Proof.
  intros r d new Hk Hfail Hok Hdata Hhash.
  destruct (on_post net (requests w + k)%nat API_URL_MINE (retry_body cfg))
    as [latency answer] eqn:Hpost.
  cbn [snd] in Hok. subst answer.
  pose proof (verdict_accepted data Hdata Hhash) as Hv.
  pose proof (retry_loop_until net cfg r d k (N.to_nat r) 1 w latency (PostOk data)
                ltac:(lia) ltac:(lia) Hfail Hpost ltac:(congruence)) as Hu.
  cbv zeta in Hu. rewrite Hv in Hu. destruct Hu as [Hret Htrace].
  assert (Hnew : new =
    (flat_map (failed_attempt cfg r d) (attempts_from 1 k)
       ++ [ EvLog info (RetryAttempt (1 + N.of_nat k)); EvPost API_URL_MINE (retry_body cfg);
            EvLog info (RetrySucceeded (1 + N.of_nat k) (get_field "blockHash" data)) ])%list).
  { apply new_events_intro. unfold retryMineBlock. fold r d. rewrite Htrace.
    now rewrite <- !app_assoc. }
  split; [exact Hret|]. rewrite Hnew. split; [|split].
  - rewrite posts_app, posts_failed_attempts, length_attempts_from.
    change (posts [ EvLog info (RetryAttempt (1 + N.of_nat k));
                    EvPost API_URL_MINE (retry_body cfg);
                    EvLog info (RetrySucceeded (1 + N.of_nat k)
                                  (get_field "blockHash" data)) ])
      with [(API_URL_MINE, retry_body cfg)].
    now rewrite <- repeat_cons.
  - rewrite sleeps_app, sleeps_early_attempts.
    + rewrite length_attempts_from. apply app_nil_r.
    + eapply List.Forall_impl; [|apply attempts_from_bound]. cbn. intros x Hx. lia.
  - exists (flat_map (failed_attempt cfg r d) (attempts_from 1 k)
              ++ [ EvLog info (RetryAttempt (1 + N.of_nat k));
                   EvPost API_URL_MINE (retry_body cfg) ])%list.
    rewrite <- app_assoc. cbn [app].
    now replace (N.of_nat (S k)) with (1 + N.of_nat k)%N by lia.
Qed.

Lemma retry_stops_at_first_success_witness :
  let new := new_events (service_back_after 2) (retryMineBlock example_config None None)
                        initial_world in
  posts new = repeat (API_URL_MINE, retry_body example_config) 3 /\
  sleeps new = [12000%N; 12000%N].
Proof.
  destruct (retry_stops_at_first_success (service_back_after 2) example_config None None
              initial_world 2
              (JObj [("blockHash", JStr EmptyString)])) as (_ & Hp & Hs & _).
  - reflexivity.
  - intros [|[|i]] Hi; try reflexivity. lia.
  - reflexivity.
  - discriminate.
  - intros blockHash [= <-]. reflexivity.
  - exact (conj Hp Hs).
Defined.

(** ** What a round submits *)

Lemma contents_append_other (a b : loc) (item : JValue) (w : World) :
  a <> b -> contents a (append_to b item w) = contents a w.
Proof.
  intros Hne. unfold contents, append_to. cbn [heap].
  now rewrite lookup_insert_ne by congruence.
Qed.

(** The reward step touches no other array than its own. *)
Lemma contents_after_reward_step_other (cfg : Config) (a b : loc) (w : World) :
  a <> b -> contents a (after_reward_step cfg b w) = contents a w.
Proof.
  intros Hne. unfold after_reward_step.
  destruct (Nat.eqb (List.length (contents b w)) 0); [|reflexivity].
  change (contents a (emit (EvLog info AddingReward)
                        (append_to b (reward_transaction cfg) (emit (EvLog info Requesting) w))))
    with (contents a (append_to b (reward_transaction cfg) (emit (EvLog info Requesting) w))).
  now rewrite contents_append_other.
Qed.

(** When the fetch returns a list, it is the list of the answer. *)
Lemma returned_list (answer : GetResponse) (items : list JValue) :
  default (JArr []) (returned_field answer) = JArr items -> pending_of answer = items.
Proof.
  unfold returned_field, pending_of. destruct answer as [data|response];
    [|now intros [= <-]].
  destruct (pending_field data) as [pending|]; [|now intros [= <-]].
  destruct (length_field pending) as [count|] eqn:El.
  - destruct (printable count) eqn:Ep.
    + change (pending = JArr items -> match pending with JArr l => l | _ => [] end = items).
      now intros ->.
    + change (JArr [] = JArr items -> match pending with JArr l => l | _ => [] end = items).
      intros [= <-]. destruct pending; try reflexivity. cbn in El. injection El as <-.
      discriminate Ep.
  - change (pending = JArr items -> match pending with JArr l => l | _ => [] end = items).
    now intros ->.
Qed.

Lemma mined_for_default (cfg : Config) (answer : GetResponse) :
  mined_for cfg answer =
  match greater_than_zero (length_field (default (JArr []) (returned_field answer))) with
  | Some true => default (JArr []) (returned_field answer)
  | _ => JArr [reward_transaction cfg]
  end.
Proof. unfold mined_for. now destruct (returned_field answer). Qed.

(** The transactions of a list [items] that a round mines. *)
Lemma mined_for_list (cfg : Config) (answer : GetResponse) (items : list JValue) :
  mined_for cfg answer = JArr items ->
  items = match pending_of answer with
          | [] => [reward_transaction cfg]
          | _ => pending_of answer
          end.
Proof.
  rewrite mined_for_default.
  destruct (greater_than_zero (length_field (default (JArr []) (returned_field answer))))
    as [[|]|] eqn:Eg.
  - intros Hlist. rewrite (returned_list answer items Hlist).
    rewrite Hlist in Eg. cbn in Eg. destruct items; [discriminate|reflexivity].
  - intros [= <-].
    destruct (default (JArr []) (returned_field answer)) as [ |b|n|s|l|fields] eqn:Ed.
    5: { rewrite (returned_list answer l Ed). cbn in Eg. now destruct l. }
    all: destruct (pending_of answer) as [|x l] eqn:Ep; [reflexivity|];
      unfold returned_field, pending_of in *; destruct answer as [data|response];
      try discriminate; destruct (pending_field data) as [[ |b'|n'|s'|l'|fields']|];
      try discriminate; injection Ep as -> ->; cbn in Ed; discriminate.
  - intros [= <-].
    destruct (sound_comparable _ (returned_sound answer)) as [b Hb]. congruence.
Qed.

Section Fetched.

Variables (net : Network) (fuel : nat) (cfg : Config).

(** The argument that [startMining] gives to [mineBlock], what is then
    submitted for it, and what becomes of the array that the fetch
    returned. *)
Lemma startMining_argument (w : World) :
  let answer := snd (on_get net (requests w) PENDING_URL) in
  exists vm wm mid,
    trace wm = (trace w ++ mid)%list /\ posts mid = [] /\
    submitted cfg vm wm = mined_for cfg answer /\
    (forall items wf,
       default (JArr []) (returned_field answer) = JArr items ->
       (forall a, vm = VArr a -> heap wf = heap (after_reward_step cfg a wm)) ->
       contents (next_loc w) wf = items) /\
    run net (startMining fuel cfg) w =
      match run net (mineBlock fuel cfg vm) wm with
      | (Returned _, w3) => (Returned tt, emit (EvLog info MiningComplete) w3)
      | (Threw e, w3) => (Threw e, w3)
      | (Unfinished, w3) => (Unfinished, w3)
      end.
Proof.
  intros answer.
  destruct (run_startMining net fuel cfg w) as (v & w1 & Hget & vm & wm & Hcases & Hrun).
  destruct (getPendingTransactions_result net (emit (EvLog info StartingMining) w))
    as (v' & w1' & l & m & Hget' & Hjson & Htr1 & _ & _ & Hshape).
  rewrite Hget in Hget'. injection Hget' as <- <-.
  change (requests (emit (EvLog info StartingMining) w)) with (requests w) in Hjson.
  fold answer in Hjson.
  cbn [emit trace next_loc] in Htr1, Hshape. rewrite <- app_assoc in Htr1. cbn [app] in Htr1.
  cbv zeta in Hcases. rewrite mined_for_default, <- Hjson.
  destruct Hcases as [(Hg & -> & ->)|(Hg & -> & ->)]; rewrite Hg.
  - exists v, (emit (EvLog info (MiningPending (length_field (json_in v w1)))) w1),
      [EvLog info StartingMining; EvLog info Fetching; EvGet PENDING_URL; EvLog l m;
       EvLog info (MiningPending (length_field (json_in v w1)))].
    split; [cbn [emit trace]; now rewrite Htr1, <- app_assoc|].
    split; [reflexivity|].
    destruct Hshape as [[-> Hnext]|[Hplain _]].
    + cbn [json_in] in Hg, Hjson |- *. cbn [length_field greater_than_zero] in Hg.
      assert (Hne : with_reward cfg (contents (next_loc w) w1) = contents (next_loc w) w1).
      { unfold with_reward. destruct (contents (next_loc w) w1); [discriminate|reflexivity]. }
      split; [unfold submitted;
              change (contents (next_loc w) (emit _ w1)) with (contents (next_loc w) w1);
              now rewrite Hne|].
      split; [|exact Hrun].
      intros items wf Hitems Hheap. injection Hitems as <-.
      unfold contents at 1. rewrite (Hheap (next_loc w) eq_refl).
      change (contents (next_loc w)
                (after_reward_step cfg (next_loc w)
                   (emit (EvLog info (MiningPending
                      (Some (JNum (Z.of_nat (List.length (contents (next_loc w) w1))))))) w1))
              = contents (next_loc w) w1).
      rewrite contents_after_reward_step.
      change (contents (next_loc w) (emit _ w1)) with (contents (next_loc w) w1).
      exact Hne.
    + split; [rewrite (submitted_plain cfg v _ Hplain); apply (json_in_plain v _ _ Hplain)|].
      split; [|exact Hrun].
      intros items wf Hitems _.
      destruct v; cbn [json_in] in Hitems; try discriminate. now destruct (Hplain a).
  - exists (VArr (next_loc w1)), (snd (alloc [] (emit (EvLog info NoPending) w1))),
      [EvLog info StartingMining; EvLog info Fetching; EvGet PENDING_URL; EvLog l m;
       EvLog info NoPending].
    split; [cbn [snd alloc emit trace]; now rewrite Htr1, <- app_assoc|].
    split; [reflexivity|].
    assert (Hfresh : contents (next_loc w1) (snd (alloc [] (emit (EvLog info NoPending) w1)))
                     = []) by exact (contents_alloc_new [] (emit (EvLog info NoPending) w1)).
    split; [unfold submitted; now rewrite Hfresh|].
    split; [|exact Hrun].
    intros items wf Hitems Hheap.
    destruct Hshape as [[-> Hnext]|[Hplain _]].
    + cbn [json_in] in Hitems. injection Hitems as <-.
      unfold contents at 1. rewrite (Hheap (next_loc w1) eq_refl).
      change (contents (next_loc w)
                (after_reward_step cfg (next_loc w1)
                   (snd (alloc [] (emit (EvLog info NoPending) w1))))
              = contents (next_loc w) w1).
      rewrite contents_after_reward_step_other by lia.
      rewrite contents_alloc_other by (cbn [emit next_loc]; lia). reflexivity.
    + destruct v; cbn [json_in] in Hitems; try discriminate. now destruct (Hplain a).
Qed.

End Fetched.

(** A round mines what it fetched, as it was received. When the fetch
    returns a list, the array that holds it is never changed: the reward is
    only pushed onto an array that [startMining] made itself. A block that
    the round submits carries the fetched value when its [length] is
    greater than 0 (the list of the answer, but also a string or an object
    that the service sent in its place), and the reward transaction alone
    otherwise; a block that carries a list carries the fetched list, or the
    reward alone when nothing was pending. *)
Theorem startMining_submits_what_it_fetched (net : Network) (fuel : nat) (cfg : Config)
    (w : World) :
  let answer := snd (on_get net (requests w) PENDING_URL) in
  let fetched := pending_of answer in
  (forall items,
     default (JArr []) (returned_field answer) = JArr items ->
     items = fetched /\
     contents (next_loc w) (snd (run net (startMining fuel cfg) w)) = fetched) /\
  (forall url items n h,
     In (url, block_body cfg (JArr items) n h)
        (posts (new_events net (startMining fuel cfg) w)) ->
     items = match fetched with
             | [] => [reward_transaction cfg]
             | _ => fetched
             end) /\
  (forall url transactions n h,
     In (url, block_body cfg transactions n h)
        (posts (new_events net (startMining fuel cfg) w)) ->
     transactions = mined_for cfg answer).
Proof.
  intros answer fetched.
  destruct (startMining_argument net fuel cfg w)
    as (vm & wm & mid & Hmid & Hpmid & Hsub & Hkeep & Hrun).
  fold answer in Hsub, Hkeep.
  pose proof (trace_new_events net (mineBlock fuel cfg vm) wm) as Htr.
  pose proof (mineBlock_block_post net fuel cfg vm wm) as Hpost.
  assert (Hany : forall url transactions n h,
     In (url, block_body cfg transactions n h)
        (posts (new_events net (startMining fuel cfg) w)) ->
     transactions = mined_for cfg answer).
  { intros url transactions n h Hin. rewrite <- Hsub.
    apply (Hpost url transactions n h).
    assert (Hnew : exists tail,
      new_events net (startMining fuel cfg) w =
      (mid ++ new_events net (mineBlock fuel cfg vm) wm ++ tail)%list /\ posts tail = []).
    { destruct (run net (mineBlock fuel cfg vm) wm) as [[u|e|] w3]; cbn [snd] in Htr.
      - exists [EvLog info MiningComplete]. split; [|reflexivity].
        apply new_events_intro. rewrite Hrun. cbn [snd emit trace].
        now rewrite Htr, Hmid, <- !app_assoc.
      - exists []. split; [|reflexivity].
        apply new_events_intro. rewrite Hrun. cbn [snd].
        now rewrite Htr, Hmid, <- !app_assoc, app_nil_r.
      - exists []. split; [|reflexivity].
        apply new_events_intro. rewrite Hrun. cbn [snd].
        now rewrite Htr, Hmid, <- !app_assoc, app_nil_r. }
    destruct Hnew as (tail & Hnew & Hptail).
    rewrite Hnew, !posts_app, Hpmid, Hptail, app_nil_r in Hin. exact Hin. }
  split; [|split; [|exact Hany]].
  - intros items Hitems. pose proof (returned_list answer items Hitems) as Hlist.
    fold fetched in Hlist. split; [now rewrite Hlist|]. rewrite Hlist.
    apply Hkeep; [exact Hitems|].
    intros a ->. rewrite Hrun.
    destruct (mineBlock_summary net fuel cfg a wm) as (Hheap & _). cbv zeta in Hheap.
    destruct (run net (mineBlock fuel cfg (VArr a)) wm) as [[u|e|] w3];
      cbn [snd emit heap] in *; exact Hheap.
  - intros url items n h Hin. apply (mined_for_list cfg answer).
    symmetry. exact (Hany url (JArr items) n h Hin).
Qed.

Lemma startMining_submits_what_it_fetched_witness :
  contents 0 (snd (run service_up (startMining 100 example_config) initial_world)) =
    [example_transfer] /\
  contents 0 (snd (run service_down (startMining 100 example_config) initial_world)) = [].
Proof.
  split.
  - exact (proj2 (proj1 (startMining_submits_what_it_fetched service_up 100 example_config
                           initial_world) [example_transfer] eq_refl)).
  - exact (proj2 (proj1 (startMining_submits_what_it_fetched service_down 100 example_config
                           initial_world) [] eq_refl)).
Defined.

(** ** Which errors leave a round *)

Section SafePrograms.

Context {A : Type}.
Variable answers : PostResponse -> Prop.

Lemma safe_bind {B : Type} (P : Error -> Prop) (Q : A -> Prop) (R : B -> Prop)
    (p : Prog A) (f : A -> Prog B) :
  safe P answers Q p -> (forall a, Q a -> safe P answers R (f a)) ->
  safe P answers R (bind p f).
Proof. intros Hp Hf. induction Hp; cbn [bind]; try (constructor; auto); auto. Qed.

(** A [catch] block needs to be safe for the errors of its [try] block
    only. *)
Lemma safe_try_catch (P P' : Error -> Prop) (Q : A -> Prop) (p : Prog A)
    (handler : Error -> Prog A) :
  safe P' answers Q p -> (forall e, P' e -> safe P answers Q (handler e)) ->
  safe P answers Q (try_catch p handler).
Proof. intros Hp Hh. induction Hp; cbn [try_catch]; try (constructor; auto); auto. Qed.

Lemma safe_run (net : Network) (P : Error -> Prop) (Q : A -> Prop) (p : Prog A) (w : World) :
  (forall n url body, answers (snd (on_post net n url body))) ->
  safe P answers Q p ->
  match fst (run net p w) with
  | Returned a => Q a
  | Threw e => P e
  | Unfinished => True
  end.
Proof.
  intros Hnet Hp; revert w;
    induction Hp as [a Ha|e He| |l m k _ IH|k _ IH|url k _ IH|url body k _ IH|ms k _ IH
                     |items k _ IH|a k _ IH|a item k _ IH];
    intros w; cbn [run fst]; auto; try apply IH.
  - destruct (on_get net (requests w) url). apply IH.
  - pose proof (Hnet (requests w) url body) as Hr.
    destruct (on_post net (requests w) url body). now apply IH.
Qed.

End SafePrograms.

(** A safe call that is suspended resumes as a safe call. *)
Lemma safe_advance (answers : PostResponse -> Prop) (net : Network) (P : Error -> Prop)
    (p : Prog unit) (w : World) :
  (forall n url body, answers (snd (on_post net n url body))) ->
  safe P answers (fun _ => True) p ->
  match fst (advance net p w) with
  | Rejected e => P e
  | Awaiting task => safe P answers (fun _ => True) (resume task)
  | _ => True
  end.
Proof.
  intros Hnet Hp; revert w;
    induction Hp as [a Ha|e He| |l m k _ IH|k _ IH|url k Hk IH|url body k Hk IH|ms k Hk IH
                     |items k _ IH|a k _ IH|a item k _ IH];
    intros w; cbn [advance fst]; auto; try apply IH.
  - destruct (on_get net (requests w) url). cbn. apply Hk.
  - pose proof (Hnet (requests w) url body) as Hr.
    destruct (on_post net (requests w) url body). cbn. now apply Hk.
Qed.

Lemma pending_field_not_null (data pending : JValue) :
  pending_field data = Some pending -> pending <> JNull.
Proof.
  unfold pending_field. destruct (truthy data); [|discriminate].
  destruct (get_field "pendingTransactions" data) as [p|]; [|discriminate].
  destruct (truthy p) eqn:Et; [|discriminate]. intros [= <-] ->. discriminate Et.
Qed.

Section SafeRound.

Variables (allowed : Error -> Prop) (answers : PostResponse -> Prop).

(** Either a refusal can be formatted, or a [TypeError] may leave. *)
Hypothesis refusals :
  forall response, answers (PostFailed response) ->
    formats (HttpError response) \/ allowed TypeError.

(** The errors that a [catch] block of the miner can take. *)
Let inner (e : Error) : Prop := formats e \/ allowed TypeError.

Let any : unit -> Prop := fun _ => True.

Lemma safe_log (P : Error -> Prop) (l : Level) (m : LogMsg) :
  safe P answers any (log l m).
Proof. repeat constructor. Qed.

Lemma safe_format_error (e : Error) : inner e -> safe allowed answers any (format_error e).
Proof.
  unfold inner, formats, format_error. destruct (reason_of e) as [data|]; [|repeat constructor].
  unfold interpolate. destruct (printable data); [repeat constructor|].
  intros [H|H]; [discriminate|now constructor].
Qed.

Lemma safe_interpolate (P : Error -> Prop) (x : option JValue) :
  P TypeError ->
  safe P answers
       (fun _ => match x with Some count => printable count = true | None => True end)
       (interpolate x).
Proof.
  intros HP. unfold interpolate. destruct x as [count|]; [|now constructor].
  destruct (printable count); now constructor.
Qed.

Lemma safe_blockHash_of (P : Error -> Prop) (data : JValue) :
  P TypeError -> safe P answers (fun _ => True) (blockHash_of data).
Proof.
  intros HP. unfold blockHash_of.
  destruct data; try (now constructor);
    (eapply safe_bind; [apply (safe_interpolate P _ HP)|]; intros; now constructor).
Qed.

Lemma safe_axios_post (url : string) (body : JValue) :
  safe inner answers (fun _ => True) (axios_post url body).
Proof.
  constructor. intros [data|response] Hr; constructor; [exact I|]. now apply refusals.
Qed.

Lemma safe_json_of (P : Error -> Prop) (v : Value) :
  safe P answers (fun _ => True) (json_of v).
Proof. destruct v; repeat constructor. Qed.

Lemma safe_length_of (P : Error -> Prop) (v : Value) :
  P TypeError -> safe P answers (fun _ => True) (length_of v).
Proof.
  intros HP. unfold length_of. eapply safe_bind; [apply safe_json_of|].
  intros current _. destruct current; now constructor.
Qed.

(** The [length] of what the fetch returned can be printed. *)
Lemma safe_length_of_sound (P : Error -> Prop) (v : Value) :
  (forall w, sound_length (json_in v w)) ->
  safe P answers
       (fun count => match count with Some x => printable x = true | None => True end)
       (length_of v).
Proof.
  intros Hv. unfold length_of.
  destruct v as [a| |b|n|s|fields]; cbn [json_of read_array bind].
  - constructor. intros items. now constructor.
  - now destruct (proj1 (Hv initial_world)).
  - constructor. exact (proj2 (Hv initial_world)).
  - constructor. exact (proj2 (Hv initial_world)).
  - constructor. exact (proj2 (Hv initial_world)).
  - constructor. exact (proj2 (Hv initial_world)).
Qed.

Lemma safe_coordinator (P : Error -> Prop) (fuel : nat) (cfg : Config) (v : Value) :
  P mining_failed -> safe P answers (fun _ => True) (mineProofOfWorkParallel fuel cfg v).
Proof.
  intros HP. unfold mineProofOfWorkParallel.
  eapply safe_bind; [apply safe_log|]. intros _ _.
  eapply safe_bind; [apply safe_json_of|]. intros serialized _. cbv zeta.
  destruct (miningTasks fuel cfg _ _) as [results|]; [|constructor].
  unfold select_result. destruct (validResult cfg _ results); [|now constructor].
  eapply safe_bind; [apply safe_log|]. intros _ _. now constructor.
Qed.

Lemma inner_TypeError : inner TypeError.
Proof. left. exact I. Qed.

Lemma inner_mining_failed : inner mining_failed.
Proof. left. exact I. Qed.

Lemma safe_retry_loop (n : nat) (cfg : Config) (retries delay attempt : N) :
  safe allowed answers any (retry_loop n cfg retries delay attempt).
Proof.
  revert attempt; induction n as [|n IH]; intros attempt; cbn [retry_loop];
    [now constructor|].
  destruct (attempt <=? retries)%N; [|now constructor].
  apply safe_bind with (Q := fun _ : bool => True).
  - apply safe_try_catch with (P' := inner).
    + eapply safe_bind; [apply safe_log|]. intros _ _.
      eapply safe_bind; [apply safe_axios_post|]. intros data _.
      eapply safe_bind; [apply (safe_blockHash_of inner), inner_TypeError|].
      intros blockHash _.
      eapply safe_bind; [apply safe_log|]. intros _ _. now constructor.
    + intros e He.
      eapply safe_bind; [apply (safe_format_error e He)|]. intros _ _.
      eapply safe_bind; [apply safe_log|]. intros _ _.
      apply safe_bind with (Q := any); [|intros _ _; now constructor].
      destruct (attempt <? retries)%N; [|apply safe_log].
      eapply safe_bind; [apply safe_log|]. intros _ _. repeat constructor.
  - intros [|] _; [apply IH|now constructor].
Qed.

Lemma safe_mineBlock (fuel : nat) (cfg : Config) (v : Value) :
  safe allowed answers any (mineBlock fuel cfg v).
Proof.
  unfold mineBlock.
  eapply safe_bind; [apply safe_log|]. intros _ _.
  apply safe_try_catch with (P' := inner).
  - eapply safe_bind; [apply (safe_length_of inner), inner_TypeError|]. intros count _.
    apply safe_bind with (Q := any).
    { destruct (is_zero count); [|now constructor].
      apply safe_bind with (Q := any); [|intros _ _; apply safe_log].
      destruct v; try (constructor; apply inner_TypeError). repeat constructor. }
    intros _ _.
    eapply safe_bind; [apply (safe_coordinator inner), inner_mining_failed|].
    intros minedBlock _.
    eapply safe_bind; [apply safe_json_of|]. intros sent _. cbv zeta.
    eapply safe_bind; [apply safe_axios_post|]. intros data _.
    eapply safe_bind; [apply (safe_blockHash_of inner), inner_TypeError|].
    intros blockHash _. apply safe_log.
  - intros e He.
    eapply safe_bind; [apply (safe_format_error e He)|]. intros _ _.
    eapply safe_bind; [apply safe_log|]. intros _ _.
    eapply safe_bind; [apply safe_log|]. intros _ _.
    apply safe_retry_loop.
Qed.

(** The fetch throws nothing, and the [length] of what it returns can be
    read and printed. *)
Lemma safe_getPendingTransactions :
  safe allowed answers (fun v => forall w, sound_length (json_in v w)) getPendingTransactions.
Proof.
  assert (Hempty : forall a w, sound_length (json_in (VArr a) w))
    by (intros a w; split; [discriminate|reflexivity]).
  unfold getPendingTransactions.
  apply safe_try_catch with (P' := fun _ => True).
  - eapply safe_bind; [apply safe_log|]. intros _ _.
    apply safe_bind with (Q := fun _ : JValue => True).
    { constructor. intros [data|response]; now constructor. }
    intros data _.
    destruct (pending_field data) as [pending|] eqn:Ep.
    + eapply safe_bind; [apply safe_interpolate; exact I|]. intros u Hprint.
      cbn beta in Hprint. clear u.
      eapply safe_bind; [apply safe_log|]. intros _ _.
      pose proof (pending_field_not_null data pending Ep) as Hnn.
      destruct pending as [ |b|n|s|items|fields]; cbn [value_of new_array bind];
        try (constructor; intros w; split; [discriminate|exact Hprint]).
      * now destruct Hnn.
      * constructor. intros a. constructor. apply Hempty.
    + eapply safe_bind; [apply safe_log|]. intros _ _.
      cbn [new_array bind]. constructor. intros a. constructor. apply Hempty.
  - intros e _.
    eapply safe_bind; [apply safe_log|]. intros _ _.
    cbn [new_array bind]. constructor. intros a. constructor. apply Hempty.
Qed.

Lemma safe_startMining (fuel : nat) (cfg : Config) :
  safe allowed answers any (startMining fuel cfg).
Proof.
  unfold startMining, now.
  apply safe_bind with (Q := fun _ : N => True); [constructor; intros; now constructor|].
  intros timestamp _.
  eapply safe_bind; [apply safe_log|]. intros _ _.
  eapply safe_bind; [apply safe_getPendingTransactions|]. intros pending Hsound.
  eapply safe_bind; [apply (safe_length_of_sound allowed pending Hsound)|].
  intros count Hprint.
  apply safe_bind with (Q := fun _ : bool => True).
  { unfold positive. destruct count as [x|]; [|now constructor].
    destruct (printable_comparable x Hprint) as [b ->]. now constructor. }
  intros some _.
  eapply safe_bind; [|intros _ _; apply safe_log].
  destruct some.
  - apply safe_bind with (Q := any).
    { unfold interpolate. destruct count as [x|]; [rewrite Hprint|]; now constructor. }
    intros _ _.
    eapply safe_bind; [apply safe_log|]. intros _ _. apply safe_mineBlock.
  - eapply safe_bind; [apply safe_log|]. intros _ _.
    cbn [new_array bind]. constructor. intros fresh. apply safe_mineBlock.
Qed.

End SafeRound.

Lemma earliest_members (ts : list Task) (t : Task) (others : list Task) :
  earliest ts = Some (t, others) ->
  In t ts /\ forall x, In x others -> In x ts.
Proof.
  revert t others; induction ts as [|y ts IH]; intros t others; cbn [earliest];
    [discriminate|].
  destruct (earliest ts) as [[t' rest']|].
  - destruct (IH t' rest' eq_refl) as [Ht' Hrest].
    destruct (wake y <=? wake t')%N; intros [= <- <-].
    + split; [now left|]. intros x Hx. now right.
    + split; [now right|]. intros x [<-|Hx]; [now left|]. right. now apply Hrest.
  - intros [= <- <-]. split; [now left|]. intros x [].
Qed.

Section SafeProcess.

Variables (allowed : Error -> Prop) (answers : PostResponse -> Prop).
Variables (net : Network) (fuel : nat) (cfg : Config).

Hypothesis refusals :
  forall response, answers (PostFailed response) ->
    formats (HttpError response) \/ allowed TypeError.

Hypothesis service : forall n url body, answers (snd (on_post net n url body)).

Let safe_task (t : Task) : Prop := safe allowed answers (fun _ => True) (resume t).

Lemma dispatch_keeps_safe (t : N) (p : Prog unit) (others : list Task) (tick : N)
    (w : World) :
  safe allowed answers (fun _ => True) p ->
  (forall x, In x others -> safe_task x) ->
  forall x, In x (waiting (dispatch net t p others tick w)) -> safe_task x.
Proof.
  intros Hp Hothers x. unfold dispatch.
  pose proof (safe_advance answers net allowed p (set_clock t w) service Hp) as Hadv.
  destruct (advance net p (set_clock t w)) as [[ |e| |task] w']; cbn [fst waiting] in *;
    auto.
  intros Hin. apply in_app_or in Hin. destruct Hin as [Hin|[<-|[]]]; auto.
Qed.

Lemma turn_keeps_safe (s : Process) :
  (forall x, In x (waiting s) -> safe_task x) ->
  forall x, In x (waiting (turn net fuel cfg s)) -> safe_task x.
Proof.
  intros Hs. unfold turn. destruct (halted s); [exact Hs|].
  assert (Htick : forall x, In x (waiting (fire_tick net fuel cfg s)) -> safe_task x).
  { unfold fire_tick. apply dispatch_keeps_safe; [|exact Hs].
    now apply safe_startMining. }
  destruct (earliest (waiting s)) as [[t others]|] eqn:E; [|exact Htick].
  destruct (earliest_members _ _ _ E) as [Ht Hothers].
  destruct (wake t <=? next_tick s)%N; [|exact Htick].
  apply dispatch_keeps_safe; [exact (Hs t Ht)|].
  intros y Hy. now apply Hs, Hothers.
Qed.

Lemma event_loop_keeps_safe (turns : nat) (t : Task) :
  In t (waiting (event_loop turns net fuel cfg started)) -> safe_task t.
Proof.
  revert t. induction turns as [|n IH]; [intros t []|].
  rewrite event_loop_last. now apply turn_keeps_safe.
Qed.

End SafeProcess.

Lemma formats_refusal (response : option JValue) :
  verdict (PostFailed response) <> Crashes -> formats (HttpError response).
Proof.
  unfold verdict, formats. destruct (reason_of (HttpError response)) as [data|]; [|auto].
  destruct (printable data); congruence.
Qed.

(** An error that leaves [startMining] or [mineBlock] is a [TypeError]: the
    [catch] blocks of [mineBlock] and [retryMineBlock] throw it when they
    format a refusal whose body cannot be converted to a string; every other
    error is caught. The same holds in the running process for a round that
    starts and for one that is resumed. When the service sends no such
    refusal, no error leaves a round at all: a call returns or is still
    searching, and no round ends in a rejection that nobody handles. *)
Theorem rounds_throw_only_TypeError (net : Network) (fuel : nat) (cfg : Config) :
  (forall w e, fst (run net (startMining fuel cfg) w) = Threw e -> e = TypeError) /\
  (forall v w e, fst (run net (mineBlock fuel cfg v) w) = Threw e -> e = TypeError) /\
  (forall turns t w e,
     In t (waiting (event_loop turns net fuel cfg started)) ->
     fst (advance net (resume t) w) = Rejected e -> e = TypeError) /\
  (refusals_can_be_formatted net ->
   (forall w e, fst (run net (startMining fuel cfg) w) <> Threw e) /\
   (forall v w e, fst (run net (mineBlock fuel cfg v) w) <> Threw e) /\
   (forall w e, fst (advance net (startMining fuel cfg) w) <> Rejected e) /\
   (forall turns t w e,
      In t (waiting (event_loop turns net fuel cfg started)) ->
      fst (advance net (resume t) w) <> Rejected e)).
Proof.
  assert (Hany : forall response : option JValue,
            True -> formats (HttpError response) \/ TypeError = TypeError)
    by (intros; now right).
  split; [|split; [|split]].
  - intros w e He.
    pose proof (safe_run (fun _ => True) net _ _ _ w (fun _ _ _ => I)
                  (safe_startMining (eq TypeError) (fun _ => True) Hany fuel cfg)) as H.
    rewrite He in H. now symmetry.
  - intros v w e He.
    pose proof (safe_run (fun _ => True) net _ _ _ w (fun _ _ _ => I)
                  (safe_mineBlock (eq TypeError) (fun _ => True) Hany fuel cfg v)) as H.
    rewrite He in H. now symmetry.
  - intros turns t w e Hin He.
    pose proof (event_loop_keeps_safe (eq TypeError) (fun _ => True) net fuel cfg Hany
                  (fun _ _ _ => I) turns t Hin) as Ht.
    pose proof (safe_advance (fun _ => True) net _ _ w (fun _ _ _ => I) Ht) as H.
    rewrite He in H. now symmetry.
  - intros Hnet.
    assert (Hfmt : forall response : option JValue,
              verdict (PostFailed response) <> Crashes ->
              formats (HttpError response) \/ False)
      by (intros response H; left; now apply formats_refusal).
    split; [|split; [|split]].
    + intros w e He.
      pose proof (safe_run (fun r => verdict r <> Crashes) net _ _ _ w Hnet
                    (safe_startMining (fun _ => False) _ Hfmt fuel cfg)) as H.
      now rewrite He in H.
    + intros v w e He.
      pose proof (safe_run (fun r => verdict r <> Crashes) net _ _ _ w Hnet
                    (safe_mineBlock (fun _ => False) _ Hfmt fuel cfg v)) as H.
      now rewrite He in H.
    + intros w e He.
      pose proof (safe_advance (fun r => verdict r <> Crashes) net _ _ w Hnet
                    (safe_startMining (fun _ => False) _ Hfmt fuel cfg)) as H.
      now rewrite He in H.
    + intros turns t w e Hin He.
      pose proof (event_loop_keeps_safe (fun _ => False) (fun r => verdict r <> Crashes)
                    net fuel cfg Hfmt Hnet turns t Hin) as Ht.
      pose proof (safe_advance (fun r => verdict r <> Crashes) net _ _ w Hnet Ht) as H.
      now rewrite He in H.
Qed.

(** A service that is down rejects no round; one that refuses with the body
    [{"toString":1}] makes the first round throw, which ends the process at
    its third turn (the tick, the answer to the GET, the refusal). *)
Lemma rounds_throw_only_TypeError_witness :
  fst (run service_down (startMining 100 example_config) initial_world) <> Threw TypeError /\
  fst (run (service_refusing_with unprintable) (startMining 100 example_config) initial_world)
    = Threw TypeError /\
  halted (event_loop 3 (service_refusing_with unprintable) 100 example_config started) = true.
Proof.
  split.
  - refine (proj1 (proj2 (proj2 (proj2
      (rounds_throw_only_TypeError service_down 100 example_config))) _) initial_world _).
    intros n url body. discriminate.
  - split; vm_compute; reflexivity.
Defined.
